(** * Property catalogue: ingestion pipeline and search engine

    A shallow embedding of [fetch_to_postgres.py] (remote fetch, sanitising,
    upsert, media insert, pagination loop) and of the query side of
    [chatbot_postgres.py] ([search_properties], [get_available_cities],
    the media preview of [process_message]), with the two PostgreSQL tables
    of [setup_postgres_db.py] as lists of rows.

    Conventions of the model.
    - Text is [string]; a character is an [ascii] and [LOWER] folds the
      letters A-Z only. No text holds the character of code 0, which
      neither the driver nor PostgreSQL takes in a text.
    - Integers are [Z].  [list_price] is [DECIMAL(12,2)]; prices are
      carried as whole numbers of currency units.
    - A nullable column is an [option]; [None] is SQL [NULL].
    - Records of the remote API are typed as its schema types them; the
      strings that go through [safe_str] are wrapped as Python values.
    - The text of a timestamp comes with the verdict of PostgreSQL's
      timestamp input on it, which no file of the repository decides. *)

From Stdlib Require Import List String Ascii ZArith Lia Bool Arith.
From Stdlib Require Import Permutation Sorted DecimalString.
Import ListNotations.

Local Open Scope string_scope.
Local Open Scope Z_scope.
Local Open Scope list_scope.

(** ** Python values and [safe_str] *)

Module Py.

(** The values [safe_str] is applied to. [None] is kept outside: an
    argument that may be [None] is an [option pyval]. *)
Inductive pyval : Type :=
| PStr (s : string)
| PInt (z : Z)
| PBool (b : bool).

(** [str(val)] *)
Definition str (v : pyval) : string :=
  match v with
  | PStr s => s
  | PInt z => NilZero.string_of_int (Z.to_int z)
  | PBool true => "True"
  | PBool false => "False"
  end.

(** The first [n] characters of [s]. *)
Fixpoint take (n : nat) (s : string) : string :=
  match n, s with
  | S n', String c s' => String c (take n' s')
  | _, _ => EmptyString
  end.

(** [s[:n]] for an integer [n]: a negative bound counts from the end. *)
Definition slice_to (s : string) (n : Z) : string :=
  if 0 <=? n then take (Z.to_nat n) s
  else take (Z.to_nat (Z.of_nat (String.length s) + n)) s.

(** Truth value of an optional integer argument: [None] and [0] are falsy. *)
Definition truthy_int (n : option Z) : bool :=
  match n with
  | None => false
  | Some z => negb (z =? 0)
  end.

(** Truth value of an optional string: [None] and [''] are falsy. *)
Definition truthy_str (s : option string) : bool :=
  match s with
  | None | Some EmptyString => false
  | Some _ => true
  end.

End Py.

(** [safe_str(val, max_len=None)]; an omitted [max_len] is [None]. *)
Definition safe_str (val : option Py.pyval) (max_len : option Z) : option string :=
  match val with
  | None => None
  | Some v =>
      let s := Py.str v in
      Some (if Py.truthy_int max_len
            then Py.slice_to s (match max_len with Some n => n | None => 0 end)
            else s)
  end.

(** ** The listing store ([setup_postgres_db.py]) *)

(** A row of [properties]. Only the columns the pipeline writes or the
    search reads are carried; the others keep their defaults for ever. *)
Record property_row : Type := {
  listing_key : string;               (* VARCHAR(50) PRIMARY KEY *)
  unparsed_address : option string;   (* VARCHAR(255) *)
  city : option string;               (* VARCHAR(100) *)
  state_province : option string;     (* VARCHAR(10) *)
  postal_code : option string;        (* VARCHAR(10) *)
  list_price : option Z;              (* DECIMAL(12,2) *)
  standard_status : option string;    (* VARCHAR(50) *)
  property_type : option string;      (* VARCHAR(50) *)
  property_subtype : option string;   (* VARCHAR(100) *)
  bedrooms : option Z;                (* INTEGER *)
  bathrooms : option Z;               (* INTEGER *)
  year_built : option Z;              (* INTEGER *)
  public_remarks : option string;     (* TEXT *)
  last_updated : option string;       (* TIMESTAMP, as the text that was read *)
  fetched_at : Z                      (* TIMESTAMP DEFAULT CURRENT_TIMESTAMP *)
}.

(** A row of [property_media], without its serial [id]. [is_primary] is a
    plain boolean: the only writer stores [PreferredPhotoYN is True]. *)
Record media_row : Type := {
  media_listing_key : option string;  (* VARCHAR(50) REFERENCES properties *)
  media_url : option string;          (* VARCHAR(500) *)
  media_type : option string;         (* VARCHAR(50) *)
  media_category : option string;     (* VARCHAR(50) *)
  display_order : option Z;           (* INTEGER *)
  description : option string;        (* VARCHAR(255) *)
  is_primary : bool                   (* BOOLEAN DEFAULT FALSE *)
}.

(** Modelled from the spec: the [cities] table, which [main] truncates and
    refills but no file of the repository creates; the spec calls it a
    denormalized distinct-city projection, here the list of its names. *)
Record database : Type := {
  properties : list property_row;
  property_media : list media_row;
  cities : list string
}.

Definition empty_database : database :=
  {| properties := []; property_media := []; cities := [] |}.

Definition keys_of (tbl : list property_row) : list string :=
  map listing_key tbl.

(** *** Column types *)

(** [s] without its first [n] characters. *)
Fixpoint drop (n : nat) (s : string) : string :=
  match n, s with
  | S n', String _ s' => drop n' s'
  | _, _ => s
  end.

(** [s] is made of spaces only. *)
Fixpoint blank (s : string) : bool :=
  match s with
  | EmptyString => true
  | String c s' => Ascii.eqb c " " && blank s'
  end.

(** Assignment to a [VARCHAR(n)] column: a value of more than [n]
    characters is refused, unless what exceeds [n] is spaces only. *)
Definition varchar (n : nat) (v : option string) : bool :=
  match v with
  | None => true
  | Some s => blank (drop n s)
  end.

(** The value a [VARCHAR(n)] column stores for [v]: its first [n]
    characters, which is [v] itself when it has no more. *)
Definition stored_varchar (n : nat) (v : option string) : option string :=
  option_map (Py.take n) v.

Definition int4 (v : option Z) : bool :=
  match v with
  | None => true
  | Some z => (- 2147483648 <=? z) && (z <=? 2147483647)
  end.

Definition decimal_12_2 (v : option Z) : bool :=
  match v with
  | None => true
  | Some z => Z.abs z <? 10000000000
  end.

(** The text sent for a [TIMESTAMP] column, with what PostgreSQL's
    timestamp input makes of it. *)
Inductive timestamp_text : Type :=
| Timestamp (text : string)        (* a text the store reads as a timestamp *)
| NotTimestamp (text : string).    (* a text it refuses *)

Definition timestamp (v : option timestamp_text) : bool :=
  match v with
  | Some (NotTimestamp _) => false
  | _ => true
  end.

(** The value a [TIMESTAMP] column stores for [v]. *)
Definition stored_timestamp (v : option timestamp_text) : option string :=
  match v with
  | Some (Timestamp text) => Some text
  | _ => None
  end.

(** *** The upsert statement of [insert_properties] *)

(** One element of [property_data], in the order of the VALUES list. *)
Record property_tuple : Type := {
  t_listing_key : option string;
  t_unparsed_address : option string;
  t_city : option string;
  t_state_province : option string;
  t_postal_code : option string;
  t_list_price : option Z;
  t_standard_status : option string;
  t_property_type : option string;
  t_property_subtype : option string;
  t_bedrooms : option Z;
  t_bathrooms : option Z;
  t_year_built : option Z;
  t_public_remarks : option string;
  t_last_updated : option timestamp_text
}.

(** The values of [t] as their columns store them. *)
Definition stored_tuple (t : property_tuple) : property_tuple :=
  {| t_listing_key := stored_varchar 50 (t_listing_key t);
     t_unparsed_address := stored_varchar 255 (t_unparsed_address t);
     t_city := stored_varchar 100 (t_city t);
     t_state_province := stored_varchar 10 (t_state_province t);
     t_postal_code := stored_varchar 10 (t_postal_code t);
     t_list_price := t_list_price t;
     t_standard_status := stored_varchar 50 (t_standard_status t);
     t_property_type := stored_varchar 50 (t_property_type t);
     t_property_subtype := stored_varchar 100 (t_property_subtype t);
     t_bedrooms := t_bedrooms t;
     t_bathrooms := t_bathrooms t;
     t_year_built := t_year_built t;
     t_public_remarks := t_public_remarks t;
     t_last_updated := t_last_updated t |}.

(** The row proposed for insertion ([EXCLUDED] in the conflict action),
    from the values as stored. *)
Definition proposed_row (now : Z) (key : string) (t : property_tuple) : property_row :=
  {| listing_key := key;
     unparsed_address := t_unparsed_address t;
     city := t_city t;
     state_province := t_state_province t;
     postal_code := t_postal_code t;
     list_price := t_list_price t;
     standard_status := t_standard_status t;
     property_type := t_property_type t;
     property_subtype := t_property_subtype t;
     bedrooms := t_bedrooms t;
     bathrooms := t_bathrooms t;
     year_built := t_year_built t;
     public_remarks := t_public_remarks t;
     last_updated := stored_timestamp (t_last_updated t);
     fetched_at := now |}.

(** [DO UPDATE SET c = EXCLUDED.c] for the thirteen listed columns. *)
Definition do_update (old excluded : property_row) : property_row :=
  {| listing_key := listing_key old;
     unparsed_address := unparsed_address excluded;
     city := city excluded;
     state_province := state_province excluded;
     postal_code := postal_code excluded;
     list_price := list_price excluded;
     standard_status := standard_status excluded;
     property_type := property_type excluded;
     property_subtype := property_subtype excluded;
     bedrooms := bedrooms excluded;
     bathrooms := bathrooms excluded;
     year_built := year_built excluded;
     public_remarks := public_remarks excluded;
     last_updated := last_updated excluded;
     fetched_at := fetched_at old |}.

(** [INSERT ... ON CONFLICT (listing_key) DO UPDATE]: the row with the
    same key is updated in place, otherwise the proposed row is added. *)
Fixpoint on_conflict_update (excluded : property_row) (tbl : list property_row)
  : list property_row :=
  match tbl with
  | [] => [excluded]
  | r :: tbl' =>
      if String.eqb (listing_key r) (listing_key excluded)
      then do_update r excluded :: tbl'
      else r :: on_conflict_update excluded tbl'
  end.

(** Reasons for which the store refuses a statement. *)
Inductive db_error : Type :=
| InvalidDatetime        (* a text that is no timestamp *)
| ValueTooLong           (* value too long for type character varying *)
| NumericOutOfRange      (* numeric field overflow, integer out of range *)
| NotNullViolation
| ForeignKeyViolation.

(** The error of the first check that fails, if one does. *)
Fixpoint first_failure (checks : list (bool * db_error)) : option db_error :=
  match checks with
  | [] => None
  | (true, _) :: rest => first_failure rest
  | (false, e) :: _ => Some e
  end.

(** What the store checks of the parameters of one upsert, in the order
    in which it comes to it: the text of the timestamp is read when the
    statement is analysed; the values are then cast to the types of
    their columns, in the order of the columns of the table; the
    NOT NULL constraint of the key is checked when the row is inserted. *)
Definition property_tuple_check (t : property_tuple) : option db_error :=
  first_failure
    [ (timestamp (t_last_updated t), InvalidDatetime);
      (varchar 50 (t_listing_key t), ValueTooLong);
      (varchar 100 (t_city t), ValueTooLong);
      (varchar 10 (t_state_province t), ValueTooLong);
      (varchar 10 (t_postal_code t), ValueTooLong);
      (varchar 255 (t_unparsed_address t), ValueTooLong);
      (decimal_12_2 (t_list_price t), NumericOutOfRange);
      (varchar 50 (t_standard_status t), ValueTooLong);
      (int4 (t_bedrooms t), NumericOutOfRange);
      (int4 (t_bathrooms t), NumericOutOfRange);
      (varchar 50 (t_property_type t), ValueTooLong);
      (varchar 100 (t_property_subtype t), ValueTooLong);
      (int4 (t_year_built t), NumericOutOfRange);
      (match t_listing_key t with Some _ => true | None => false end, NotNullViolation) ].

(** One execution of [property_query] with the parameters [t]. *)
Definition upsert_statement (now : Z) (t : property_tuple) (db : database)
  : db_error + database :=
  match property_tuple_check t, t_listing_key (stored_tuple t) with
  | Some e, _ => inl e
  | None, None => inl NotNullViolation
  | None, Some key =>
      inr {| properties :=
               on_conflict_update (proposed_row now key (stored_tuple t)) (properties db);
             property_media := property_media db;
             cities := cities db |}
  end.

(** *** The insert statement of [insert_media] *)

(** The values of [m] as their columns store them. *)
Definition stored_media (m : media_row) : media_row :=
  {| media_listing_key := stored_varchar 50 (media_listing_key m);
     media_url := stored_varchar 500 (media_url m);
     media_type := stored_varchar 50 (media_type m);
     media_category := stored_varchar 50 (media_category m);
     display_order := display_order m;
     description := stored_varchar 255 (description m);
     is_primary := is_primary m |}.

(** The casts, in the order of the columns of the table, then the
    reference to [properties], checked on the key as stored; [keys] are
    the keys of [properties]. *)
Definition media_tuple_check (keys : list string) (m : media_row) : option db_error :=
  first_failure
    [ (varchar 50 (media_listing_key m), ValueTooLong);
      (varchar 500 (media_url m), ValueTooLong);
      (varchar 50 (media_type m), ValueTooLong);
      (varchar 50 (media_category m), ValueTooLong);
      (int4 (display_order m), NumericOutOfRange);
      (varchar 255 (description m), ValueTooLong);
      (match stored_varchar 50 (media_listing_key m) with
       | None => true
       | Some k => existsb (String.eqb k) keys
       end, ForeignKeyViolation) ].

(** [INSERT INTO property_media ... ON CONFLICT DO NOTHING]: the only
    unique column is the serial [id], so no insert ever conflicts. *)
Definition media_statement (m : media_row) (db : database) : db_error + database :=
  match media_tuple_check (keys_of (properties db)) m with
  | Some e => inl e
  | None =>
      inr {| properties := properties db;
             property_media := property_media db ++ [stored_media m];
             cities := cities db |}
  end.

(** ** The remote catalogue *)

(** A record of the [Property] resource, with the fields of [$select]. *)
Record raw_listing : Type := {
  ListingKey : option string;
  UnparsedAddress : option string;
  City : option string;
  StateOrProvince : option string;
  PostalCode : option string;
  ListPrice : option Z;
  StandardStatus : option string;
  PropertyType : option string;
  PropertySubType : option string;
  BedroomsTotal : option Z;
  BathroomsTotalInteger : option Z;
  YearBuilt : option Z;
  PublicRemarks : option string;
  ModificationTimestamp : option timestamp_text   (* the text and what the store makes of it *)
}.

(** A record of the [Media] resource. *)
Record raw_media : Type := {
  ResourceRecordKey : option string;
  MediaURL : option string;
  MediaType : option string;
  MediaCategory : option string;
  Order : option Z;
  ShortDescription : option string;
  PreferredPhotoYN : option bool
}.

(** What [httpx.get] meets: a response with its status code and, when the
    body parses as JSON, the list under ["value"]; or no response at all
    (unreachable host, timeout), for which [httpx.get] raises. *)
Inductive reply (A : Type) : Type :=
| Response (status_code : Z) (value : option (list A))
| NoResponse.
Arguments Response {A} status_code value.
Arguments NoResponse {A}.

(** The remote API for one run: the answer to each [$skip] and to each
    media filter. Every URL is requested at most once in a run. *)
Record remote : Type := {
  property_page : Z -> reply raw_listing;
  media_of : string -> reply raw_media
}.

(** ** Effects: connection state, exceptions, output *)

Inductive exn : Type :=
| TransportError
| JSONDecodeError
| DatabaseError (e : db_error).

Inductive diagnostic : Type :=
| PropertyFetchFailed (status : Z)
| InsertedUpdated (n : nat)
| ErrorInsertingProperties (e : exn)
| MediaFetchFailed (status : Z) (key : string)
| ErrorFetchingMedia (key : string) (e : exn)
| InsertedMedia (n : nat)
| ErrorInsertingMedia (e : exn)
| FetchingMedia (n : nat)
| BatchProgress (batch : Z) (total : nat)
| FetchComplete (total : nat)
| CitiesRefreshed.

Inductive table_name : Type := Properties | PropertyMedia.

(** What a run does that can be observed from outside. *)
Inductive event : Type :=
| GetProperty (top skip : Z)
| GetMedia (key : string)
| ExecuteBatch (table : table_name) (rows : nat)
| Commit
| Rollback
| Print (d : diagnostic).

(** The psycopg2 connection: the committed database, the database as the
    open transaction sees it, and a logical clock for CURRENT_TIMESTAMP
    that advances when a transaction ends. *)
Record connection : Type := {
  committed : database;
  pending : database;
  clock : Z
}.

Definition connect (db : database) (now : Z) : connection :=
  {| committed := db; pending := db; clock := now |}.

Inductive result (A : Type) : Type :=
| Ok (a : A)
| Raised (e : exn).
Arguments Ok {A} a.
Arguments Raised {A} e.

(** A computation: from the connection to a result or an exception, the
    connection afterwards and the events emitted on the way. *)
Definition M (A : Type) : Type := connection -> result A * connection * list event.

Definition ret {A} (a : A) : M A := fun c => (Ok a, c, []).

Definition raise {A} (e : exn) : M A := fun c => (Raised e, c, []).

Definition bind {A B} (m : M A) (k : A -> M B) : M B :=
  fun c =>
    match m c with
    | (Ok a, c1, t1) => let '(r, c2, t2) := k a c1 in (r, c2, t1 ++ t2)
    | (Raised e, c1, t1) => (Raised e, c1, t1)
    end.

(** [try: m  except Exception as e: h e] *)
Definition try_except {A} (m : M A) (h : exn -> M A) : M A :=
  fun c =>
    match m c with
    | (Ok a, c1, t1) => (Ok a, c1, t1)
    | (Raised e, c1, t1) => let '(r, c2, t2) := h e c1 in (r, c2, t1 ++ t2)
    end.

Definition emit (e : event) : M unit := fun c => (Ok tt, c, [e]).

Definition print (d : diagnostic) : M unit := emit (Print d).

Declare Scope pipeline_scope.
Delimit Scope pipeline_scope with pipeline.
Notation "x <- m ;; k" := (bind m (fun x => k))
  (at level 100, m at next level, right associativity) : pipeline_scope.
Notation "m ;; k" := (bind m (fun _ => k))
  (at level 100, right associativity) : pipeline_scope.
Local Open Scope pipeline_scope.

(** [httpx.get(url, ...)] followed by reading [r.status_code]. *)
Definition httpx_get {A} (request : event) (r : reply A) : M (Z * option (list A)) :=
  emit request ;;
  match r with
  | Response status value => ret (status, value)
  | NoResponse => raise TransportError
  end.

(** [r.json().get("value", [])] *)
Definition json_value {A} (body : option (list A)) : M (list A) :=
  match body with
  | Some v => ret v
  | None => raise JSONDecodeError
  end.

(** [cursor.execute] of one statement inside the open transaction. *)
Definition execute (stmt : Z -> database -> db_error + database) : M unit :=
  fun c =>
    match stmt (clock c) (pending c) with
    | inr db => (Ok tt, {| committed := committed c; pending := db; clock := clock c |}, [])
    | inl e => (Raised (DatabaseError e), c, [])
    end.

Fixpoint execute_each {A} (query : A -> Z -> database -> db_error + database)
    (argslist : list A) : M unit :=
  match argslist with
  | [] => ret tt
  | a :: rest => execute (query a) ;; execute_each query rest
  end.

(** [execute_batch(cursor, query, argslist, page_size=100)]: the statements
    run one after the other in the open transaction. *)
Definition execute_batch {A} (table : table_name)
    (query : A -> Z -> database -> db_error + database) (argslist : list A) : M unit :=
  emit (ExecuteBatch table (List.length argslist)) ;;
  execute_each query argslist.

(** [conn.commit()] *)
Definition commit : M unit :=
  fun c => (Ok tt, {| committed := pending c; pending := pending c; clock := clock c + 1 |},
            [Commit]).

(** [conn.rollback()] *)
Definition rollback : M unit :=
  fun c => (Ok tt, {| committed := committed c; pending := committed c; clock := clock c + 1 |},
            [Rollback]).

(** ** The fetcher ([PropertyFetcher]) *)

Definition pstr (v : option string) : option Py.pyval := option_map Py.PStr v.

(** [fetch_properties(top, skip)] *)
Definition fetch_properties (api : remote) (top skip : Z) : M (list raw_listing) :=
  r <- httpx_get (GetProperty top skip) (property_page api skip) ;;
  if fst r =? 200 then json_value (snd r)
  else (print (PropertyFetchFailed (fst r)) ;; ret []).

(** The tuple [insert_properties] builds for one record. *)
Definition property_data_of (p : raw_listing) : property_tuple :=
  {| t_listing_key := safe_str (pstr (ListingKey p)) (Some 50);
     t_unparsed_address := safe_str (pstr (UnparsedAddress p)) (Some 255);
     t_city := safe_str (pstr (City p)) (Some 100);
     t_state_province := safe_str (pstr (StateOrProvince p)) (Some 10);
     t_postal_code := safe_str (pstr (PostalCode p)) (Some 10);
     t_list_price := ListPrice p;
     t_standard_status := safe_str (pstr (StandardStatus p)) (Some 50);
     t_property_type := safe_str (pstr (PropertyType p)) (Some 50);
     t_property_subtype := safe_str (pstr (PropertySubType p)) (Some 100);
     t_bedrooms := BedroomsTotal p;
     t_bathrooms := BathroomsTotalInteger p;
     t_year_built := YearBuilt p;
     t_public_remarks := safe_str (pstr (PublicRemarks p)) None;
     t_last_updated := ModificationTimestamp p |}.

Definition property_query (t : property_tuple) (now : Z) (db : database)
  : db_error + database :=
  upsert_statement now t db.

(** [insert_properties(properties)] *)
Definition insert_properties (properties : list raw_listing) : M unit :=
  let property_data := map property_data_of properties in
  try_except
    ((match property_data with
      | [] => ret tt
      | _ :: _ => execute_batch Properties property_query property_data
      end) ;;
     commit ;;
     print (InsertedUpdated (List.length property_data)))
    (fun e => rollback ;; print (ErrorInsertingProperties e)).

(** The tuple [fetch_media_for_properties] builds for one item. *)
Definition media_record_of (item : raw_media) : media_row :=
  {| media_listing_key := safe_str (pstr (ResourceRecordKey item)) (Some 50);
     media_url := MediaURL item;
     media_type := safe_str (pstr (MediaType item)) (Some 50);
     media_category := safe_str (pstr (MediaCategory item)) (Some 50);
     display_order := Order item;
     description := ShortDescription item;
     is_primary := match PreferredPhotoYN item with Some true => true | _ => false end |}.

Definition media_query (m : media_row) (_ : Z) (db : database) : db_error + database :=
  media_statement m db.

(** [insert_media(media_records)] *)
Definition insert_media (media_records : list media_row) : M unit :=
  try_except
    (execute_batch PropertyMedia media_query media_records ;;
     commit ;;
     print (InsertedMedia (List.length media_records)))
    (fun e => rollback ;; print (ErrorInsertingMedia e)).

(** The body of the loop over [listing_keys], from the records gathered
    so far to the records gathered after this key. *)
Definition fetch_media_for_key (api : remote) (media_records : list media_row)
    (key : string) : M (list media_row) :=
  try_except
    (r <- httpx_get (GetMedia key) (media_of api key) ;;
     if fst r =? 200 then
       (data <- json_value (snd r) ;;
        ret (media_records ++ map media_record_of data))
     else (print (MediaFetchFailed (fst r) key) ;; ret media_records))
    (fun e => print (ErrorFetchingMedia key e) ;; ret media_records).

Fixpoint fetch_media_records (api : remote) (media_records : list media_row)
    (listing_keys : list string) : M (list media_row) :=
  match listing_keys with
  | [] => ret media_records
  | key :: rest =>
      media_records' <- fetch_media_for_key api media_records key ;;
      fetch_media_records api media_records' rest
  end.

(** [fetch_media_for_properties(listing_keys)] *)
Definition fetch_media_for_properties (api : remote) (listing_keys : list string) : M unit :=
  media_records <- fetch_media_records api [] listing_keys ;;
  match media_records with
  | [] => ret tt
  | _ :: _ => insert_media media_records
  end.

(** [range(start, stop, step)] for a positive [step]. *)
Definition py_range (start stop step : Z) : list Z :=
  map (fun i => start + step * Z.of_nat i)
      (seq 0 (Z.to_nat ((stop - start + step - 1) / step))).

(** [[p.get("ListingKey") for p in props if p.get("ListingKey")]] *)
Definition listing_keys_of (props : list raw_listing) : list string :=
  flat_map (fun p => match ListingKey p with
                     | Some k => if Py.truthy_str (Some k) then [k] else []
                     | None => []
                     end) props.

(** The [for skip in ...] loop of [fetch_all] over the offsets still to
    visit, with the running [total]. *)
Fixpoint fetch_all_loop (api : remote) (fetch_media : bool) (skips : list Z)
    (total : nat) : M nat :=
  match skips with
  | [] => ret total
  | skip :: rest =>
      props <- fetch_properties api 100 skip ;;
      match props with
      | [] => ret total
      | _ :: _ =>
          insert_properties props ;;
          let keys := listing_keys_of props in
          (match fetch_media, keys with
           | true, _ :: _ =>
               print (FetchingMedia (List.length keys)) ;;
               fetch_media_for_properties api keys
           | _, _ => ret tt
           end) ;;
          let total := (total + List.length props)%nat in
          print (BatchProgress (skip / 100 + 1) total) ;;
          fetch_all_loop api fetch_media rest total
      end
  end.

(** [fetch_all(limit, fetch_media)] *)
Definition fetch_all (api : remote) (limit : Z) (fetch_media : bool) : M unit :=
  total <- fetch_all_loop api fetch_media (py_range 0 limit 100) 0%nat ;;
  print (FetchComplete total).

(** [SELECT DISTINCT city FROM properties WHERE city IS NOT NULL] *)
Fixpoint distinct_cities (tbl : list property_row) (seen : list string) : list string :=
  match tbl with
  | [] => []
  | r :: tbl' =>
      match city r with
      | Some c =>
          if existsb (String.eqb c) seen then distinct_cities tbl' seen
          else c :: distinct_cities tbl' (c :: seen)
      | None => distinct_cities tbl' seen
      end
  end.

(** [TRUNCATE cities] then [INSERT INTO cities (name) SELECT DISTINCT ...] *)
Definition refresh_cities (_ : Z) (db : database) : db_error + database :=
  inr {| properties := properties db;
         property_media := property_media db;
         cities := distinct_cities (properties db) [] |}.

(** [main()], on the connection it has just opened. *)
Definition main (api : remote) : M unit :=
  fetch_all api 10000 true ;;
  execute refresh_cities ;;
  commit ;;
  print CitiesRefreshed.

(** ** SQL used by the search engine *)

Module Sql.

(** [LOWER] on the letters A-Z. *)
Definition lower_char (c : ascii) : ascii :=
  let n := nat_of_ascii c in
  if ((65 <=? n) && (n <=? 90))%nat then ascii_of_nat (n + 32) else c.

Fixpoint lower (s : string) : string :=
  match s with
  | EmptyString => EmptyString
  | String c s' => String (lower_char c) (lower s')
  end.

(** [s LIKE pattern]: [%] stands for any run of characters, [_] for any
    one character, and a backslash makes the next character literal. A
    pattern that ends in a lone backslash is an error in PostgreSQL; the
    patterns built here end in [%] and never reach that case. *)
Fixpoint like (pattern : string) : string -> bool :=
  match pattern with
  | EmptyString => fun s => match s with EmptyString => true | String _ _ => false end
  | String p rest =>
      if Ascii.eqb p "%" then
        fix any (s : string) : bool :=
          like rest s || match s with
                         | EmptyString => false
                         | String _ s' => any s'
                         end
      else if Ascii.eqb p "_" then
        fun s => match s with
                 | EmptyString => false
                 | String _ s' => like rest s'
                 end
      else if Ascii.eqb p "\" then
        match rest with
        | EmptyString => fun _ => false
        | String q rest' =>
            fun s => match s with
                     | EmptyString => false
                     | String c s' => Ascii.eqb c q && like rest' s'
                     end
        end
      else
        fun s => match s with
                 | EmptyString => false
                 | String c s' => Ascii.eqb c p && like rest s'
                 end
  end.

(** Three-valued [AND]; [None] is unknown. *)
Definition and3 (a b : option bool) : option bool :=
  match a, b with
  | Some false, _ | _, Some false => Some false
  | Some true, Some true => Some true
  | _, _ => None
  end.

(** [ORDER BY x DESC]: NULL sorts before every value. *)
Definition desc (a b : option Z) : bool :=
  match a, b with
  | None, _ => true
  | Some _, None => false
  | Some x, Some y => y <=? x
  end.

(** [ORDER BY x] (ascending): NULL sorts after every value. *)
Definition asc (a b : option Z) : bool :=
  match a, b with
  | _, None => true
  | None, Some _ => false
  | Some x, Some y => x <=? y
  end.

Section OrderBy.
Context {A : Type}.
Variable le : A -> A -> bool.

Fixpoint insert_row (x : A) (l : list A) : list A :=
  match l with
  | [] => [x]
  | y :: l' => if le x y then x :: l else y :: insert_row x l'
  end.

(** [ORDER BY]: rows that compare equal keep the order of the scan.
    PostgreSQL leaves the order of such rows open; the properties
    proved of the result hold for any order of them. *)
Definition order_by (l : list A) : list A := fold_right insert_row [] l.
End OrderBy.

(** [LIMIT n] *)
Definition limit {A} (n : nat) (l : list A) : list A := firstn n l.

End Sql.

(** ** The search engine ([PropertyChatbotDB]) *)

(** A keyword argument of [search_properties], which takes them as the
    dictionary [params]: the key may be missing, or bound to [None], or bound to a value. *)
Inductive kwarg (A : Type) : Type :=
| Absent
| Given (v : option A).
Arguments Absent {A}.
Arguments Given {A} v.

(** [params.get(name)] *)
Definition get {A} (a : kwarg A) : option A :=
  match a with
  | Absent => None
  | Given v => v
  end.

Record search_params : Type := {
  q_city : kwarg string;
  q_min_price : kwarg Z;
  q_max_price : kwarg Z;
  q_bedrooms : kwarg Z;
  q_bathrooms : kwarg Z
}.

Definition no_params : search_params :=
  {| q_city := Absent; q_min_price := Absent; q_max_price := Absent;
     q_bedrooms := Absent; q_bathrooms := Absent |}.

(** A condition appended to [conditions], with its entry of [values]. *)
Inductive condition : Type :=
| CityLike (value : string)        (* LOWER(city) LIKE LOWER(%s) *)
| ListPriceGe (value : Z)          (* list_price >= %s *)
| ListPriceLe (value : Z)          (* list_price <= %s *)
| BedroomsEq (value : Z)           (* bedrooms = %s *)
| BathroomsEq (value : Z).         (* bathrooms = %s *)

Definition eval_condition (c : condition) (p : property_row) : option bool :=
  match c with
  | CityLike v => option_map (fun x => Sql.like (Sql.lower v) (Sql.lower x)) (city p)
  | ListPriceGe v => option_map (fun x => v <=? x) (list_price p)
  | ListPriceLe v => option_map (fun x => x <=? v) (list_price p)
  | BedroomsEq v => option_map (fun x => x =? v) (bedrooms p)
  | BathroomsEq v => option_map (fun x => x =? v) (bathrooms p)
  end.

(** The conditions joined by [AND]; with none, [1=1]. *)
Definition where_clause (conditions : list condition) (p : property_row) : option bool :=
  fold_right (fun c acc => Sql.and3 (eval_condition c p) acc) (Some true) conditions.

(** A row passes [WHERE] when the clause is true, not false or unknown. *)
Definition selected (conditions : list condition) (p : property_row) : bool :=
  match where_clause conditions p with
  | Some true => true
  | _ => false
  end.

(** The [if params.get(name): conditions.append(...)] sequence. *)
Definition conditions_of (params : search_params) : list condition :=
  (match get (q_city params) with
   | Some c => if Py.truthy_str (Some c) then [CityLike ("%" ++ c ++ "%")%string] else []
   | None => []
   end)
  ++ (match get (q_min_price params) with
      | Some v => if Py.truthy_int (Some v) then [ListPriceGe v] else []
      | None => []
      end)
  ++ (match get (q_max_price params) with
      | Some v => if Py.truthy_int (Some v) then [ListPriceLe v] else []
      | None => []
      end)
  ++ (match get (q_bedrooms params) with
      | Some v => if Py.truthy_int (Some v) then [BedroomsEq v] else []
      | None => []
      end)
  ++ (match get (q_bathrooms params) with
      | Some v => if Py.truthy_int (Some v) then [BathroomsEq v] else []
      | None => []
      end).

(** The listing query: [WHERE ... ORDER BY list_price DESC LIMIT 10]. *)
Definition listing_query (conditions : list condition) (db : database) : list property_row :=
  Sql.limit 10
    (Sql.order_by (fun a b => Sql.desc (list_price a) (list_price b))
       (filter (selected conditions) (properties db))).

Definition media_of_listing (key : string) (m : media_row) : bool :=
  match media_listing_key m with
  | Some k => String.eqb k key
  | None => false
  end.

(** [ORDER BY is_primary DESC, display_order] *)
Definition media_order (a b : media_row) : bool :=
  match is_primary a, is_primary b with
  | true, false => true
  | false, true => false
  | _, _ => Sql.asc (display_order a) (display_order b)
  end.

(** The rows behind the media query of one listing, before the SELECT
    list is applied: [WHERE listing_key = %s ORDER BY ... LIMIT 5]. *)
Definition media_rows (key : string) (db : database) : list media_row :=
  Sql.limit 5 (Sql.order_by media_order (filter (media_of_listing key) (property_media db))).

(** [SELECT media_url, media_type, is_primary] *)
Definition media_item : Type := option string * option string * bool.

Definition select_media (m : media_row) : media_item :=
  (media_url m, media_type m, is_primary m).

(** One element of the list [search_properties] returns. [hit] stands for
    the selected listing columns; [state_province], [last_updated] and
    [fetched_at] are not in the SELECT list and no caller reads them. *)
Record search_hit : Type := {
  hit : property_row;
  photo_count : nat;
  media : list media_item
}.

(** [search_properties], on its keyword arguments [params] *)
Definition search_properties (params : search_params) (db : database) : list search_hit :=
  map (fun p =>
         {| hit := p;
            photo_count :=
              List.length (filter (media_of_listing (listing_key p)) (property_media db));
            media := map select_media (media_rows (listing_key p) db) |})
      (listing_query (conditions_of params) db).

(** The media loop of [process_message] for one property: the URLs it
    appends to [media_urls]. *)
Definition preview_urls (prop : search_hit) : list string :=
  flat_map (fun m : media_item =>
              match fst (fst m) with
              | Some u => if Py.truthy_str (Some u) then [u] else []
              | None => []
              end)
           (firstn 3 (media prop)).

(** The ["media_urls"] entry of the dictionary [process_message] returns. *)
Definition media_urls (properties : list search_hit) : list string :=
  firstn 9 (flat_map preview_urls (firstn 3 properties)).

(** [GROUP BY city] with its row count: one more row for the city [c]. *)
Fixpoint count_row (c : string) (groups : list (string * nat)) : list (string * nat) :=
  match groups with
  | [] => [(c, 1%nat)]
  | (c', n) :: rest =>
      if String.eqb c' c then (c', S n) :: rest else (c', n) :: count_row c rest
  end.

Definition group_by_city (tbl : list property_row) : list (string * nat) :=
  fold_left (fun groups r => match city r with
                             | Some c => count_row c groups
                             | None => groups
                             end) tbl [].

(** The rows [cursor.fetchall()] returns in [get_available_cities]. *)
Definition cities_query (db : database) : list (string * nat) :=
  Sql.limit 20
    (Sql.order_by (fun a b : string * nat => (snd b <=? snd a)%nat)
       (group_by_city (properties db))).

(** [f"{c['city']} ({c['count']} properties)"] *)
Definition city_line (c : string * nat) : string :=
  (fst c ++ " (" ++ NilZero.string_of_uint (Nat.to_uint (snd c)) ++ " properties)")%string.

(** [get_available_cities()] *)
Definition get_available_cities (db : database) : list string :=
  map city_line (cities_query db).


(** ** The conversation side of [PropertyChatbotDB] *)

(** The two calls to the language model: what it extracts from a message
    and how it presents a result. [None] stands for a call that raises
    (or, for the extraction, an answer that is not JSON); an extraction
    that succeeds is taken to be well typed, and a presentation that
    succeeds to be a string. *)
Record openai : Type := {
  extract_reply : string -> option search_params;
  present_reply : list search_hit -> string -> option string
}.

(** A value returned, or the TypeError of formatting [None] as a number. *)
Inductive answer (A : Type) : Type :=
| Return (a : A)
| RaiseTypeError.
Arguments Return {A} a.
Arguments RaiseTypeError {A}.

(** [chr(10)] *)
Definition newline : string := String (ascii_of_nat 10) EmptyString.

(** [needle in haystack] *)
Fixpoint contains (needle haystack : string) : bool :=
  String.prefix needle haystack
  || match haystack with
     | EmptyString => false
     | String _ rest => contains needle rest
     end.

(** [str(n)] for a count *)
Definition str_nat (n : nat) : string := NilZero.string_of_uint (Nat.to_uint n).

(** An optional value inside an f-string: [None] prints as its name. *)
Definition fstr_string (v : option string) : string :=
  match v with
  | Some s => s
  | None => "None"
  end.

Definition fstr_int (v : option Z) : string :=
  match v with
  | Some z => Py.str (Py.PInt z)
  | None => "None"
  end.

(** A comma before every group of three digits, [k] digits being left in
    the current group. *)
Fixpoint group_digits (k : nat) (digits : string) : string :=
  match digits with
  | EmptyString => EmptyString
  | String d rest =>
      match k with
      | O => String "," (String d (group_digits 2 rest))
      | S k' => String d (group_digits k' rest)
      end
  end.

(** [f"{price:,.0f}"] for a whole price *)
Definition thousands (price : Z) : string :=
  let digits := Py.str (Py.PInt (Z.abs price)) in
  let body := group_digits (S ((String.length digits - 1) mod 3)) digits in
  if price <? 0 then String "-" body else body.

(** [extract_parameters(message)]: the dictionary of the model, or the
    empty one when anything goes wrong. *)
Definition extract_parameters (ai : openai) (message : string) : search_params :=
  match extract_reply ai message with
  | Some params => params
  | None => no_params
  end.

Definition no_match_message : string :=
  "I couldn't find any properties matching your criteria. Try adjusting your search or ask 'what cities are available?'".

(** The loop of the [except] branch of [format_response], from the
    property numbered [i] on, [result] being the text so far. *)
Fixpoint fallback_lines (i : nat) (properties : list search_hit) (result : string)
  : answer string :=
  match properties with
  | [] => Return result
  | p :: rest =>
      match list_price (hit p) with
      | None => RaiseTypeError
      | Some price =>
          fallback_lines (S i) rest
            (result
             ++ (str_nat i ++ ". " ++ fstr_string (unparsed_address (hit p)) ++ newline)
             ++ ("   $" ++ thousands price ++ " | " ++ fstr_int (bedrooms (hit p))
                 ++ " bed, " ++ fstr_int (bathrooms (hit p)) ++ " bath" ++ newline)
             ++ ("   " ++ str_nat (photo_count p) ++ " photos available"
                 ++ newline ++ newline))%string
      end
  end.

(** [format_response(properties, user_message)]; the prompt is built from
    the first five properties and the message. *)
Definition format_response (ai : openai) (properties : list search_hit)
    (user_message : string) : answer string :=
  match properties with
  | [] => Return no_match_message
  | _ :: _ =>
      match present_reply ai (firstn 5 properties) user_message with
      | Some content => Return content
      | None =>
          fallback_lines 1 (firstn 5 properties)
            ("Found " ++ str_nat (List.length properties) ++ " properties:"
             ++ newline ++ newline)%string
      end
  end.

(** The dictionary [process_message] returns. *)
Record chat_result : Type := {
  r_success : bool;
  r_message : string;
  r_properties : list search_hit;
  r_media_urls : list string
}.

(** [process_message(message)]; [message.lower()] is the fold of the
    letters A-Z. *)
Definition process_message (ai : openai) (db : database) (message : string)
  : answer chat_result :=
  if contains "help" (Sql.lower message) || contains "cities" (Sql.lower message) then
    let cities := get_available_cities db in
    Return {| r_success := true;
              r_message := ("Available cities:" ++ newline
                            ++ String.concat newline (firstn 10 cities)
                            ++ newline ++ newline
                            ++ "Try: 'Show me houses in Toronto'")%string;
              r_properties := [];
              r_media_urls := [] |}
  else
    let params := extract_parameters ai message in
    let properties := search_properties params db in
    match format_response ai properties message with
    | RaiseTypeError => RaiseTypeError
    | Return response =>
        Return {| r_success := true;
                  r_message := response;
                  r_properties := properties;
                  r_media_urls := media_urls properties |}
    end.

(** ** The service ([main.py]) *)

Record chat_request : Type := {
  request_message : string;
  request_session_id : option string
}.

(** An element of [formatted_properties]. *)
Record formatted_property : Type := {
  f_listing_key : string;
  f_address : option string;
  f_city : option string;
  f_postal_code : option string;
  f_price : option Z;
  f_bedrooms : option Z;
  f_bathrooms : option Z;
  f_property_type : option string;
  f_status : option string;
  f_description : option string;
  f_photo_count : nat;
  f_media_urls : list (option string)
}.

Record chat_response : Type := {
  c_success : bool;
  c_message : string;
  c_properties : list formatted_property;
  c_property_count : nat;
  c_session_id : option string;
  c_media_urls : list string
}.

(** [a or b] on optional strings *)
Definition py_or (a b : option string) : option string :=
  if Py.truthy_str a then a else b.

Definition format_property (prop : search_hit) : formatted_property :=
  {| f_listing_key := listing_key (hit prop);
     f_address := unparsed_address (hit prop);
     f_city := city (hit prop);
     f_postal_code := postal_code (hit prop);
     f_price := list_price (hit prop);
     f_bedrooms := bedrooms (hit prop);
     f_bathrooms := bathrooms (hit prop);
     f_property_type := py_or (property_subtype (hit prop)) (property_type (hit prop));
     f_status := standard_status (hit prop);
     f_description :=
       match public_remarks (hit prop) with
       | Some remarks =>
           if Py.truthy_str (Some remarks) then Some (Py.slice_to remarks 200) else None
       | None => None
       end;
     f_photo_count := photo_count prop;
     f_media_urls := map (fun m : media_item => fst (fst m)) (firstn 3 (media prop)) |}.

Definition trouble_message : string :=
  "I'm having trouble searching properties right now. Try asking: 'Show me available properties' or 'Help'".

(** The [chat] endpoint. *)
Definition chat (ai : openai) (db : database) (request : chat_request) : chat_response :=
  match process_message ai db (request_message request) with
  | Return result =>
      let formatted_properties := map format_property (firstn 10 (r_properties result)) in
      {| c_success := r_success result;
         c_message := r_message result;
         c_properties := formatted_properties;
         c_property_count := List.length formatted_properties;
         c_session_id := request_session_id request;
         c_media_urls := r_media_urls result |}
  | RaiseTypeError =>
      {| c_success := false;
         c_message := trouble_message;
         c_properties := [];
         c_property_count := 0;
         c_session_id := request_session_id request;
         c_media_urls := [] |}
  end.


(** * Vocabulary of the statements *)

(** The three components of a run. *)
Definition outcome {A} (m : M A) (c : connection) : result A := fst (fst (m c)).
Definition state_after {A} (m : M A) (c : connection) : connection := snd (fst (m c)).
Definition trace {A} (m : M A) (c : connection) : list event := snd (m c).

(** Every run of [m] relates the connection before and after by [S] and
    emits only events of [E]. *)
Definition obeys (S : connection -> connection -> Prop) (E : event -> Prop)
    {A} (m : M A) : Prop :=
  forall c r c' t, m c = (r, c', t) -> S c c' /\ Forall E t.

(** The offsets of the listing requests of a trace, in order. *)
Definition fetched_offsets (t : list event) : list Z :=
  flat_map (fun e => match e with GetProperty _ skip => [skip] | _ => [] end) t.

(** An event of the listing side: a listing request or a batched upsert. *)
Definition listing_event (e : event) : bool :=
  match e with
  | GetProperty _ _ | ExecuteBatch Properties _ => true
  | _ => false
  end.

(** No committed listing key is lost between [c] and [c']. *)
Definition keeps_keys (c c' : connection) : Prop :=
  incl (keys_of (properties (committed c))) (keys_of (properties (pending c))) ->
  incl (keys_of (properties (committed c'))) (keys_of (properties (pending c'))) /\
  incl (keys_of (properties (committed c))) (keys_of (properties (committed c'))).

(** [m] returns normally from every connection state. *)
Definition never_raises {A} (m : M A) : Prop :=
  forall c, exists a c' t, m c = (Ok a, c', t).

(** The media step of the loop body of [fetch_all], for the keys of the
    page. *)
Definition media_phase (api : remote) (fetch_media : bool) (keys : list string) : M unit :=
  match fetch_media, keys with
  | true, _ :: _ =>
      bind (print (FetchingMedia (List.length keys)))
           (fun _ => fetch_media_for_properties api keys)
  | _, _ => ret tt
  end.

(** An event that is not a listing request. *)
Definition not_a_fetch (e : event) : Prop :=
  match e with
  | GetProperty _ _ => False
  | _ => True
  end.

Definition any_state (_ _ : connection) : Prop := True.


(** The connection after [conn.rollback()]. *)
Definition rolled_back (c : connection) : connection :=
  {| committed := committed c; pending := committed c; clock := clock c + 1 |}.

(** The column values of a stored row, as a tuple of [property_data]. *)
Definition row_values (r : property_row) : property_tuple :=
  {| t_listing_key := Some (listing_key r);
     t_unparsed_address := unparsed_address r;
     t_city := city r;
     t_state_province := state_province r;
     t_postal_code := postal_code r;
     t_list_price := list_price r;
     t_standard_status := standard_status r;
     t_property_type := property_type r;
     t_property_subtype := property_subtype r;
     t_bedrooms := bedrooms r;
     t_bathrooms := bathrooms r;
     t_year_built := year_built r;
     t_public_remarks := public_remarks r;
     t_last_updated := option_map Timestamp (last_updated r) |}.

(** The store takes every record of the batch: each has a key, numbers
    in the range of their columns and, if it has a timestamp, one the
    store reads. *)
Definition accepted (batch : list raw_listing) : bool :=
  forallb (fun p => match property_tuple_check (property_data_of p) with
                    | None => true
                    | Some _ => false
                    end) batch.

(** The table after the statements for [tuples], when none is refused. *)
Fixpoint upserted (now : Z) (tuples : list property_tuple) (tbl : list property_row)
  : list property_row :=
  match tuples with
  | [] => tbl
  | t :: rest =>
      match t_listing_key t with
      | Some key => upserted now rest (on_conflict_update (proposed_row now key t) tbl)
      | None => upserted now rest tbl
      end
  end.

(** The number of rows of [tbl] with the key [key]. *)
Definition rows_with_key (key : string) (tbl : list property_row) : nat :=
  List.length (filter (fun r => String.eqb (listing_key r) key) tbl).

(** [c] occurs in [x], letters compared without case. *)
Definition city_contains (c x : string) : bool :=
  contains (Sql.lower c) (Sql.lower x).

(** The conjunction of the predicates of [params], as the specification
    words them: the city matches case-insensitively as a substring, the
    prices are inclusive bounds, bedrooms and bathrooms match exactly. A
    predicate that comes with a value constrains the row; one that is
    absent, or passed as [None], does not. A row without value in the
    column does not satisfy a predicate on it. *)
Definition matches (params : search_params) (p : property_row) : bool :=
  (match get (q_city params), city p with
   | None, _ => true
   | Some c, Some x => city_contains c x
   | Some _, None => false
   end)
  && (match get (q_min_price params), list_price p with
      | None, _ => true
      | Some v, Some x => v <=? x
      | Some _, None => false
      end)
  && (match get (q_max_price params), list_price p with
      | None, _ => true
      | Some v, Some x => x <=? v
      | Some _, None => false
      end)
  && (match get (q_bedrooms params), bedrooms p with
      | None, _ => true
      | Some v, Some x => x =? v
      | Some _, None => false
      end)
  && (match get (q_bathrooms params), bathrooms p with
      | None, _ => true
      | Some v, Some x => x =? v
      | Some _, None => false
      end).

(** A character that stands for itself in a LIKE pattern. *)
Definition literal_char (ch : ascii) : bool :=
  negb (Ascii.eqb ch "%" || Ascii.eqb ch "_" || Ascii.eqb ch "\").

(** A string without LIKE wildcard or escape character. *)
Fixpoint literal (s : string) : bool :=
  match s with
  | EmptyString => true
  | String ch s' => literal_char ch && literal s'
  end.

(** No predicate of [params] is passed as zero or as the empty string,
    and the city, if one is passed, has none of the characters [%], [_]
    and backslash. *)
Definition plain (params : search_params) : bool :=
  (match get (q_city params) with
   | Some c => Py.truthy_str (Some c) && literal c
   | None => true
   end)
  && (match get (q_min_price params) with Some v => negb (v =? 0) | None => true end)
  && (match get (q_max_price params) with Some v => negb (v =? 0) | None => true end)
  && (match get (q_bedrooms params) with Some v => negb (v =? 0) | None => true end)
  && (match get (q_bathrooms params) with Some v => negb (v =? 0) | None => true end).

(** The other reading, under which a predicate constrains the rows as
    soon as its key is passed, whatever the value: a comparison with a
    value of [None] is a comparison with NULL, never true. *)
Definition constrains {A} (a : kwarg A) (column : option A) (test : A -> A -> bool) : bool :=
  match a with
  | Absent => true
  | Given None => false
  | Given (Some v) => match column with Some x => test v x | None => false end
  end.

Definition matches_as_passed (params : search_params) (p : property_row) : bool :=
  constrains (q_city params) (city p) city_contains
  && constrains (q_min_price params) (list_price p) (fun v x => v <=? x)
  && constrains (q_max_price params) (list_price p) (fun v x => x <=? v)
  && constrains (q_bedrooms params) (bedrooms p) (fun v x => x =? v)
  && constrains (q_bathrooms params) (bathrooms p) (fun v x => x =? v).

(** A direct count of the rows of the city [c]. *)
Definition rows_of_city (c : string) (tbl : list property_row) : nat :=
  List.length (filter (fun r => match city r with
                                | Some x => String.eqb x c
                                | None => false
                                end) tbl).

(** The count recorded for [c] in a list of groups, [0] without group. *)
Fixpoint count_in (groups : list (string * nat)) (c : string) : nat :=
  match groups with
  | [] => 0
  | (c', n) :: rest => if String.eqb c' c then n else count_in rest c
  end.

Definition not_primary (m : media_row) : bool := negb (is_primary m).

Definition by_display_order (a b : media_row) : Prop :=
  Sql.asc (display_order a) (display_order b) = true.

(** * Sample data *)

Module Sample.

Definition listing (key : option string) (town : option string) (price beds : option Z)
  : raw_listing :=
  {| ListingKey := key; UnparsedAddress := None; City := town;
     StateOrProvince := Some "ON"; PostalCode := None; ListPrice := price;
     StandardStatus := Some "Active"; PropertyType := None; PropertySubType := None;
     BedroomsTotal := beds; BathroomsTotalInteger := None; YearBuilt := None;
     PublicRemarks := None; ModificationTimestamp := None |}.

Definition row (key : string) (town : option string) (price beds : option Z)
  : property_row :=
  {| listing_key := key; unparsed_address := None; city := town;
     state_province := Some "ON"; postal_code := None; list_price := price;
     standard_status := Some "Active"; property_type := None; property_subtype := None;
     bedrooms := beds; bathrooms := None; year_built := None;
     public_remarks := None; last_updated := None; fetched_at := 0 |}.

Definition photo (key url : string) (position : option Z) (flag : bool) : media_row :=
  {| media_listing_key := Some key; media_url := Some url; media_type := Some "image/jpeg";
     media_category := None; display_order := position; description := None;
     is_primary := flag |}.

Definition a1 : property_row := row "A1" (Some "Toronto") (Some 900000) (Some 3).

(** Three listings, two of them in Toronto, and four photos of the first. *)
Definition catalogue : database :=
  {| properties := [ a1;
                     row "B2" (Some "Mississauga") (Some 650000) (Some 2);
                     row "C3" (Some "Toronto") None None ];
     property_media := [ photo "A1" "a-3" (Some 3) false;
                         photo "A1" "a-1" (Some 1) false;
                         photo "A1" "a-2" (Some 2) true;
                         photo "A1" "a-0" None false ];
     cities := [] |}.

(** The element of the search result for [a1]. *)
Definition a1_hit : search_hit :=
  {| hit := a1;
     photo_count := 4;
     media := map select_media [ photo "A1" "a-2" (Some 2) true;
                                 photo "A1" "a-1" (Some 1) false;
                                 photo "A1" "a-3" (Some 3) false;
                                 photo "A1" "a-0" None false ] |}.

(** Eleven listings with three bedrooms, keyed A to K, by rising price. *)
Definition eleven : database :=
  {| properties := map (fun i => row (String (ascii_of_nat (65 + i)) EmptyString)
                                     (Some "Toronto")
                                     (Some (100000 * Z.of_nat (S i))) (Some 3))
                       (seq 0 11);
     property_media := [];
     cities := [] |}.

Definition cheapest : property_row := row "A" (Some "Toronto") (Some 100000) (Some 3).

Definition only_bedrooms (v : option Z) : search_params :=
  {| q_city := Absent; q_min_price := Absent; q_max_price := Absent;
     q_bedrooms := Given v; q_bathrooms := Absent |}.

Definition toronto_under_a_million : search_params :=
  {| q_city := Given (Some "toronto"); q_min_price := Given None;
     q_max_price := Given (Some 1000000); q_bedrooms := Absent; q_bathrooms := Absent |}.

(** A page with a record that has no key: the store refuses the batch. *)
Definition bad_page : list raw_listing :=
  [ listing (Some "D4") (Some "Ottawa") (Some 500000) (Some 2);
    listing None (Some "Ottawa") (Some 400000) (Some 1) ].

(** A remote with one good page, one page the store refuses, then an
    empty page; it does not answer beyond. *)
Definition api : remote :=
  {| property_page := fun skip =>
       if skip =? 0 then
         Response 200 (Some [listing (Some "A1") (Some "Toronto") (Some 950000) (Some 3)])
       else if skip =? 100 then Response 200 (Some bad_page)
       else if skip =? 200 then Response 200 (Some [])
       else NoResponse;
     media_of := fun key => NoResponse |}.

(** A batch that names the key A1 twice. *)
Definition batch : list raw_listing :=
  [ listing (Some "A1") (Some "Toronto") (Some 925000) (Some 3);
    listing (Some "E5") (Some "Hamilton") (Some 300000) None;
    listing (Some "A1") (Some "Toronto") (Some 950000) (Some 4) ].

End Sample.


(** * Vocabulary of the further statements *)

(** The keys of the media requests of a trace, in order. *)
Definition media_requests (t : list event) : list string :=
  flat_map (fun e => match e with GetMedia key => [key] | _ => [] end) t.


(** [v] has at most [n] characters. *)
Definition within (n : nat) (v : option string) : bool :=
  match v with
  | None => true
  | Some s => (String.length s <=? n)%nat
  end.

(** Every text of [m] is within the width of its column. *)
Definition within_columns (m : media_row) : bool :=
  within 50 (media_listing_key m) && within 500 (media_url m)
  && within 50 (media_type m) && within 50 (media_category m)
  && within 255 (description m).

(** The store takes every media record, as it is or cut to its columns:
    no text exceeds its column by more than spaces, the order is an
    integer of the column and the listing is present in [db]. *)
Definition media_taken (db : database) (records : list media_row) : bool :=
  forallb (fun m => match media_tuple_check (keys_of (properties db)) m with
                    | None => true
                    | Some _ => false
                    end) records.

(** The store takes every media record as it is: values within columns,
    and the listing of each record present in [db]. *)
Definition media_accepted (db : database) (records : list media_row) : bool :=
  forallb within_columns records && media_taken db records.

(** [m] with each text cut to the width of its column. *)
Definition cut_to_columns (m : media_row) : media_row :=
  {| media_listing_key := option_map (Py.take 50) (media_listing_key m);
     media_url := option_map (Py.take 500) (media_url m);
     media_type := option_map (Py.take 50) (media_type m);
     media_category := option_map (Py.take 50) (media_category m);
     display_order := display_order m;
     description := option_map (Py.take 255) (description m);
     is_primary := is_primary m |}.

(** [db] with [records] appended to its media. *)
Definition with_media (db : database) (records : list media_row) : database :=
  {| properties := properties db;
     property_media := property_media db ++ records;
     cities := cities db |}.

(** The connection after a commit that leaves [db] behind. *)
Definition committed_as (db : database) (c : connection) : connection :=
  {| committed := db; pending := db; clock := clock c + 1 |}.

(** The records [fetch_properties] returns for an offset; none when it
    raises. *)
Definition page (api : remote) (skip : Z) : list raw_listing :=
  match property_page api skip with
  | Response status (Some v) => if status =? 200 then v else []
  | _ => []
  end.

(** [db] with [tbl] for its listings. *)
Definition with_listings (db : database) (tbl : list property_row) : database :=
  {| properties := tbl; property_media := property_media db; cities := cities db |}.

(** [db] after the refresh of [cities] in [main]. *)
Definition refreshed (db : database) : database :=
  {| properties := properties db;
     property_media := property_media db;
     cities := distinct_cities (properties db) [] |}.

(** The cities of the open transaction are the committed ones, and stay
    so, with the committed cities unchanged. *)
Definition same_cities (a b : connection) : Prop :=
  cities (pending a) = cities (committed a) ->
  cities (pending b) = cities (committed b) /\
  cities (committed b) = cities (committed a).

(** An event that touches neither the remote media nor the media table. *)
Definition no_media_event (e : event) : Prop :=
  match e with
  | GetMedia _ | ExecuteBatch PropertyMedia _ => False
  | _ => True
  end.

(** The media of the open transaction are the committed ones. *)
Definition media_settled (c : connection) : Prop :=
  property_media (pending c) = property_media (committed c).

(** The number of records of the pages at the offsets [offsets]. *)
Definition records_at (api : remote) (offsets : list Z) : nat :=
  list_sum (map (fun k => List.length (page api k)) offsets).

(** [params] with the city predicate [c]. *)
Definition with_city (c : string) (params : search_params) : search_params :=
  {| q_city := Given (Some c);
     q_min_price := q_min_price params;
     q_max_price := q_max_price params;
     q_bedrooms := q_bedrooms params;
     q_bathrooms := q_bathrooms params |}.

(** [c] occurs in [s]. *)
Definition substring_of (c s : string) : Prop :=
  exists pre post, s = (pre ++ c ++ post)%string.

(** The number of media rows of the listing [key]. *)
Definition media_count (key : string) (db : database) : nat :=
  List.length (filter (media_of_listing key) (property_media db)).

(** The answer of the [chat] endpoint when [process_message] raises. *)
Definition trouble_response (request : chat_request) : chat_response :=
  {| c_success := false;
     c_message := trouble_message;
     c_properties := [];
     c_property_count := 0;
     c_session_id := request_session_id request;
     c_media_urls := [] |}.

(** A formatted property within the bounds of the endpoint: at most three
    media URLs and a description of at most 200 characters. *)
Definition within_bounds (f : formatted_property) : Prop :=
  (List.length (f_media_urls f) <= 3)%nat /\
  match f_description f with
  | Some d => (String.length d <= 200)%nat
  | None => True
  end.


Module More.

(** A language model that is out of reach. *)
Definition down : openai :=
  {| extract_reply := fun _ => None; present_reply := fun _ _ => None |}.

Definition houses : chat_request :=
  {| request_message := "show me houses"; request_session_id := Some "s-1" |}.

Definition photos : list media_row :=
  [ Sample.photo "B2" "b-1" (Some 1) true; Sample.photo "B2" "b-2" (Some 2) false ].

(** A remote whose media for A1 are two photos. *)
Definition media_api : remote :=
  {| property_page := fun _ => NoResponse;
     media_of := fun key =>
       if String.eqb key "A1"
       then Response 200 (Some [ {| ResourceRecordKey := Some "A1";
                                    MediaURL := Some "a-9";
                                    MediaType := None; MediaCategory := None;
                                    Order := Some 9; ShortDescription := None;
                                    PreferredPhotoYN := None |} ])
       else Response 404 None |}.

(** A record for A1 that has lost its city. *)
Definition a1_without_city : raw_listing :=
  Sample.listing (Some "A1") None (Some 910000) (Some 3).

(** A record for F6 with a timestamp, and one whose timestamp the store
    does not read. *)
Definition f6 (stamp : timestamp_text) : raw_listing :=
  {| ListingKey := Some "F6"; UnparsedAddress := None; City := Some "Guelph";
     StateOrProvince := Some "ON"; PostalCode := None; ListPrice := Some 700000;
     StandardStatus := Some "Active"; PropertyType := None; PropertySubType := None;
     BedroomsTotal := Some 3; BathroomsTotalInteger := None; YearBuilt := None;
     PublicRemarks := None; ModificationTimestamp := Some stamp |}.

(** A text of [n] characters. *)
Definition filler (n : nat) : string := string_of_list_ascii (repeat "x"%char n).

(** A photo of A1 with the description [text]. *)
Definition described_photo (text : string) : media_row :=
  {| media_listing_key := Some "A1"; media_url := Some "a-7";
     media_type := Some "image/jpeg"; media_category := None;
     display_order := Some 7; description := Some text; is_primary := false |}.

(** The element of the search result for the listing without price. *)
Definition c3_hit : search_hit :=
  {| hit := Sample.row "C3" (Some "Toronto") None None;
     photo_count := 0;
     media := [] |}.

End More.


(** * Texts: LOWER, LIKE and substrings *)

Lemma lower_app (a b : string) :
  Sql.lower (a ++ b) = (Sql.lower a ++ Sql.lower b)%string.
Proof. induction a as [|ch a IH]; simpl; [reflexivity | now rewrite IH]. Qed.

Lemma lower_pattern (c : string) :
  Sql.lower ("%" ++ c ++ "%") = ("%" ++ Sql.lower c ++ "%")%string.
Proof. now rewrite !lower_app. Qed.

Lemma like_any (rest s : string) :
  Sql.like (String "%" rest) s =
  Sql.like rest s || match s with
                     | EmptyString => false
                     | String _ s' => Sql.like (String "%" rest) s'
                     end.
Proof. destruct s; reflexivity. Qed.

Lemma like_literal (ch : ascii) (rest s : string) :
  literal_char ch = true ->
  Sql.like (String ch rest) s =
  match s with
  | EmptyString => false
  | String x s' => Ascii.eqb x ch && Sql.like rest s'
  end.
Proof.
  unfold literal_char. rewrite negb_true_iff, !orb_false_iff. intros [[H1 H2] H3].
  cbn [Sql.like]. rewrite H1, H2, H3. now destruct s.
Qed.

Lemma like_percent_alone (s : string) : Sql.like "%" s = true.
Proof.
  induction s as [|ch s IH]; rewrite like_any; [reflexivity|].
  rewrite IH. apply orb_true_r.
Qed.

Lemma like_literal_prefix (c rest s : string) :
  literal c = true ->
  Sql.like (c ++ rest) s = true <->
  exists s', s = (c ++ s')%string /\ Sql.like rest s' = true.
Proof.
  revert s. induction c as [|ch c IH]; intros s Hlit.
  - simpl. split; [intro H; now exists s | now intros (s' & -> & H)].
  - simpl in Hlit. apply andb_true_iff in Hlit. destruct Hlit as [Hch Hc].
    cbn [String.append]. rewrite (like_literal ch _ s Hch).
    destruct s as [|x s].
    + split; [discriminate | intros (s' & Hs & _); discriminate Hs].
    + rewrite andb_true_iff, (IH s Hc), Ascii.eqb_eq. split.
      * intros [-> (s' & -> & H)]. now exists s'.
      * intros (s' & Hs & H). inversion Hs; subst. split; [reflexivity | now exists s'].
Qed.

Lemma like_percent (rest s : string) :
  Sql.like (String "%" rest) s = true <->
  exists pre post, s = (pre ++ post)%string /\ Sql.like rest post = true.
Proof.
  induction s as [|ch s IH]; rewrite like_any, orb_true_iff.
  - split.
    + intros [H|H]; [|discriminate]. now exists EmptyString, EmptyString.
    + intros (pre & post & Hs & H). left.
      destruct pre; [|discriminate]. simpl in Hs. now subst.
  - rewrite IH. split.
    + intros [H|(pre & post & -> & H)].
      * now exists EmptyString, (String ch s).
      * now exists (String ch pre), post.
    + intros ([|x pre] & post & Hs & H).
      * left. simpl in Hs. now subst.
      * right. inversion Hs; subst. now exists pre, post.
Qed.

Lemma like_substring (c s : string) :
  literal c = true ->
  Sql.like ("%" ++ c ++ "%") s = true <-> substring_of c s.
Proof.
  intro Hlit. change ("%" ++ c ++ "%")%string with (String "%" (c ++ "%")).
  rewrite like_percent. unfold substring_of. split.
  - intros (pre & post & -> & H).
    apply (like_literal_prefix c "%" post Hlit) in H. destruct H as (s' & -> & _).
    now exists pre, s'.
  - intros (pre & post & ->). exists pre, (c ++ post)%string. split; [reflexivity|].
    apply (like_literal_prefix c "%" _ Hlit). exists post. split; [reflexivity|].
    apply like_percent_alone.
Qed.

Lemma lower_char_literal (ch : ascii) :
  literal_char (Sql.lower_char ch) = literal_char ch.
Proof. destruct ch as [[|] [|] [|] [|] [|] [|] [|] [|]]; reflexivity. Qed.

Lemma lower_literal (c : string) : literal (Sql.lower c) = literal c.
Proof.
  induction c as [|ch c IH]; simpl; [reflexivity|]. now rewrite lower_char_literal, IH.
Qed.

Lemma prefix_spec (a s : string) :
  String.prefix a s = true <-> exists post, s = (a ++ post)%string.
Proof.
  revert s. induction a as [|ch a IH]; intro s.
  - split; [intros _; now exists s | intros _; now destruct s].
  - destruct s as [|x s]; cbn [String.prefix].
    + split; [discriminate | intros (post & H); discriminate H].
    + destruct (ascii_dec ch x) as [->|Hne].
      * rewrite IH. split; intros (post & H); exists post; [now subst | now inversion H].
      * split; [discriminate | intros (post & H); inversion H; congruence].
Qed.

Lemma contains_spec (needle haystack : string) :
  contains needle haystack = true <-> substring_of needle haystack.
Proof.
  unfold substring_of. induction haystack as [|ch s IH]; cbn [contains];
    rewrite orb_true_iff, prefix_spec.
  - split.
    + intros [(post & H)|H]; [|discriminate]. now exists EmptyString, post.
    + intros ([|x pre] & post & H); [|discriminate]. left. now exists post.
  - rewrite IH. split.
    + intros [(post & H)|(pre & post & ->)].
      * now exists EmptyString, post.
      * now exists (String ch pre), post.
    + intros ([|x pre] & post & H).
      * left. now exists post.
      * right. inversion H; subst. now exists pre, post.
Qed.

(** For a value without wildcard, the pattern of the city condition
    matches exactly the cities in which the value occurs. *)
Lemma like_contains (c x : string) :
  literal c = true ->
  Sql.like (Sql.lower ("%" ++ c ++ "%")) (Sql.lower x) = city_contains c x.
Proof.
  intro Hlit. unfold city_contains. rewrite lower_pattern.
  assert (literal (Sql.lower c) = true) as Hlow by (now rewrite lower_literal).
  pose proof (like_substring (Sql.lower c) (Sql.lower x) Hlow) as Hlike.
  pose proof (contains_spec (Sql.lower c) (Sql.lower x)) as Hcontains.
  destruct (Sql.like _ _), (contains _ _); try reflexivity.
  - symmetry. apply Hcontains, Hlike. reflexivity.
  - apply Hlike, Hcontains. reflexivity.
Qed.

(** * Properties *)

(** ** [safe_str] *)

Lemma take_prefix (n : nat) (s : string) : String.prefix (Py.take n s) s = true.
Proof.
  revert s; induction n as [|n IH]; intros [|c s]; simpl; try reflexivity.
  rewrite IH. destruct (ascii_dec c c) as [_|Hc]; [reflexivity | now elim Hc].
Qed.

Lemma take_length (n : nat) (s : string) : (String.length (Py.take n s) <= n)%nat.
Proof.
  revert s; induction n as [|n IH]; intros [|c s]; simpl; try lia.
  specialize (IH s). lia.
Qed.

Lemma safe_str_none_iff (val : option Py.pyval) (max_len : option Z) :
  safe_str val max_len = None <-> val = None.
Proof.
  destruct val as [v|]; simpl; split; intro H; try reflexivity; discriminate H.
Qed.

Lemma safe_str_positive (v : Py.pyval) (n : Z) :
  0 < n -> safe_str (Some v) (Some n) = Some (Py.take (Z.to_nat n) (Py.str v)).
Proof.
  intro Hn. unfold safe_str, Py.truthy_int, Py.slice_to.
  destruct (Z.eqb_spec n 0) as [->|_]; [lia|]. simpl.
  destruct (Z.leb_spec 0 n); [reflexivity | lia].
Qed.

(** C10. [safe_str] returns [None] exactly when the value is [None]; for
    a value other than [None] and a positive [max_len] it returns a prefix
    of the string form of the value, at most [max_len] characters long;
    and with [max_len] omitted, [None] or [0] it returns the whole string
    form. *)
Theorem safe_str_spec (val : option Py.pyval) (max_len : option Z)
    (v : Py.pyval) (n : Z) :
  (safe_str val max_len = None <-> val = None) /\
  (0 < n ->
   exists s, safe_str (Some v) (Some n) = Some s /\
             String.prefix s (Py.str v) = true /\
             Z.of_nat (String.length s) <= n) /\
  safe_str (Some v) None = Some (Py.str v) /\
  safe_str (Some v) (Some 0) = Some (Py.str v).
Proof.
  split; [apply safe_str_none_iff|].
  split; [|split; reflexivity].
  intro Hn. exists (Py.take (Z.to_nat n) (Py.str v)).
  split; [now apply safe_str_positive|].
  split; [apply take_prefix|].
  pose proof (take_length (Z.to_nat n) (Py.str v)). lia.
Qed.

Lemma safe_str_spec_witness :
  exists s, safe_str (Some (Py.PStr "Mississauga")) (Some 4) = Some s /\
            String.prefix s "Mississauga" = true /\
            Z.of_nat (String.length s) <= 4.
Proof.
  apply (safe_str_spec None None (Py.PStr "Mississauga") 4). reflexivity.
Defined.

Lemma drop_all (n : nat) (s : string) :
  (String.length s <= n)%nat -> drop n s = EmptyString.
Proof.
  revert s. induction n as [|n IH]; intros [|c s] H; simpl in *;
    try reflexivity; try lia.
  apply IH. lia.
Qed.

Lemma take_all (n : nat) (s : string) :
  (String.length s <= n)%nat -> Py.take n s = s.
Proof.
  revert s. induction n as [|n IH]; intros [|c s] H; simpl in *;
    try reflexivity; try lia.
  f_equal. apply IH. lia.
Qed.

Lemma take_take (n : nat) (s : string) : Py.take n (Py.take n s) = Py.take n s.
Proof. apply take_all, take_length. Qed.

(** A truncated column value fits its [VARCHAR(n)] column, and is stored
    as it is. *)
Lemma safe_str_fits (v : option string) (n : nat) :
  (0 < n)%nat -> varchar n (safe_str (pstr v) (Some (Z.of_nat n))) = true.
Proof.
  intro Hn. destruct v as [s|]; [|reflexivity].
  unfold pstr, option_map. rewrite safe_str_positive by lia.
  simpl. rewrite Nat2Z.id, drop_all; [reflexivity | apply take_length].
Qed.

Lemma safe_str_stored (v : option string) (n : nat) :
  (0 < n)%nat ->
  stored_varchar n (safe_str (pstr v) (Some (Z.of_nat n)))
  = safe_str (pstr v) (Some (Z.of_nat n)).
Proof.
  intro Hn. destruct v as [s|]; [|reflexivity].
  unfold pstr, option_map. rewrite safe_str_positive by lia.
  simpl. now rewrite Nat2Z.id, take_take.
Qed.

Lemma safe_str_fits_column (v : option string) (n : nat) (z : Z) :
  z = Z.of_nat n -> (0 < n)%nat -> varchar n (safe_str (pstr v) (Some z)) = true.
Proof. intros -> Hn. now apply safe_str_fits. Qed.

Lemma safe_str_stored_column (v : option string) (n : nat) (z : Z) :
  z = Z.of_nat n -> (0 < n)%nat ->
  stored_varchar n (safe_str (pstr v) (Some z)) = safe_str (pstr v) (Some z).
Proof. intros -> Hn. now apply safe_str_stored. Qed.

(** The tuple built for a record is stored as it is. *)
Lemma stored_tuple_sanitized (p : raw_listing) :
  stored_tuple (property_data_of p) = property_data_of p.
Proof.
  unfold stored_tuple, property_data_of.
  cbn [t_listing_key t_unparsed_address t_city t_state_province t_postal_code
       t_list_price t_standard_status t_property_type t_property_subtype
       t_bedrooms t_bathrooms t_year_built t_public_remarks t_last_updated].
  rewrite !safe_str_stored_column by (reflexivity || lia).
  reflexivity.
Qed.

(** The checks left for such a tuple: the widths never fail. *)
Lemma property_tuple_check_sanitized (p : raw_listing) :
  property_tuple_check (property_data_of p) =
  first_failure
    [ (timestamp (ModificationTimestamp p), InvalidDatetime);
      (decimal_12_2 (ListPrice p), NumericOutOfRange);
      (int4 (BedroomsTotal p), NumericOutOfRange);
      (int4 (BathroomsTotalInteger p), NumericOutOfRange);
      (int4 (YearBuilt p), NumericOutOfRange);
      (match ListingKey p with Some _ => true | None => false end, NotNullViolation) ].
Proof.
  unfold property_tuple_check, property_data_of.
  cbn [t_listing_key t_unparsed_address t_city t_state_province t_postal_code
       t_list_price t_standard_status t_property_type t_property_subtype
       t_bedrooms t_bathrooms t_year_built t_public_remarks t_last_updated].
  rewrite !safe_str_fits_column by (reflexivity || lia).
  cbn [first_failure].
  destruct (timestamp (ModificationTimestamp p)); [|reflexivity].
  destruct (decimal_12_2 (ListPrice p)); [|reflexivity].
  destruct (int4 (BedroomsTotal p)); [|reflexivity].
  destruct (int4 (BathroomsTotalInteger p)); [|reflexivity].
  destruct (int4 (YearBuilt p)); [|reflexivity].
  now destruct (ListingKey p).
Qed.

(** ** Reasoning about runs *)

Section Obeys.
Variable S : connection -> connection -> Prop.
Variable E : event -> Prop.
Hypothesis S_refl : forall c, S c c.
Hypothesis S_trans : forall a b c, S a b -> S b c -> S a c.

Lemma obeys_ret {A} (a : A) : obeys S E (ret a).
Proof. intros c r c' t H. inversion H; subst. split; [apply S_refl | constructor]. Qed.

Lemma obeys_raise {A} (e : exn) : obeys S E (@raise A e).
Proof. intros c r c' t H. inversion H; subst. split; [apply S_refl | constructor]. Qed.

Lemma obeys_emit (e : event) : E e -> obeys S E (emit e).
Proof.
  intros He c r c' t H. inversion H; subst.
  split; [apply S_refl | repeat constructor; exact He].
Qed.

Lemma obeys_bind {A B} (m : M A) (k : A -> M B) :
  obeys S E m -> (forall a, obeys S E (k a)) -> obeys S E (bind m k).
Proof.
  intros Hm Hk c r c' t H. unfold bind in H.
  destruct (m c) as [[ra c1] t1] eqn:Em.
  destruct (Hm _ _ _ _ Em) as [S1 E1].
  destruct ra as [a|e].
  - destruct (k a c1) as [[rb c2] t2] eqn:Ek.
    destruct (Hk a _ _ _ _ Ek) as [S2 E2].
    inversion H; subst. split; [eapply S_trans; eassumption|].
    apply Forall_app; split; assumption.
  - inversion H; subst. split; assumption.
Qed.

Lemma obeys_try_except {A} (m : M A) (h : exn -> M A) :
  obeys S E m -> (forall e, obeys S E (h e)) -> obeys S E (try_except m h).
Proof.
  intros Hm Hh c r c' t H. unfold try_except in H.
  destruct (m c) as [[ra c1] t1] eqn:Em.
  destruct (Hm _ _ _ _ Em) as [S1 E1].
  destruct ra as [a|e].
  - inversion H; subst. split; assumption.
  - destruct (h e c1) as [[rb c2] t2] eqn:Eh.
    destruct (Hh e _ _ _ _ Eh) as [S2 E2].
    inversion H; subst. split; [eapply S_trans; eassumption|].
    apply Forall_app; split; assumption.
Qed.

Lemma obeys_json_value {A} (body : option (list A)) : obeys S E (json_value body).
Proof. destruct body; [apply obeys_ret | apply obeys_raise]. Qed.

Lemma obeys_httpx_get {A} (request : event) (r : reply A) :
  E request -> obeys S E (httpx_get request r).
Proof.
  intro He. apply obeys_bind; [now apply obeys_emit|].
  intros _. destruct r; [apply obeys_ret | apply obeys_raise].
Qed.

Lemma obeys_execute_each {A} (query : A -> Z -> database -> db_error + database)
    (argslist : list A) :
  (forall a, obeys S E (execute (query a))) -> obeys S E (execute_each query argslist).
Proof.
  intro Hq. induction argslist as [|a rest IH]; simpl.
  - apply obeys_ret.
  - apply obeys_bind; [apply Hq | intros _; exact IH].
Qed.
End Obeys.

(** ** The remote catalogue client *)

Lemma fetch_properties_run (api : remote) (top skip : Z) (c : connection) :
  fetch_properties api top skip c =
  match property_page api skip with
  | NoResponse => (Raised TransportError, c, [GetProperty top skip])
  | Response status value =>
      if status =? 200 then
        match value with
        | Some v => (Ok v, c, [GetProperty top skip])
        | None => (Raised JSONDecodeError, c, [GetProperty top skip])
        end
      else (Ok [], c, [GetProperty top skip; Print (PropertyFetchFailed status)])
  end.
Proof.
  unfold fetch_properties, httpx_get, bind, emit, print, ret, raise, json_value.
  destruct (property_page api skip) as [status value|]; simpl; [|reflexivity].
  destruct (status =? 200); [destruct value|]; reflexivity.
Qed.

(** A status other than 200 gives the empty list and a diagnostic. *)
Lemma fetch_properties_bad_status (api : remote) (top skip status : Z)
    (value : option (list raw_listing)) (c : connection) :
  property_page api skip = Response status value -> status <> 200 ->
  fetch_properties api top skip c =
  (Ok [], c, [GetProperty top skip; Print (PropertyFetchFailed status)]).
Proof.
  intros Hp Hs. rewrite fetch_properties_run, Hp.
  destruct (Z.eqb_spec status 200); [contradiction | reflexivity].
Qed.

(** C3. On a transport failure [fetch_properties] does not return the
    empty list with a diagnostic: the exception of [httpx.get] leaves the
    function, and nothing is printed. *)
Theorem fetch_properties_transport_failure (api : remote) (top skip : Z)
    (c : connection) :
  property_page api skip = NoResponse ->
  fetch_properties api top skip c = (Raised TransportError, c, [GetProperty top skip]).
Proof. intro Hp. rewrite fetch_properties_run, Hp. reflexivity. Qed.

Lemma fetch_properties_transport_failure_witness :
  let api := {| property_page := fun _ => NoResponse; media_of := fun _ => NoResponse |} in
  fetch_properties api 100 0 (connect empty_database 0) =
  (Raised TransportError, connect empty_database 0, [GetProperty 100 0]).
Proof.
  intro api. apply (fetch_properties_transport_failure api 100 0). reflexivity.
Defined.

(** The same failure in the media client is caught and reported. *)
Lemma fetch_media_for_key_transport_failure (api : remote)
    (media_records : list media_row) (key : string) (c : connection) :
  media_of api key = NoResponse ->
  fetch_media_for_key api media_records key c =
  (Ok media_records, c, [GetMedia key; Print (ErrorFetchingMedia key TransportError)]).
Proof.
  intro Hm. unfold fetch_media_for_key, try_except, httpx_get, bind, emit, print, ret, raise.
  rewrite Hm. reflexivity.
Qed.

Lemma bind_ok {A B} (m : M A) (k : A -> M B) (c c1 : connection) (a : A)
    (t1 : list event) :
  m c = (Ok a, c1, t1) ->
  bind m k c = (let '(r, c2, t2) := k a c1 in (r, c2, t1 ++ t2)).
Proof. intro H. unfold bind. rewrite H. reflexivity. Qed.

Lemma bind_raised {A B} (m : M A) (k : A -> M B) (c c1 : connection) (e : exn)
    (t1 : list event) :
  m c = (Raised e, c1, t1) -> bind m k c = (Raised e, c1, t1).
Proof. intro H. unfold bind. rewrite H. reflexivity. Qed.

Lemma never_raises_ret {A} (a : A) : never_raises (ret a).
Proof. intro c. now exists a, c, []. Qed.

Lemma never_raises_emit (e : event) : never_raises (emit e).
Proof. intro c. now exists tt, c, [e]. Qed.

Lemma never_raises_bind {A B} (m : M A) (k : A -> M B) :
  never_raises m -> (forall a, never_raises (k a)) -> never_raises (bind m k).
Proof.
  intros Hm Hk c. destruct (Hm c) as (a & c1 & t1 & E1).
  destruct (Hk a c1) as (b & c2 & t2 & E2).
  exists b, c2, (t1 ++ t2). rewrite (bind_ok _ _ _ _ _ _ E1), E2. reflexivity.
Qed.

Lemma never_raises_try_except {A} (m : M A) (h : exn -> M A) :
  (forall e, never_raises (h e)) -> never_raises (try_except m h).
Proof.
  intros Hh c. unfold try_except.
  destruct (m c) as [[[a|e] c1] t1].
  - now exists a, c1, t1.
  - destruct (Hh e c1) as (b & c2 & t2 & E2). rewrite E2. now exists b, c2, (t1 ++ t2).
Qed.

Lemma never_raises_commit : never_raises commit.
Proof. intro c. eexists _, _, _. reflexivity. Qed.

Lemma never_raises_rollback : never_raises rollback.
Proof. intro c. eexists _, _, _. reflexivity. Qed.

Lemma insert_properties_never_raises (properties : list raw_listing) :
  never_raises (insert_properties properties).
Proof.
  apply never_raises_try_except. intro e.
  apply never_raises_bind; [apply never_raises_rollback|].
  intros _. apply never_raises_emit.
Qed.

Lemma insert_media_never_raises (media_records : list media_row) :
  never_raises (insert_media media_records).
Proof.
  apply never_raises_try_except. intro e.
  apply never_raises_bind; [apply never_raises_rollback|].
  intros _. apply never_raises_emit.
Qed.

Lemma fetch_media_for_key_never_raises (api : remote) (acc : list media_row)
    (key : string) :
  never_raises (fetch_media_for_key api acc key).
Proof.
  apply never_raises_try_except. intro e.
  apply never_raises_bind; [apply never_raises_emit|].
  intros _. apply never_raises_ret.
Qed.

Lemma fetch_media_records_never_raises (api : remote) (keys : list string)
    (acc : list media_row) :
  never_raises (fetch_media_records api acc keys).
Proof.
  revert acc. induction keys as [|key rest IH]; intro acc; simpl.
  - apply never_raises_ret.
  - apply never_raises_bind; [apply fetch_media_for_key_never_raises|].
    intro acc'. apply IH.
Qed.

Lemma fetch_media_for_properties_never_raises (api : remote) (keys : list string) :
  never_raises (fetch_media_for_properties api keys).
Proof.
  apply never_raises_bind; [apply fetch_media_records_never_raises|].
  intros [|m records]; [apply never_raises_ret | apply insert_media_never_raises].
Qed.

Lemma media_phase_never_raises (api : remote) (fetch_media : bool) (keys : list string) :
  never_raises (media_phase api fetch_media keys).
Proof.
  unfold media_phase. destruct fetch_media, keys; try apply never_raises_ret.
  apply never_raises_bind; [apply never_raises_emit|].
  intros _. apply fetch_media_for_properties_never_raises.
Qed.

(** The exception is not caught further up either: it ends [fetch_all]
    before any page is stored. *)
Lemma fetch_all_transport_failure (api : remote) (limit : Z) (fetch_media : bool)
    (c : connection) :
  0 < limit -> property_page api 0 = NoResponse ->
  fetch_all api limit fetch_media c = (Raised TransportError, c, [GetProperty 100 0]).
Proof.
  intros Hlimit Hp. unfold fetch_all, py_range.
  destruct (Z.to_nat ((limit - 0 + 100 - 1) / 100)) as [|n] eqn:Hn.
  - assert (1 <= (limit - 0 + 100 - 1) / 100) by (apply Z.div_le_lower_bound; lia). lia.
  - cbn [seq map fetch_all_loop].
    assert (fetch_properties api 100 (0 + 100 * Z.of_nat 0) c
            = (Raised TransportError, c, [GetProperty 100 0])) as Hrun.
    { rewrite fetch_properties_run. simpl. rewrite Hp. reflexivity. }
    rewrite (bind_raised _ _ _ _ _ _
               (bind_raised _ _ _ _ _ _ Hrun)). reflexivity.
Qed.

(** One turn of the loop of [fetch_all] on a page that is not empty: the
    upsert, the media step and the progress line, then the rest of the
    offsets. Neither step can stop the loop. *)
Lemma fetch_all_loop_step (api : remote) (fetch_media : bool) (skip : Z)
    (rest : list Z) (total : nat) (c : connection) (props : list raw_listing)
    (t0 : list event) :
  fetch_properties api 100 skip c = (Ok props, c, t0) -> props <> [] ->
  exists c1 t1 c2 t2,
    insert_properties props c = (Ok tt, c1, t1) /\
    media_phase api fetch_media (listing_keys_of props) c1 = (Ok tt, c2, t2) /\
    fetch_all_loop api fetch_media (skip :: rest) total c =
    (let '(r, c3, t3) :=
       fetch_all_loop api fetch_media rest (total + List.length props)%nat c2 in
     (r, c3,
      t0 ++ t1 ++ t2
         ++ Print (BatchProgress (skip / 100 + 1) (total + List.length props)%nat) :: t3)).
Proof.
  intros Hf Hne.
  destruct (insert_properties_never_raises props c) as ([] & c1 & t1 & E1).
  destruct (media_phase_never_raises api fetch_media (listing_keys_of props) c1)
    as ([] & c2 & t2 & E2).
  exists c1, t1, c2, t2. split; [exact E1|]. split; [exact E2|].
  cbn [fetch_all_loop]. rewrite (bind_ok _ _ _ _ _ _ Hf).
  destruct props as [|p props']; [now elim Hne|].
  rewrite (bind_ok _ _ _ _ _ _ E1).
  fold (media_phase api fetch_media (listing_keys_of (p :: props'))).
  rewrite (bind_ok _ _ _ _ _ _ E2).
  unfold print at 1. unfold bind at 1, emit at 1.
  destruct (fetch_all_loop api fetch_media rest _ c2) as [[r c3] t3].
  reflexivity.
Qed.

(** ** What every step of the pipeline obeys *)

Section Pipeline.
Variable S : connection -> connection -> Prop.
Variable E : event -> Prop.
Hypothesis S_refl : forall c, S c c.
Hypothesis S_trans : forall a b c, S a b -> S b c -> S a c.
Hypothesis S_upsert : forall c t db,
  upsert_statement (clock c) t (pending c) = inr db ->
  S c {| committed := committed c; pending := db; clock := clock c |}.
Hypothesis S_media : forall c m db,
  media_statement m (pending c) = inr db ->
  S c {| committed := committed c; pending := db; clock := clock c |}.
Hypothesis S_commit : forall c,
  S c {| committed := pending c; pending := pending c; clock := clock c + 1 |}.
Hypothesis S_rollback : forall c,
  S c {| committed := committed c; pending := committed c; clock := clock c + 1 |}.
Hypothesis E_other : forall e, listing_event e = false -> E e.
Hypothesis E_upsert : forall n, E (ExecuteBatch Properties n).
Hypothesis E_fetch : forall top skip, E (GetProperty top skip).

Lemma obeys_execute (stmt : Z -> database -> db_error + database) :
  (forall c db, stmt (clock c) (pending c) = inr db ->
                S c {| committed := committed c; pending := db; clock := clock c |}) ->
  obeys S E (execute stmt).
Proof.
  intros Hs c r c' t H. unfold execute in H.
  destruct (stmt (clock c) (pending c)) as [e|db] eqn:Es; inversion H; subst.
  - split; [apply S_refl | constructor].
  - split; [now apply Hs | constructor].
Qed.

Lemma obeys_commit : obeys S E commit.
Proof.
  intros c r c' t H. inversion H; subst.
  split; [apply S_commit | repeat constructor; now apply E_other].
Qed.

Lemma obeys_rollback : obeys S E rollback.
Proof.
  intros c r c' t H. inversion H; subst.
  split; [apply S_rollback | repeat constructor; now apply E_other].
Qed.

Lemma obeys_print (d : diagnostic) : obeys S E (print d).
Proof. apply obeys_emit; [exact S_refl | now apply E_other]. Qed.

Lemma insert_properties_obeys (properties : list raw_listing) :
  obeys S E (insert_properties properties).
Proof.
  apply obeys_try_except; try assumption.
  - apply obeys_bind; try assumption.
    + destruct (map property_data_of properties) as [|t ts] eqn:Ed.
      * now apply (obeys_ret S E S_refl).
      * apply obeys_bind; try exact S_refl; try exact S_trans; [apply obeys_emit; auto|].
        intros _. apply obeys_execute_each; try assumption.
        intro a. apply obeys_execute. intros c db. apply S_upsert.
    + intros _. apply obeys_bind; try exact S_refl; try exact S_trans; [apply obeys_commit|].
      intros _. apply obeys_print.
  - intro e. apply obeys_bind; try exact S_refl; try exact S_trans; [apply obeys_rollback|].
    intros _. apply obeys_print.
Qed.

Lemma insert_media_obeys (media_records : list media_row) :
  obeys S E (insert_media media_records).
Proof.
  apply obeys_try_except; try assumption.
  - apply obeys_bind; try assumption.
    + apply obeys_bind; try exact S_refl; try exact S_trans; [apply obeys_emit; auto|].
      intros _. apply obeys_execute_each; try assumption.
      intro a. apply obeys_execute. intros c db. apply S_media.
    + intros _. apply obeys_bind; try exact S_refl; try exact S_trans; [apply obeys_commit|].
      intros _. apply obeys_print.
  - intro e. apply obeys_bind; try exact S_refl; try exact S_trans; [apply obeys_rollback|].
    intros _. apply obeys_print.
Qed.

Lemma fetch_media_for_key_obeys (api : remote) (acc : list media_row) (key : string) :
  obeys S E (fetch_media_for_key api acc key).
Proof.
  apply obeys_try_except; try assumption.
  - apply obeys_bind; try exact S_refl; try exact S_trans; [apply obeys_httpx_get; auto|].
    intros [status value]. simpl. destruct (status =? 200).
    + apply obeys_bind; try exact S_refl; try exact S_trans; [now apply (obeys_json_value S E S_refl)|].
      intro data. now apply (obeys_ret S E S_refl).
    + apply obeys_bind; try exact S_refl; try exact S_trans; [apply obeys_print|].
      intros _. now apply (obeys_ret S E S_refl).
  - intro e. apply obeys_bind; try exact S_refl; try exact S_trans; [apply obeys_print|].
    intros _. now apply (obeys_ret S E S_refl).
Qed.

Lemma fetch_media_records_obeys (api : remote) (keys : list string)
    (acc : list media_row) :
  obeys S E (fetch_media_records api acc keys).
Proof.
  revert acc. induction keys as [|key rest IH]; intro acc; simpl.
  - now apply (obeys_ret S E S_refl).
  - apply obeys_bind; try exact S_refl; try exact S_trans; [apply fetch_media_for_key_obeys|].
    intro acc'. apply IH.
Qed.

Lemma fetch_media_for_properties_obeys (api : remote) (keys : list string) :
  obeys S E (fetch_media_for_properties api keys).
Proof.
  apply obeys_bind; try exact S_refl; try exact S_trans; [apply fetch_media_records_obeys|].
  intros [|m records]; [now apply (obeys_ret S E S_refl) | apply insert_media_obeys].
Qed.

Lemma media_phase_obeys (api : remote) (fetch_media : bool) (keys : list string) :
  obeys S E (media_phase api fetch_media keys).
Proof.
  unfold media_phase. destruct fetch_media, keys; try now apply (obeys_ret S E S_refl).
  apply obeys_bind; try exact S_refl; try exact S_trans; [apply obeys_print|].
  intros _. apply fetch_media_for_properties_obeys.
Qed.

Lemma fetch_properties_obeys (api : remote) (top skip : Z) :
  obeys S E (fetch_properties api top skip).
Proof.
  apply obeys_bind; try exact S_refl; try exact S_trans; [apply obeys_httpx_get; auto|].
  intros [status value]. simpl. destruct (status =? 200).
  - now apply (obeys_json_value S E S_refl).
  - apply obeys_bind; try exact S_refl; try exact S_trans; [apply obeys_print|].
    intros _. now apply (obeys_ret S E S_refl).
Qed.

Lemma fetch_all_loop_obeys (api : remote) (fetch_media : bool) (skips : list Z)
    (total : nat) :
  obeys S E (fetch_all_loop api fetch_media skips total).
Proof.
  revert total. induction skips as [|skip rest IH]; intro total; simpl.
  - now apply (obeys_ret S E S_refl).
  - apply obeys_bind; try exact S_refl; try exact S_trans; [apply fetch_properties_obeys|].
    intros [|p props]; [now apply (obeys_ret S E S_refl)|].
    apply obeys_bind; try exact S_refl; try exact S_trans; [apply insert_properties_obeys|].
    intros _. apply obeys_bind; try assumption.
    + apply (media_phase_obeys api fetch_media (listing_keys_of (p :: props))).
    + intros _. apply obeys_bind; try exact S_refl; try exact S_trans; [apply obeys_print|].
      intros _. apply IH.
Qed.

Lemma fetch_all_obeys (api : remote) (limit : Z) (fetch_media : bool) :
  obeys S E (fetch_all api limit fetch_media).
Proof.
  apply obeys_bind; try exact S_refl; try exact S_trans; [apply fetch_all_loop_obeys|].
  intro total. apply obeys_print.
Qed.

Lemma main_obeys (api : remote) :
  (forall c db, refresh_cities (clock c) (pending c) = inr db ->
                S c {| committed := committed c; pending := db; clock := clock c |}) ->
  obeys S E (main api).
Proof.
  intro S_refresh.
  apply obeys_bind; try exact S_refl; try exact S_trans; [apply fetch_all_obeys|].
  intros _. apply obeys_bind; try exact S_refl; try exact S_trans; [now apply obeys_execute|].
  intros _. apply obeys_bind; try exact S_refl; try exact S_trans; [apply obeys_commit|].
  intros _. apply obeys_print.
Qed.
End Pipeline.

(** ** Listing keys are never lost (frame of the pipeline) *)

Lemma keeps_keys_refl (c : connection) : keeps_keys c c.
Proof. intro H. split; [exact H | apply incl_refl]. Qed.

Lemma keeps_keys_trans (a b c : connection) :
  keeps_keys a b -> keeps_keys b c -> keeps_keys a c.
Proof.
  intros Hab Hbc Ha. destruct (Hab Ha) as [Hb Rab]. destruct (Hbc Hb) as [Hc Rbc].
  split; [exact Hc | eapply incl_tran; eassumption].
Qed.

Lemma on_conflict_update_keys (excluded : property_row) (tbl : list property_row) :
  keys_of (on_conflict_update excluded tbl) =
  if existsb (String.eqb (listing_key excluded)) (keys_of tbl)
  then keys_of tbl
  else keys_of tbl ++ [listing_key excluded].
Proof.
  unfold keys_of. induction tbl as [|r tbl IH]; simpl; [reflexivity|].
  rewrite (String.eqb_sym (listing_key excluded) (listing_key r)).
  destruct (String.eqb (listing_key r) (listing_key excluded)); simpl; [reflexivity|].
  rewrite IH. destruct (existsb _ _); reflexivity.
Qed.

Lemma on_conflict_update_keeps (excluded : property_row) (tbl : list property_row) :
  incl (keys_of tbl) (keys_of (on_conflict_update excluded tbl)).
Proof.
  rewrite on_conflict_update_keys. destruct (existsb _ _).
  - apply incl_refl.
  - apply incl_appl, incl_refl.
Qed.

Lemma upsert_statement_keeps (now : Z) (t : property_tuple) (db db' : database) :
  upsert_statement now t db = inr db' ->
  incl (keys_of (properties db)) (keys_of (properties db')).
Proof.
  unfold upsert_statement. intro H.
  destruct (property_tuple_check t); [discriminate|].
  destruct (t_listing_key (stored_tuple t)) as [key|]; [|discriminate].
  inversion H; subst; simpl. apply on_conflict_update_keeps.
Qed.

Lemma media_statement_properties (m : media_row) (db db' : database) :
  media_statement m db = inr db' -> properties db' = properties db.
Proof.
  unfold media_statement. intro H.
  destruct (media_tuple_check _ m); [discriminate|]. now inversion H.
Qed.

Lemma keeps_keys_pending (c : connection) (db : database) :
  incl (keys_of (properties (pending c))) (keys_of (properties db)) ->
  keeps_keys c {| committed := committed c; pending := db; clock := clock c |}.
Proof.
  intros Hgrow Hinv. simpl. split; [|apply incl_refl].
  eapply incl_tran; eassumption.
Qed.

Lemma keeps_keys_commit (c : connection) :
  keeps_keys c {| committed := pending c; pending := pending c; clock := clock c + 1 |}.
Proof. intro Hinv. simpl. split; [apply incl_refl | exact Hinv]. Qed.

Lemma keeps_keys_rollback (c : connection) :
  keeps_keys c {| committed := committed c; pending := committed c; clock := clock c + 1 |}.
Proof. intro Hinv. simpl. split; apply incl_refl. Qed.

Lemma keeps_keys_upsert (c : connection) (t : property_tuple) (db : database) :
  upsert_statement (clock c) t (pending c) = inr db ->
  keeps_keys c {| committed := committed c; pending := db; clock := clock c |}.
Proof. intro H. apply keeps_keys_pending. eapply upsert_statement_keeps, H. Qed.

Lemma keeps_keys_media (c : connection) (m : media_row) (db : database) :
  media_statement m (pending c) = inr db ->
  keeps_keys c {| committed := committed c; pending := db; clock := clock c |}.
Proof.
  intro H. apply keeps_keys_pending.
  rewrite (media_statement_properties _ _ _ H). apply incl_refl.
Qed.

Lemma keeps_keys_refresh (c : connection) (db : database) :
  refresh_cities (clock c) (pending c) = inr db ->
  keeps_keys c {| committed := committed c; pending := db; clock := clock c |}.
Proof.
  intro H. apply keeps_keys_pending. inversion H; subst; simpl. apply incl_refl.
Qed.

Lemma keeps_keys_from_connect {A} (m : M A) (db : database) (now : Z) :
  obeys keeps_keys (fun _ => True) m ->
  incl (keys_of (properties db))
       (keys_of (properties (committed (state_after m (connect db now))))).
Proof.
  intro Hm. unfold state_after.
  destruct (m (connect db now)) as [[r c'] t] eqn:Em.
  destruct (Hm _ _ _ _ Em) as [Hk _]. simpl.
  apply Hk. simpl. apply incl_refl.
Qed.

Ltac keys_side :=
  first [ exact keeps_keys_refl | exact keeps_keys_trans | exact keeps_keys_upsert
        | exact keeps_keys_media | exact keeps_keys_commit | exact keeps_keys_rollback
        | exact keeps_keys_refresh | intros; exact I ].

(** C9. No operation of the pipeline removes a listing: every key of the
    committed [properties] table before [insert_properties],
    [insert_media], [fetch_media_for_properties], [fetch_all] or [main]
    is a key of it afterwards, whether the operation returns or raises. *)
Theorem pipeline_keeps_listing_keys (api : remote) (db : database) (now : Z) :
  (forall batch,
      incl (keys_of (properties db))
           (keys_of (properties
              (committed (state_after (insert_properties batch) (connect db now)))))) /\
  (forall media_records,
      incl (keys_of (properties db))
           (keys_of (properties
              (committed (state_after (insert_media media_records) (connect db now)))))) /\
  (forall listing_keys,
      incl (keys_of (properties db))
           (keys_of (properties
              (committed (state_after (fetch_media_for_properties api listing_keys)
                            (connect db now)))))) /\
  (forall limit fetch_media,
      incl (keys_of (properties db))
           (keys_of (properties
              (committed (state_after (fetch_all api limit fetch_media) (connect db now)))))) /\
  incl (keys_of (properties db))
       (keys_of (properties (committed (state_after (main api) (connect db now))))).
Proof.
  repeat split; intros; apply keeps_keys_from_connect.
  - apply insert_properties_obeys; keys_side.
  - apply insert_media_obeys; keys_side.
  - apply fetch_media_for_properties_obeys; keys_side.
  - apply fetch_all_obeys; keys_side.
  - apply main_obeys; keys_side.
Qed.

(** ** Pagination *)

Lemma fetched_offsets_app (t1 t2 : list event) :
  fetched_offsets (t1 ++ t2) = fetched_offsets t1 ++ fetched_offsets t2.
Proof. apply flat_map_app. Qed.

Lemma fetched_offsets_fetch (top skip : Z) (t : list event) :
  fetched_offsets (GetProperty top skip :: t) = skip :: fetched_offsets t.
Proof. reflexivity. Qed.

Lemma fetched_offsets_none (t : list event) :
  Forall not_a_fetch t -> fetched_offsets t = [].
Proof.
  induction 1 as [|e t He _ IH]; [reflexivity|].
  destruct e; simpl in *; try exact IH. contradiction.
Qed.

Lemma not_listing_not_fetch (e : event) : listing_event e = false -> not_a_fetch e.
Proof. destruct e; simpl; intro H; trivial; discriminate H. Qed.

Lemma insert_properties_no_fetch (props : list raw_listing) (c c' : connection)
    (r : result unit) (t : list event) :
  insert_properties props c = (r, c', t) -> fetched_offsets t = [].
Proof.
  intro H. apply fetched_offsets_none.
  eapply (insert_properties_obeys any_state not_a_fetch); try eassumption;
    try (intros; exact I).
  exact not_listing_not_fetch.
Qed.

(** The media step emits neither a listing request nor a listing upsert. *)
Lemma media_phase_no_listing_event (api : remote) (fetch_media : bool)
    (keys : list string) (c c' : connection) (r : result unit) (t : list event) :
  media_phase api fetch_media keys c = (r, c', t) ->
  Forall (fun e => listing_event e = false) t.
Proof.
  intro H.
  eapply (media_phase_obeys any_state (fun e => listing_event e = false));
    try eassumption; try (intros; exact I).
  intros e He; exact He.
Qed.

Lemma media_phase_no_fetch (api : remote) (fetch_media : bool)
    (keys : list string) (c c' : connection) (r : result unit) (t : list event) :
  media_phase api fetch_media keys c = (r, c', t) -> fetched_offsets t = [].
Proof.
  intro H. apply fetched_offsets_none.
  eapply Forall_impl; [|eapply media_phase_no_listing_event, H].
  exact not_listing_not_fetch.
Qed.

(** The answer of [fetch_properties] depends on the remote alone. *)
Lemma fetch_properties_outcome (api : remote) (top skip : Z) (c c0 : connection) :
  outcome (fetch_properties api top skip) c = outcome (fetch_properties api top skip) c0.
Proof.
  unfold outcome. rewrite !fetch_properties_run.
  destruct (property_page api skip) as [status [v|]|]; simpl;
    destruct (status =? 200) || idtac; reflexivity.
Qed.

(** The requests of the loop: the first offset, then, when its page is
    not empty, the requests of the loop over the other offsets. *)
Lemma fetch_all_loop_offsets (api : remote) (fetch_media : bool) (skip : Z)
    (rest : list Z) (total : nat) (c : connection) :
  (exists p props c2 total',
      outcome (fetch_properties api 100 skip) c = Ok (p :: props) /\
      fetched_offsets (trace (fetch_all_loop api fetch_media (skip :: rest) total) c) =
      skip :: fetched_offsets (trace (fetch_all_loop api fetch_media rest total') c2))
  \/
  ((forall p props, outcome (fetch_properties api 100 skip) c <> Ok (p :: props)) /\
   fetched_offsets (trace (fetch_all_loop api fetch_media (skip :: rest) total) c) = [skip]).
Proof.
  pose proof (fetch_properties_run api 100 skip c) as Hrun.
  destruct (property_page api skip) as [status value|].
  - destruct (status =? 200).
    + destruct value as [[|p props]|].
      * right. unfold outcome, trace. cbn [fetch_all_loop].
        rewrite (bind_ok _ _ _ _ _ _ Hrun), Hrun. simpl. split; [discriminate | reflexivity].
      * left. destruct (fetch_all_loop_step api fetch_media skip rest total c _ _ Hrun)
          as (c1 & t1 & c2 & t2 & E1 & E2 & Eloop); [discriminate|].
        exists p, props, c2, (total + List.length (p :: props))%nat.
        unfold outcome, trace. rewrite Hrun, Eloop. split; [reflexivity|].
        destruct (fetch_all_loop api fetch_media rest _ c2) as [[r c3] t3]. simpl snd.
        rewrite fetched_offsets_fetch, !fetched_offsets_app.
        rewrite (insert_properties_no_fetch _ _ _ _ _ E1).
        rewrite (media_phase_no_fetch _ _ _ _ _ _ _ E2). reflexivity.
      * right. unfold outcome, trace. cbn [fetch_all_loop].
        rewrite (bind_raised _ _ _ _ _ _ Hrun), Hrun. simpl. split; [discriminate | reflexivity].
    + right. unfold outcome, trace. cbn [fetch_all_loop].
      rewrite (bind_ok _ _ _ _ _ _ Hrun), Hrun. simpl. split; [discriminate | reflexivity].
  - right. unfold outcome, trace. cbn [fetch_all_loop].
    rewrite (bind_raised _ _ _ _ _ _ Hrun), Hrun. simpl. split; [discriminate | reflexivity].
Qed.

Lemma fetch_all_loop_requests_in_range (api : remote) (fetch_media : bool)
    (skips : list Z) (total : nat) (c : connection) :
  incl (fetched_offsets (trace (fetch_all_loop api fetch_media skips total) c)) skips.
Proof.
  revert total c. induction skips as [|skip rest IH]; intros total c.
  - intros k Hk. exact Hk.
  - destruct (fetch_all_loop_offsets api fetch_media skip rest total c)
      as [(p & props & c2 & total' & _ & ->) | [_ ->]].
    + intros k [<-|Hk]; [now left | right; eapply IH, Hk].
    + intros k [<-|[]]. now left.
Qed.

Lemma fetch_all_loop_stops_at_empty_page (api : remote) (fetch_media : bool)
    (skips : list Z) :
  StronglySorted Z.lt skips ->
  forall (total : nat) (c c0 : connection) (k k' : Z),
    In k (fetched_offsets (trace (fetch_all_loop api fetch_media skips total) c)) ->
    outcome (fetch_properties api 100 k) c0 = Ok [] ->
    In k' (fetched_offsets (trace (fetch_all_loop api fetch_media skips total) c)) ->
    k' <= k.
Proof.
  induction 1 as [|skip rest Hsorted IH Hlt]; intros total c c0 k k' Hk Hempty Hk'.
  - destruct Hk.
  - destruct (fetch_all_loop_offsets api fetch_media skip rest total c)
      as [(p & props & c2 & total' & Hpage & Heq) | [_ Heq]];
      rewrite Heq in Hk, Hk'.
    + destruct Hk as [<-|Hk].
      * rewrite (fetch_properties_outcome api 100 skip c0 c), Hpage in Hempty.
        discriminate Hempty.
      * destruct Hk' as [<-|Hk']; [|eapply IH; eassumption].
        apply fetch_all_loop_requests_in_range in Hk.
        rewrite Forall_forall in Hlt. specialize (Hlt _ Hk). lia.
    + destruct Hk as [<-|[]]. destruct Hk' as [<-|[]]. lia.
Qed.

Lemma py_range_increasing (start stop step : Z) :
  0 < step -> StronglySorted Z.lt (py_range start stop step).
Proof.
  intro Hstep. unfold py_range.
  generalize (Z.to_nat ((stop - start + step - 1) / step)) as n.
  generalize 0%nat as a. intros a n. revert a.
  induction n as [|n IH]; intro a; simpl; constructor.
  - apply IH.
  - apply Forall_forall. intros x Hx. apply in_map_iff in Hx.
    destruct Hx as (i & <- & Hi). apply in_seq in Hi. nia.
Qed.

Lemma fetch_all_offsets (api : remote) (limit : Z) (fetch_media : bool) (c : connection) :
  fetched_offsets (trace (fetch_all api limit fetch_media) c) =
  fetched_offsets (trace (fetch_all_loop api fetch_media (py_range 0 limit 100) 0%nat) c).
Proof.
  unfold trace, fetch_all, bind, print, emit.
  destruct (fetch_all_loop api fetch_media (py_range 0 limit 100) 0%nat c) as [[[n|e] c1] t1];
    simpl; [|reflexivity].
  rewrite fetched_offsets_app. simpl. apply app_nil_r.
Qed.

(** C4. In a run of [fetch_all], once [fetch_properties] has returned an
    empty page for the offset [k], no request of the run is at an offset
    greater than [k]. *)
Theorem no_fetch_after_empty_page (api : remote) (limit : Z) (fetch_media : bool)
    (c c0 : connection) (k k' : Z) :
  In k (fetched_offsets (trace (fetch_all api limit fetch_media) c)) ->
  outcome (fetch_properties api 100 k) c0 = Ok [] ->
  In k' (fetched_offsets (trace (fetch_all api limit fetch_media) c)) ->
  k' <= k.
Proof.
  rewrite fetch_all_offsets.
  apply fetch_all_loop_stops_at_empty_page, py_range_increasing. lia.
Qed.

(** ** A failed batch *)

Lemma execute_each_run {A} (query : A -> Z -> database -> db_error + database)
    (argslist : list A) (c c' : connection) (r : result unit) (t : list event) :
  execute_each query argslist c = (r, c', t) ->
  committed c' = committed c /\ clock c' = clock c /\ t = [].
Proof.
  revert c c' r t. induction argslist as [|a rest IH]; intros c c' r t H; simpl in H.
  - inversion H; subst. auto.
  - unfold bind, execute in H.
    destruct (query a (clock c) (pending c)) as [e|db].
    + inversion H; subst. auto.
    + destruct (execute_each query rest _) as [[r2 c2] t2] eqn:E2.
      apply IH in E2. simpl in E2. destruct E2 as (Hc & Hk & ->).
      inversion H; subst. auto.
Qed.

Lemma execute_batch_run {A} (table : table_name)
    (query : A -> Z -> database -> db_error + database)
    (argslist : list A) (c c' : connection) (r : result unit) (t : list event) :
  execute_batch table query argslist c = (r, c', t) ->
  committed c' = committed c /\ clock c' = clock c /\
  t = [ExecuteBatch table (List.length argslist)].
Proof.
  unfold execute_batch, bind, emit. intro H.
  destruct (execute_each query argslist c) as [[r2 c2] t2] eqn:E2.
  apply execute_each_run in E2. destruct E2 as (Hc & Hk & ->).
  inversion H; subst. auto.
Qed.

(** When the batched upsert raises, [insert_properties] rolls back to the
    committed database, prints the error and returns. *)
Lemma insert_properties_failed (props : list raw_listing) (c : connection) (e : exn) :
  props <> [] ->
  outcome (execute_batch Properties property_query (map property_data_of props)) c
  = Raised e ->
  insert_properties props c =
  (Ok tt, rolled_back c,
   [ExecuteBatch Properties (List.length props); Rollback;
    Print (ErrorInsertingProperties e)]).
Proof.
  intros Hne Hfail. unfold outcome in Hfail.
  destruct (execute_batch Properties property_query (map property_data_of props) c)
    as [[r c1] t1] eqn:Eb.
  simpl in Hfail. subst r.
  destruct (execute_batch_run _ _ _ _ _ _ _ Eb) as (Hc & Hk & ->).
  unfold insert_properties, try_except.
  destruct props as [|p props]; [now elim Hne|].
  cbn [map] in *. rewrite (bind_raised _ _ _ _ _ _ Eb).
  unfold rollback, print, emit, bind, rolled_back. rewrite Hc, Hk.
  cbn [List.length]. rewrite length_map. reflexivity.
Qed.










(** ** The upsert *)

Lemma existsb_eqb_In (k : string) (l : list string) :
  existsb (String.eqb k) l = true <-> In k l.
Proof.
  rewrite existsb_exists. split.
  - intros (x & Hx & Heq). apply String.eqb_eq in Heq. now subst.
  - intro H. exists k. split; [exact H | apply String.eqb_refl].
Qed.

Lemma on_conflict_update_NoDup (excluded : property_row) (tbl : list property_row) :
  NoDup (keys_of tbl) -> NoDup (keys_of (on_conflict_update excluded tbl)).
Proof.
  intro H. rewrite on_conflict_update_keys.
  destruct (existsb _ _) eqn:Ex; [exact H|].
  assert (~ In (listing_key excluded) (keys_of tbl)) as Hnot.
  { intro Hin. apply existsb_eqb_In in Hin. congruence. }
  apply NoDup_app; [exact H | repeat constructor; intros [] | ].
  intros x Hx [<-|[]]. contradiction.
Qed.

Lemma on_conflict_update_has_key (excluded : property_row) (tbl : list property_row) :
  In (listing_key excluded) (keys_of (on_conflict_update excluded tbl)).
Proof.
  rewrite on_conflict_update_keys. destruct (existsb _ _) eqn:Ex.
  - now apply existsb_eqb_In.
  - apply in_or_app. right. now left.
Qed.

(** After the statement, a row with the key of the tuple carries the
    values of the tuple, whatever the row held before. *)
Lemma stored_timestamp_text (v : option timestamp_text) :
  timestamp v = true -> option_map Timestamp (stored_timestamp v) = v.
Proof. destruct v as [[text|text]|]; simpl; [reflexivity | discriminate | reflexivity]. Qed.

Lemma on_conflict_update_row (now : Z) (key : string) (t : property_tuple)
    (tbl : list property_row) :
  t_listing_key t = Some key -> timestamp (t_last_updated t) = true ->
  exists r, In r (on_conflict_update (proposed_row now key t) tbl) /\ row_values r = t.
Proof.
  intros Hkey Htime. induction tbl as [|r0 tbl IH]; simpl.
  - exists (proposed_row now key t). split; [now left|].
    destruct t; simpl in *; subst. unfold row_values; simpl.
    now rewrite stored_timestamp_text.
  - destruct (String.eqb_spec (listing_key r0) key) as [Heq|Hne].
    + exists (do_update r0 (proposed_row now key t)). split; [now left|].
      destruct t; simpl in *; subst. unfold row_values; simpl.
      now rewrite stored_timestamp_text.
    + destruct IH as (r & Hin & Hv). exists r. split; [now right | exact Hv].
Qed.

(** A statement for another key leaves the row alone. *)
Lemma on_conflict_update_other (excluded r : property_row) (tbl : list property_row) :
  listing_key r <> listing_key excluded -> In r tbl ->
  In r (on_conflict_update excluded tbl).
Proof.
  intros Hne. induction tbl as [|r0 tbl IH]; simpl; [intros []|].
  intros [<-|Hin].
  - destruct (String.eqb_spec (listing_key r0) (listing_key excluded)); [contradiction|].
    now left.
  - destruct (String.eqb (listing_key r0) (listing_key excluded)); right; auto.
Qed.

Lemma upserted_NoDup (now : Z) (tuples : list property_tuple) (tbl : list property_row) :
  NoDup (keys_of tbl) -> NoDup (keys_of (upserted now tuples tbl)).
Proof.
  revert tbl. induction tuples as [|t rest IH]; intros tbl H; simpl; [exact H|].
  destruct (t_listing_key t); apply IH; [now apply on_conflict_update_NoDup | exact H].
Qed.

Lemma upserted_keeps_keys (now : Z) (tuples : list property_tuple)
    (tbl : list property_row) :
  incl (keys_of tbl) (keys_of (upserted now tuples tbl)).
Proof.
  revert tbl. induction tuples as [|t rest IH]; intro tbl; simpl; [apply incl_refl|].
  destruct (t_listing_key t); [|apply IH].
  eapply incl_tran; [apply on_conflict_update_keeps | apply IH].
Qed.

Lemma upserted_has_key (now : Z) (tuples : list property_tuple) (tbl : list property_row)
    (t : property_tuple) (key : string) :
  In t tuples -> t_listing_key t = Some key -> In key (keys_of (upserted now tuples tbl)).
Proof.
  revert tbl. induction tuples as [|t0 rest IH]; intros tbl Hin Hkey; [destruct Hin|].
  simpl. destruct Hin as [->|Hin].
  - rewrite Hkey. apply upserted_keeps_keys.
    apply (on_conflict_update_has_key (proposed_row now key t)).
  - destruct (t_listing_key t0); now apply IH.
Qed.

Lemma upserted_other (now : Z) (tuples : list property_tuple) (tbl : list property_row)
    (r : property_row) :
  (forall q, In q tuples -> t_listing_key q <> Some (listing_key r)) ->
  In r tbl -> In r (upserted now tuples tbl).
Proof.
  revert tbl. induction tuples as [|t rest IH]; intros tbl Hother Hin; simpl; [exact Hin|].
  destruct (t_listing_key t) as [key|] eqn:Hkey.
  - apply IH; [intros q Hq; apply Hother; now right|].
    apply on_conflict_update_other; [|exact Hin].
    simpl. intro Heq. apply (Hother t); [now left | congruence].
  - apply IH; [intros q Hq; apply Hother; now right | exact Hin].
Qed.

(** Last write wins: the row of a key carries the values of the last
    tuple of the batch with that key. *)
Lemma upserted_last_wins (now : Z) (before after : list property_tuple)
    (t : property_tuple) (key : string) (tbl : list property_row) :
  t_listing_key t = Some key -> timestamp (t_last_updated t) = true ->
  (forall q, In q after -> t_listing_key q <> t_listing_key t) ->
  exists r, In r (upserted now (before ++ t :: after) tbl) /\ row_values r = t.
Proof.
  intros Hkey Htime Hlast. revert tbl.
  induction before as [|t0 before IH]; intro tbl; simpl.
  - rewrite Hkey.
    destruct (on_conflict_update_row now key t tbl Hkey Htime) as (r & Hin & Hv).
    exists r. split; [|exact Hv].
    apply upserted_other; [|exact Hin].
    intros q Hq Heq. apply (Hlast q Hq).
    rewrite Heq, <- Hv. reflexivity.
  - destruct (t_listing_key t0); apply IH.
Qed.

Lemma rows_with_key_one (key : string) (tbl : list property_row) :
  NoDup (keys_of tbl) -> In key (keys_of tbl) -> rows_with_key key tbl = 1%nat.
Proof.
  unfold rows_with_key, keys_of.
  induction tbl as [|r tbl IH]; simpl; [intros _ []|].
  intros Hnd Hin. inversion Hnd as [|? ? Hnot Hnd']; subst.
  destruct (String.eqb_spec (listing_key r) key) as [Heq|Hne].
  - simpl. f_equal. subst key.
    clear IH Hin Hnd Hnd'. induction tbl as [|r' tbl IH]; simpl in *; [reflexivity|].
    destruct (String.eqb_spec (listing_key r') (listing_key r)) as [Heq|_].
    + elim Hnot. now left.
    + apply IH. intro H. apply Hnot. now right.
  - destruct Hin as [Heq|Hin]; [contradiction|]. now apply IH.
Qed.

(** Case analysis on the head of a list of checks. *)
Ltac first_check :=
  match goal with
  | H : first_failure ((?b, _) :: _) = None |- _ =>
      let E := fresh "Hcheck" in
      destruct b eqn:E; cbn [first_failure] in H; [|discriminate H]
  | H : (if ?b then _ else _) = None |- _ =>
      let E := fresh "Hcheck" in
      destruct b eqn:E; [|discriminate H]
  end.

(** A tuple the store takes has a timestamp it reads and a key. *)
Lemma property_tuple_check_none (t : property_tuple) :
  property_tuple_check t = None ->
  timestamp (t_last_updated t) = true /\ exists key, t_listing_key t = Some key.
Proof.
  unfold property_tuple_check. intro H. first_check. split; [reflexivity|].
  repeat first_check.
  destruct (t_listing_key t) as [key|]; [now exists key | congruence].
Qed.

Lemma stored_tuple_key (t : property_tuple) :
  t_listing_key (stored_tuple t) = stored_varchar 50 (t_listing_key t).
Proof. reflexivity. Qed.

Lemma execute_each_accepted (tuples : list property_tuple) (c : connection) :
  Forall (fun t => property_tuple_check t = None) tuples ->
  execute_each property_query tuples c =
  (Ok tt,
   {| committed := committed c;
      pending := {| properties := upserted (clock c) (map stored_tuple tuples)
                                    (properties (pending c));
                    property_media := property_media (pending c);
                    cities := cities (pending c) |};
      clock := clock c |},
   []).
Proof.
  intro Hall. revert c. induction Hall as [|t rest Ht _ IH]; intro c; simpl.
  - unfold ret. destruct c as [cm [p m ct] k]; reflexivity.
  - unfold bind, execute, property_query, upsert_statement. rewrite Ht.
    destruct (property_tuple_check_none t Ht) as (_ & key & Hkey).
    rewrite stored_tuple_key, Hkey. cbn [stored_varchar option_map].
    rewrite IH. reflexivity.
Qed.

Lemma map_stored_tuple_sanitized (batch : list raw_listing) :
  map stored_tuple (map property_data_of batch) = map property_data_of batch.
Proof.
  rewrite map_map. apply map_ext. intro p. apply stored_tuple_sanitized.
Qed.

Lemma accepted_tuples (batch : list raw_listing) :
  accepted batch = true ->
  Forall (fun t => property_tuple_check t = None) (map property_data_of batch).
Proof.
  unfold accepted. rewrite forallb_forall, Forall_forall.
  intros H t Ht. apply in_map_iff in Ht. destruct Ht as (p & <- & Hp).
  specialize (H p Hp). now destruct (property_tuple_check (property_data_of p)).
Qed.

(** An accepted batch is committed whole. *)
Lemma insert_properties_accepted (batch : list raw_listing) (c : connection) :
  accepted batch = true ->
  let db := {| properties := upserted (clock c) (map property_data_of batch)
                               (properties (pending c));
               property_media := property_media (pending c);
               cities := cities (pending c) |} in
  state_after (insert_properties batch) c =
  {| committed := db; pending := db; clock := clock c + 1 |}.
Proof.
  intro Hacc. apply accepted_tuples in Hacc.
  unfold state_after, insert_properties, try_except.
  destruct (map property_data_of batch) as [|t ts] eqn:Hd.
  - destruct c as [cm [p m ct] k]; reflexivity.
  - unfold execute_batch. unfold bind at 1. unfold bind at 1. unfold emit at 1.
    rewrite (execute_each_accepted _ _ Hacc).
    assert (map stored_tuple (t :: ts) = t :: ts) as ->; [|reflexivity].
    rewrite <- Hd. apply map_stored_tuple_sanitized.
Qed.

(** C2, as the code has it. Applying the upsert twice with the same
    records, when the store takes them all (each with a key, numbers
    within their columns and, if any, a timestamp text the store reads)
    and the table has one row per key, leaves one row per listing key:
    the keys of the table are pairwise distinct and every key of the
    batch has exactly one row; and that row carries the values of the
    last record of the batch with that key, whatever the table held
    before (no column of the old row, its [last_updated] included, is
    looked at). *)
Theorem upsert_twice_one_row_per_key (batch : list raw_listing) (c : connection) :
  NoDup (keys_of (properties (pending c))) ->
  accepted batch = true ->
  let once := state_after (insert_properties batch) c in
  let twice := state_after (insert_properties batch) once in
  let tbl := properties (committed twice) in
  NoDup (keys_of tbl) /\
  (forall p key, In p batch -> t_listing_key (property_data_of p) = Some key ->
                 rows_with_key key tbl = 1%nat) /\
  (forall before p after,
      batch = before ++ p :: after ->
      (forall q, In q after ->
                 t_listing_key (property_data_of q) <> t_listing_key (property_data_of p)) ->
      exists r, In r tbl /\ row_values r = property_data_of p).
Proof.
  intros Hnd Hacc once twice tbl.
  assert (tbl = upserted (clock once) (map property_data_of batch)
                  (upserted (clock c) (map property_data_of batch)
                     (properties (pending c)))) as Htbl.
  { unfold tbl, twice. rewrite (insert_properties_accepted batch once Hacc). simpl.
    unfold once. rewrite (insert_properties_accepted batch c Hacc). reflexivity. }
  assert (NoDup (keys_of tbl)) as Hnd2.
  { rewrite Htbl. now apply upserted_NoDup, upserted_NoDup. }
  split; [exact Hnd2|]. split.
  - intros p key Hp Hkey. apply rows_with_key_one; [exact Hnd2|].
    rewrite Htbl. eapply upserted_has_key; [|exact Hkey]. now apply in_map.
  - intros before p after -> Hlast. rewrite Htbl.
    rewrite map_app. cbn [map].
    pose proof (accepted_tuples _ Hacc) as Hall. rewrite Forall_forall in Hall.
    destruct (property_tuple_check_none (property_data_of p)) as (Htime & key & Hkey).
    { apply Hall, in_map, in_or_app. right. now left. }
    eapply upserted_last_wins; [exact Hkey | exact Htime |].
    intros q Hq. apply in_map_iff in Hq. destruct Hq as (q0 & <- & Hq0). now apply Hlast.
Qed.

(** ** ORDER BY and LIMIT *)

Section OrderByFacts.
Context {A : Type}.
Variable le : A -> A -> bool.
Hypothesis le_total : forall a b, le a b = true \/ le b a = true.
Hypothesis le_trans : forall a b c, le a b = true -> le b c = true -> le a c = true.

Lemma insert_row_perm (x : A) (l : list A) : Permutation (x :: l) (Sql.insert_row le x l).
Proof.
  induction l as [|y l IH]; simpl; [reflexivity|].
  destruct (le x y); [reflexivity|].
  rewrite perm_swap. now apply perm_skip.
Qed.

Lemma order_by_perm (l : list A) : Permutation l (Sql.order_by le l).
Proof.
  induction l as [|x l IH]; simpl; [reflexivity|].
  rewrite <- insert_row_perm. now apply perm_skip.
Qed.

Lemma insert_row_sorted (x : A) (l : list A) :
  StronglySorted (fun a b => le a b = true) l ->
  StronglySorted (fun a b => le a b = true) (Sql.insert_row le x l).
Proof.
  induction 1 as [|y l Hs IH Hy]; simpl.
  - repeat constructor.
  - destruct (le x y) eqn:Hxy.
    + constructor; [now constructor|].
      constructor; [exact Hxy|].
      eapply Forall_impl; [|exact Hy]. intros z Hz. eapply le_trans; eassumption.
    + constructor; [exact IH|].
      eapply Permutation_Forall; [apply insert_row_perm|].
      constructor; [|exact Hy].
      destruct (le_total x y) as [H|H]; [congruence | exact H].
Qed.

Lemma order_by_sorted (l : list A) :
  StronglySorted (fun a b => le a b = true) (Sql.order_by le l).
Proof.
  induction l as [|x l IH]; simpl; [constructor | now apply insert_row_sorted].
Qed.
End OrderByFacts.

Lemma limit_In {A} (n : nat) (l : list A) (x : A) : In x (Sql.limit n l) -> In x l.
Proof.
  unfold Sql.limit. intro H. rewrite <- (firstn_skipn n l). apply in_or_app. now left.
Qed.

Lemma StronglySorted_firstn {A} (R : A -> A -> Prop) (n : nat) (l : list A) :
  StronglySorted R l -> StronglySorted R (firstn n l).
Proof.
  intro H. revert n. induction H as [|x l Hs IH Hx]; intros [|n]; simpl; try constructor.
  - apply IH.
  - rewrite Forall_forall in *. intros y Hy. apply Hx. eapply limit_In, Hy.
Qed.

Lemma StronglySorted_map {A B} (f : A -> B) (R : A -> A -> Prop) (R' : B -> B -> Prop)
    (l : list A) :
  (forall a b, R a b -> R' (f a) (f b)) ->
  StronglySorted R l -> StronglySorted R' (map f l).
Proof.
  intros Hf. induction 1 as [|x l Hs IH Hx]; simpl; constructor; [exact IH|].
  apply Forall_map. eapply Forall_impl; [|exact Hx]. intros; now apply Hf.
Qed.

(** Across a cut of a sorted list, every row before is in order with
    every row after. *)
Lemma StronglySorted_app {A} (R : A -> A -> Prop) (l1 l2 : list A) :
  StronglySorted R (l1 ++ l2) -> forall a b, In a l1 -> In b l2 -> R a b.
Proof.
  induction l1 as [|x l1 IH]; simpl; intros H a b Ha Hb; [destruct Ha|].
  inversion H as [|? ? Hs Hx]; subst.
  destruct Ha as [<-|Ha]; [|now apply IH].
  rewrite Forall_forall in Hx. apply Hx, in_or_app. now right.
Qed.

Lemma limit_cut {A} (n : nat) (l : list A) :
  l = Sql.limit n l ++ skipn n l.
Proof. symmetry. apply firstn_skipn. Qed.

Lemma limit_length {A} (n : nat) (l : list A) :
  List.length (Sql.limit n l) = Nat.min n (List.length l).
Proof. apply length_firstn. Qed.

Lemma desc_total (a b : option Z) : Sql.desc a b = true \/ Sql.desc b a = true.
Proof.
  destruct a as [x|], b as [y|]; simpl; auto.
  destruct (Z.leb_spec y x); [now left | right; apply Z.leb_le; lia].
Qed.

Lemma desc_trans (a b c : option Z) :
  Sql.desc a b = true -> Sql.desc b c = true -> Sql.desc a c = true.
Proof.
  destruct a as [x|], b as [y|], c as [z|]; simpl; try congruence.
  rewrite !Z.leb_le. lia.
Qed.

Lemma asc_total (a b : option Z) : Sql.asc a b = true \/ Sql.asc b a = true.
Proof.
  destruct a as [x|], b as [y|]; simpl; auto.
  destruct (Z.leb_spec x y); [now left | right; apply Z.leb_le; lia].
Qed.

Lemma asc_trans (a b c : option Z) :
  Sql.asc a b = true -> Sql.asc b c = true -> Sql.asc a c = true.
Proof.
  destruct a as [x|], b as [y|], c as [z|]; simpl; try congruence.
  rewrite !Z.leb_le. lia.
Qed.

(** ** The listing query *)

Lemma search_properties_rows (params : search_params) (db : database) :
  map hit (search_properties params db) = listing_query (conditions_of params) db.
Proof.
  unfold search_properties. rewrite map_map. simpl. apply map_id.
Qed.

Lemma listing_query_sorted (conditions : list condition) (db : database) :
  StronglySorted (fun a b => Sql.desc (list_price a) (list_price b) = true)
                 (listing_query conditions db).
Proof.
  unfold listing_query, Sql.limit. apply StronglySorted_firstn.
  apply (order_by_sorted (fun a b => Sql.desc (list_price a) (list_price b))).
  - intros a b. apply desc_total.
  - intros a b c. apply desc_trans.
Qed.

Lemma search_properties_sorted (params : search_params) (db : database) :
  StronglySorted
    (fun a b => Sql.desc (list_price (hit a)) (list_price (hit b)) = true)
    (search_properties params db).
Proof.
  pose proof (listing_query_sorted (conditions_of params) db) as Hs.
  rewrite <- search_properties_rows in Hs.
  remember (search_properties params db) as hits eqn:Hh. clear Hh.
  induction hits as [|h hits IH]; [constructor|].
  simpl in Hs. inversion Hs as [|? ? Hs' Hh]; subst.
  constructor; [now apply IH|].
  now apply Forall_map in Hh.
Qed.

(** Prices that are present come in descending numeric order. *)
Lemma search_prices_descending (params : search_params) (db : database)
    (before : list search_hit) (a : search_hit) (between : list search_hit)
    (b : search_hit) (after : list search_hit) (x y : Z) :
  search_properties params db = before ++ a :: between ++ b :: after ->
  list_price (hit a) = Some x -> list_price (hit b) = Some y -> y <= x.
Proof.
  intros Heq Hx Hy.
  pose proof (search_properties_sorted params db) as Hs. rewrite Heq in Hs.
  assert (Sql.desc (list_price (hit a)) (list_price (hit b)) = true) as Hd.
  { apply (StronglySorted_app
             (fun a b => Sql.desc (list_price (hit a)) (list_price (hit b)) = true)
             (before ++ [a]) (between ++ b :: after)).
    - rewrite <- app_assoc. exact Hs.
    - apply in_or_app. right. now left.
    - apply in_or_app. right. now left. }
  rewrite Hx, Hy in Hd. simpl in Hd. now apply Z.leb_le.
Qed.

(** C5. Whatever the predicates and the table, the list returned by
    [search_properties] has at most ten elements and is in descending
    order of [list_price], in the order of PostgreSQL, in which a row
    without price comes before the rows with one. *)
Theorem search_sorted_and_capped (params : search_params) (db : database) :
  (List.length (search_properties params db) <= 10)%nat /\
  StronglySorted
    (fun a b => Sql.desc (list_price (hit a)) (list_price (hit b)) = true)
    (search_properties params db).
Proof.
  split; [|apply search_properties_sorted].
  unfold search_properties, listing_query. rewrite length_map, limit_length. lia.
Qed.

(** ** The predicates of a search *)

Lemma and3_true_l (x : option bool) : Sql.and3 (Some true) x = x.
Proof. now destruct x as [[|]|]. Qed.

Lemma and3_assoc (x y z : option bool) :
  Sql.and3 x (Sql.and3 y z) = Sql.and3 (Sql.and3 x y) z.
Proof. now destruct x as [[|]|], y as [[|]|], z as [[|]|]. Qed.

Lemma where_clause_app (l1 l2 : list condition) (p : property_row) :
  where_clause (l1 ++ l2) p = Sql.and3 (where_clause l1 p) (where_clause l2 p).
Proof.
  unfold where_clause. induction l1 as [|c l1 IH]; simpl.
  - symmetry. apply and3_true_l.
  - rewrite IH. apply and3_assoc.
Qed.

Lemma selected_app (l1 l2 : list condition) (p : property_row) :
  selected (l1 ++ l2) p = selected l1 p && selected l2 p.
Proof.
  unfold selected. rewrite where_clause_app.
  now destruct (where_clause l1 p) as [[|]|], (where_clause l2 p) as [[|]|].
Qed.

Lemma selected_one (c : condition) (p : property_row) :
  selected [c] p = match eval_condition c p with Some true => true | _ => false end.
Proof.
  unfold selected, where_clause. simpl.
  now destruct (eval_condition c p) as [[|]|].
Qed.

Lemma selected_number (mk : Z -> condition) (column : property_row -> option Z)
    (test : Z -> Z -> bool) (a : option Z) (p : property_row) :
  (forall v, eval_condition (mk v) p = option_map (test v) (column p)) ->
  match a with Some v => negb (v =? 0) | None => true end = true ->
  selected (match a with
            | Some v => if Py.truthy_int (Some v) then [mk v] else []
            | None => []
            end) p
  = match a, column p with
    | None, _ => true
    | Some v, Some x => test v x
    | Some _, None => false
    end.
Proof.
  intros Heval Hplain. destruct a as [v|]; [|reflexivity].
  simpl. rewrite Hplain, selected_one, Heval.
  destruct (column p) as [x|]; simpl; [|reflexivity].
  now destruct (test v x).
Qed.

Lemma selected_city (a : option string) (p : property_row) :
  match a with Some c => Py.truthy_str (Some c) && literal c | None => true end = true ->
  selected (match a with
            | Some c => if Py.truthy_str (Some c)
                        then [CityLike ("%" ++ c ++ "%")%string] else []
            | None => []
            end) p
  = match a, city p with
    | None, _ => true
    | Some c, Some x => city_contains c x
    | Some _, None => false
    end.
Proof.
  intro Hplain. destruct a as [c|]; [|reflexivity].
  apply andb_true_iff in Hplain. destruct Hplain as [Htruthy Hliteral].
  rewrite Htruthy, selected_one. cbn [eval_condition].
  destruct (city p) as [x|]; cbn [option_map]; [|reflexivity].
  rewrite (like_contains c x Hliteral). now destruct (city_contains c x).
Qed.

(** The WHERE clause built from [params] is the conjunction of its
    predicates. *)
Lemma selected_conditions_of (params : search_params) (p : property_row) :
  plain params = true ->
  selected (conditions_of params) p = matches params p.
Proof.
  unfold plain. rewrite !andb_true_iff. intros [[[[Hc Hmin] Hmax] Hbed] Hbath].
  unfold conditions_of, matches. rewrite !selected_app.
  rewrite (selected_city _ p Hc).
  rewrite (selected_number ListPriceGe list_price (fun v x => v <=? x) _ p
             (fun v => eq_refl) Hmin).
  rewrite (selected_number ListPriceLe list_price (fun v x => x <=? v) _ p
             (fun v => eq_refl) Hmax).
  rewrite (selected_number BedroomsEq bedrooms (fun v x => x =? v) _ p
             (fun v => eq_refl) Hbed).
  rewrite (selected_number BathroomsEq bathrooms (fun v x => x =? v) _ p
             (fun v => eq_refl) Hbath).
  rewrite !andb_assoc. reflexivity.
Qed.

(** A predicate passed as [None], as zero or as the empty string builds no
    condition: the search is the one without that predicate. *)
Lemma search_falsy_is_omitted (db : database) :
  search_properties (Sample.only_bedrooms None) db = search_properties no_params db /\
  search_properties (Sample.only_bedrooms (Some 0)) db = search_properties no_params db /\
  search_properties {| q_city := Given (Some EmptyString); q_min_price := Given (Some 0);
                       q_max_price := Given None; q_bedrooms := Absent;
                       q_bathrooms := Absent |} db
  = search_properties no_params db.
Proof. repeat split. Qed.

(** A city with a wildcard is read as a pattern: [%] alone selects every
    listing that has a city, though the character occurs in none. *)
Lemma search_city_wildcard :
  let params := with_city "%" no_params in
  map (fun h => listing_key (hit h)) (search_properties params Sample.catalogue)
  = ["C3"; "A1"; "B2"] /\
  filter (matches params) (properties Sample.catalogue) = [].
Proof. split; reflexivity. Qed.

(** The listing query returns the first ten, in the order of the sort, of
    the rows that pass the WHERE clause. *)
Lemma listing_query_rows (conditions : list condition) (db : database) :
  let rows := listing_query conditions db in
  let passing := filter (selected conditions) (properties db) in
  (forall r, In r rows -> In r (properties db) /\ selected conditions r = true) /\
  (exists rest,
      Permutation (rows ++ rest) passing /\
      forall a b, In a rows -> In b rest ->
                  Sql.desc (list_price a) (list_price b) = true) /\
  List.length rows = Nat.min 10 (List.length passing) /\
  ((List.length passing <= 10)%nat -> Permutation rows passing).
Proof.
  intros rows passing.
  set (by_price := fun a b : property_row => Sql.desc (list_price a) (list_price b)).
  set (sorted := Sql.order_by by_price passing).
  assert (Permutation passing sorted) as Hperm by apply order_by_perm.
  assert (StronglySorted (fun a b => by_price a b = true) sorted) as Hsorted.
  { apply order_by_sorted.
    - intros a b. apply desc_total.
    - intros a b c. apply desc_trans. }
  assert (rows = Sql.limit 10 sorted) as Hrows by reflexivity.
  split; [|split; [|split]].
  - intros r Hr. apply filter_In. fold passing.
    eapply Permutation_in; [symmetry; exact Hperm|].
    rewrite Hrows in Hr. eapply limit_In, Hr.
  - exists (skipn 10 sorted). rewrite Hrows. split.
    + rewrite <- limit_cut. now symmetry.
    + rewrite (limit_cut 10 sorted) in Hsorted.
      exact (StronglySorted_app _ _ _ Hsorted).
  - rewrite Hrows, limit_length. now rewrite (Permutation_length Hperm).
  - intro Hlen. rewrite Hrows. unfold Sql.limit.
    rewrite firstn_all2; [now symmetry|]. now rewrite <- (Permutation_length Hperm).
Qed.

(** C1, as the code has it. For predicates none of which is passed as
    zero or as the empty string, with a city that has none of the
    characters [%], [_] and backslash, [search_properties] returns rows
    of the table that satisfy the conjunction of the predicates passed
    with a value (the city occurring in the city of the row, letters
    compared without case; the prices as inclusive bounds; bedrooms and
    bathrooms exactly), an absent predicate or one passed as [None]
    imposing nothing: every returned row satisfies it; the returned rows
    are among the satisfying rows, counted with multiplicity, and no
    satisfying row that is left out comes before a returned one in the
    order of the price; there are ten of them or all of them, whichever
    is fewer; and when at most ten rows satisfy the conjunction the
    result is exactly those rows. *)
Theorem search_returns_matching_rows (params : search_params) (db : database) :
  plain params = true ->
  let rows := map hit (search_properties params db) in
  let matching := filter (matches params) (properties db) in
  (forall r, In r rows -> In r (properties db) /\ matches params r = true) /\
  (exists rest,
      Permutation (rows ++ rest) matching /\
      forall a b, In a rows -> In b rest ->
                  Sql.desc (list_price a) (list_price b) = true) /\
  List.length rows = Nat.min 10 (List.length matching) /\
  ((List.length matching <= 10)%nat -> Permutation rows matching).
Proof.
  intros Hplain rows matching.
  assert (matching = filter (selected (conditions_of params)) (properties db)) as ->.
  { apply filter_ext. intro r. symmetry. now apply selected_conditions_of. }
  unfold rows. rewrite search_properties_rows.
  destruct (listing_query_rows (conditions_of params) db) as (Hin & Hrest & Hlen & Hall).
  split; [|auto].
  intros r Hr. destruct (Hin r Hr) as [Hr1 Hr2]. split; [exact Hr1|].
  now rewrite <- selected_conditions_of.
Qed.

(** ** The media of a listing *)

Lemma media_order_total (a b : media_row) :
  media_order a b = true \/ media_order b a = true.
Proof.
  unfold media_order. destruct (is_primary a), (is_primary b); auto using asc_total.
Qed.

Lemma media_order_trans (a b c : media_row) :
  media_order a b = true -> media_order b c = true -> media_order a c = true.
Proof.
  unfold media_order.
  destruct (is_primary a), (is_primary b), (is_primary c);
    try congruence; try apply asc_trans.
Qed.

Lemma media_order_primary (a b : media_row) :
  media_order a b = true -> is_primary b = true -> is_primary a = true.
Proof.
  unfold media_order. destruct (is_primary a), (is_primary b); congruence.
Qed.

Lemma media_order_same_flag (a b : media_row) :
  is_primary a = is_primary b -> media_order a b = true -> by_display_order a b.
Proof.
  unfold media_order, by_display_order.
  destruct (is_primary a), (is_primary b); congruence.
Qed.

Lemma StronglySorted_filter {A} (R R' : A -> A -> Prop) (f : A -> bool) (l : list A) :
  (forall a b, f a = true -> f b = true -> R a b -> R' a b) ->
  StronglySorted R l -> StronglySorted R' (filter f l).
Proof.
  intro Hf. induction 1 as [|x l Hs IH Hx]; simpl; [constructor|].
  destruct (f x) eqn:Hfx; [|exact IH].
  constructor; [exact IH|].
  rewrite Forall_forall in *. intros y Hy. apply filter_In in Hy.
  destruct Hy as [Hy Hfy]. now apply Hf; [| |apply Hx].
Qed.

(** Sorted on [is_primary DESC] first: the flagged rows, then the others. *)
Lemma media_order_split (rows : list media_row) :
  StronglySorted (fun a b => media_order a b = true) rows ->
  rows = filter is_primary rows ++ filter not_primary rows.
Proof.
  induction 1 as [|x l Hs IH Hx]; simpl; [reflexivity|].
  unfold not_primary at 1. destruct (is_primary x) eqn:Hp; simpl.
  - now rewrite <- IH.
  - assert (Forall (fun y => is_primary y = false) l) as Hall.
    { eapply Forall_impl; [|exact Hx]. intros y Hy.
      destruct (is_primary y) eqn:Hpy; [|reflexivity].
      pose proof (media_order_primary _ _ Hy Hpy). congruence. }
    assert (filter is_primary l = [] /\ filter not_primary l = l) as [-> ->];
      [|reflexivity].
    clear IH Hx Hs.
    induction Hall as [|y l Hy _ [IH1 IH2]]; simpl; [now split|].
    unfold not_primary at 1. rewrite Hy. simpl. split; [exact IH1 | now f_equal].
Qed.

Lemma media_rows_facts (key : string) (db : database) :
  let rows := media_rows key db in
  (List.length rows <= 5)%nat /\
  Forall (fun m => In m (property_media db) /\ media_listing_key m = Some key) rows /\
  StronglySorted (fun a b => media_order a b = true) rows.
Proof.
  intro rows. unfold rows, media_rows.
  split; [rewrite limit_length; lia|]. split.
  - apply Forall_forall. intros m Hm. apply limit_In in Hm.
    eapply Permutation_in in Hm; [|symmetry; apply order_by_perm].
    apply filter_In in Hm. destruct Hm as [Hin Hk]. split; [exact Hin|].
    unfold media_of_listing in Hk.
    destruct (media_listing_key m) as [k|]; [|discriminate].
    apply String.eqb_eq in Hk. now subst.
  - apply StronglySorted_firstn, order_by_sorted.
    + exact media_order_total.
    + exact media_order_trans.
Qed.

(** With a flagged row for the listing, the slice starts with one. *)
Lemma media_rows_primary_first (key : string) (db : database) (m : media_row) :
  In m (property_media db) -> media_listing_key m = Some key -> is_primary m = true ->
  exists first rest, media_rows key db = first :: rest /\ is_primary first = true.
Proof.
  intros Hin Hkey Hprim. unfold media_rows.
  set (sorted := Sql.order_by media_order
                   (filter (media_of_listing key) (property_media db))).
  assert (In m sorted) as Hm.
  { eapply Permutation_in; [apply order_by_perm|].
    apply filter_In. split; [exact Hin|].
    unfold media_of_listing. rewrite Hkey. apply String.eqb_refl. }
  assert (StronglySorted (fun a b => media_order a b = true) sorted) as Hs.
  { apply order_by_sorted; [exact media_order_total | exact media_order_trans]. }
  destruct sorted as [|first rest]; [destruct Hm|].
  exists first, (firstn 4 rest). split; [reflexivity|].
  inversion Hs as [|? ? _ Hfirst]; subst.
  destruct Hm as [->|Hm]; [exact Hprim|].
  rewrite Forall_forall in Hfirst. eapply media_order_primary; [apply Hfirst, Hm | exact Hprim].
Qed.

Lemma flat_map_at_most_one {A B} (f : A -> list B) (l : list A) :
  (forall a, (List.length (f a) <= 1)%nat) ->
  (List.length (flat_map f l) <= List.length l)%nat.
Proof.
  intro Hf. induction l as [|a l IH]; simpl; [lia|].
  rewrite length_app. specialize (Hf a). lia.
Qed.

Lemma preview_urls_length (prop : search_hit) : (List.length (preview_urls prop) <= 3)%nat.
Proof.
  unfold preview_urls.
  eapply Nat.le_trans; [apply flat_map_at_most_one | apply firstn_le_length].
  intros [[url type] flag]. simpl.
  destruct url as [[|ch u]|]; simpl; lia.
Qed.

Lemma media_urls_length (properties : list search_hit) :
  (List.length (media_urls properties) <= 9)%nat.
Proof. apply firstn_le_length. Qed.

Lemma search_properties_media (params : search_params) (db : database) (h : search_hit) :
  In h (search_properties params db) ->
  media h = map select_media (media_rows (listing_key (hit h)) db).
Proof.
  unfold search_properties. intro Hin. apply in_map_iff in Hin.
  destruct Hin as (p & <- & _). reflexivity.
Qed.

(** C6. For every listing returned by [search_properties], the attached
    media are the selected columns of at most five media rows of that
    listing, the flagged rows first and, among the flagged rows and among
    the others, in ascending display order (a row without order last);
    when the listing has a flagged media row, the first row of the slice
    is flagged; and [process_message] takes at most three URLs from the
    media of one property. *)
Theorem media_slice_order (params : search_params) (db : database) (h : search_hit) :
  In h (search_properties params db) ->
  let key := listing_key (hit h) in
  let rows := media_rows key db in
  media h = map select_media rows /\
  (List.length (media h) <= 5)%nat /\
  Forall (fun m => In m (property_media db) /\ media_listing_key m = Some key) rows /\
  rows = filter is_primary rows ++ filter not_primary rows /\
  StronglySorted by_display_order (filter is_primary rows) /\
  StronglySorted by_display_order (filter not_primary rows) /\
  ((exists m, In m (property_media db) /\ media_listing_key m = Some key /\
              is_primary m = true) ->
   exists first rest, rows = first :: rest /\ is_primary first = true) /\
  (List.length (preview_urls h) <= 3)%nat.
Proof.
  intros Hin key rows.
  pose proof (search_properties_media params db h Hin) as Hmedia.
  destruct (media_rows_facts key db) as (Hlen & Hrows & Hsorted).
  fold rows in Hlen, Hrows, Hsorted.
  split; [exact Hmedia|].
  split; [rewrite Hmedia, length_map; exact Hlen|].
  split; [exact Hrows|].
  split; [now apply media_order_split|].
  split; [|split; [|split]].
  - eapply StronglySorted_filter; [|exact Hsorted].
    intros a b Ha Hb. apply media_order_same_flag. congruence.
  - eapply StronglySorted_filter; [|exact Hsorted].
    unfold not_primary. intros a b Ha Hb. apply media_order_same_flag.
    destruct (is_primary a), (is_primary b); simpl in *; congruence.
  - intros (m & Hm & Hk & Hp). now apply (media_rows_primary_first key db m).
  - apply preview_urls_length.
Qed.

(** ** Cities and their counts *)

Lemma count_row_count (c c' : string) (groups : list (string * nat)) :
  count_in (count_row c groups) c' =
  if String.eqb c c' then S (count_in groups c') else count_in groups c'.
Proof.
  induction groups as [|[c0 n] rest IH]; simpl.
  - destruct (String.eqb c c'); reflexivity.
  - destruct (String.eqb_spec c0 c) as [->|Hne]; simpl.
    + destruct (String.eqb c c'); reflexivity.
    + destruct (String.eqb_spec c0 c') as [->|Hne'].
      * destruct (String.eqb_spec c c'); [congruence | reflexivity].
      * exact IH.
Qed.

Lemma count_row_names (c : string) (groups : list (string * nat)) :
  map fst (count_row c groups) =
  if existsb (String.eqb c) (map fst groups) then map fst groups
  else map fst groups ++ [c].
Proof.
  induction groups as [|[c0 n] rest IH]; simpl; [reflexivity|].
  rewrite (String.eqb_sym c c0).
  destruct (String.eqb c0 c); simpl; [reflexivity|].
  rewrite IH. destruct (existsb _ _); reflexivity.
Qed.

Lemma count_row_NoDup (c : string) (groups : list (string * nat)) :
  NoDup (map fst groups) -> NoDup (map fst (count_row c groups)).
Proof.
  intro H. rewrite count_row_names. destruct (existsb _ _) eqn:Ex; [exact H|].
  apply NoDup_app; [exact H | repeat constructor; intros [] |].
  intros x Hx [<-|[]]. apply existsb_eqb_In in Hx. congruence.
Qed.

Lemma count_row_positive (c : string) (groups : list (string * nat)) :
  Forall (fun g => (0 < snd g)%nat) groups ->
  Forall (fun g => (0 < snd g)%nat) (count_row c groups).
Proof.
  induction 1 as [|[c0 n] rest Hn Hrest IH]; simpl.
  - repeat constructor.
  - destruct (String.eqb c0 c); constructor; simpl in *; auto; lia.
Qed.

Lemma count_in_member (groups : list (string * nat)) (c : string) (n : nat) :
  NoDup (map fst groups) -> In (c, n) groups -> count_in groups c = n.
Proof.
  induction groups as [|[c0 n0] rest IH]; simpl; [intros _ []|].
  intros Hnd Hin. inversion Hnd as [|? ? Hnot Hnd']; subst.
  destruct Hin as [Heq|Hin].
  - inversion Heq; subst. now rewrite String.eqb_refl.
  - destruct (String.eqb_spec c0 c) as [->|_]; [|now apply IH].
    elim Hnot. apply in_map_iff. now exists (c, n).
Qed.

Lemma count_in_positive (groups : list (string * nat)) (c : string) :
  (0 < count_in groups c)%nat -> In (c, count_in groups c) groups.
Proof.
  induction groups as [|[c0 n0] rest IH]; simpl; [lia|].
  destruct (String.eqb_spec c0 c) as [->|_]; [now left | right; now apply IH].
Qed.

(** The groups built by the scan carry the direct counts. *)
Lemma group_by_city_counts (tbl : list property_row) :
  NoDup (map fst (group_by_city tbl)) /\
  Forall (fun g => (0 < snd g)%nat) (group_by_city tbl) /\
  forall c, count_in (group_by_city tbl) c = rows_of_city c tbl.
Proof.
  unfold group_by_city.
  assert (forall groups,
             NoDup (map fst groups) -> Forall (fun g => (0 < snd g)%nat) groups ->
             let groups' := fold_left (fun groups r => match city r with
                                                       | Some c => count_row c groups
                                                       | None => groups
                                                       end) tbl groups in
             NoDup (map fst groups') /\ Forall (fun g => (0 < snd g)%nat) groups' /\
             forall c, count_in groups' c = (count_in groups c + rows_of_city c tbl)%nat)
    as Hgen.
  { induction tbl as [|r tbl IH]; intros groups Hnd Hpos; simpl.
    - split; [exact Hnd|]. split; [exact Hpos|]. intro c. unfold rows_of_city. simpl. lia.
    - destruct (city r) as [x|] eqn:Hcity.
      + destruct (IH (count_row x groups)) as (H1 & H2 & H3);
          [now apply count_row_NoDup | now apply count_row_positive|].
        split; [exact H1|]. split; [exact H2|]. intro c. rewrite H3, count_row_count.
        unfold rows_of_city. simpl. rewrite Hcity.
        destruct (String.eqb x c); simpl; lia.
      + destruct (IH groups Hnd Hpos) as (H1 & H2 & H3).
        split; [exact H1|]. split; [exact H2|]. intro c. rewrite H3.
        unfold rows_of_city. simpl. rewrite Hcity. reflexivity. }
  destruct (Hgen [] (NoDup_nil _) (Forall_nil _)) as (H1 & H2 & H3).
  split; [exact H1|]. split; [exact H2|]. intro c. now rewrite H3.
Qed.

Lemma by_count_total (a b : string * nat) :
  (snd b <=? snd a)%nat = true \/ (snd a <=? snd b)%nat = true.
Proof. rewrite !Nat.leb_le. lia. Qed.

Lemma by_count_trans (a b c : string * nat) :
  (snd b <=? snd a)%nat = true -> (snd c <=? snd b)%nat = true ->
  (snd c <=? snd a)%nat = true.
Proof. rewrite !Nat.leb_le. lia. Qed.

(** C7. [get_available_cities] returns one line for each row of a
    group-by-count of the listings with a city, in the order of the
    rows: the city, an opening bracket, the count in decimal, the word
    properties and a closing bracket. The rows are at most twenty, no
    city twice, each with the number of listings of that city, in
    descending order of the count; a city of the table that is left out
    is one of more than twenty, and no row that is kept has a smaller
    count. *)
Theorem cities_match_group_by_count (db : database) (c : string) (n : nat) :
  let rows := cities_query db in
  get_available_cities db =
    map (fun row => (fst row ++ " ("
                     ++ NilZero.string_of_uint (Nat.to_uint (snd row))
                     ++ " properties)")%string) rows /\
  (List.length rows <= 20)%nat /\
  NoDup (map fst rows) /\
  StronglySorted (fun a b => (snd b <= snd a)%nat) rows /\
  (In (c, n) rows -> (0 < n)%nat /\ n = rows_of_city c (properties db)) /\
  ((0 < rows_of_city c (properties db))%nat ->
   In (c, rows_of_city c (properties db)) rows \/
   (List.length rows = 20%nat /\
    Forall (fun g => (rows_of_city c (properties db) <= snd g)%nat) rows)).
Proof.
  intro rows.
  destruct (group_by_city_counts (properties db)) as (Hnd & Hpos & Hcount).
  set (groups := group_by_city (properties db)) in *.
  set (cmp := fun a b : string * nat => (snd b <=? snd a)%nat).
  set (sorted := Sql.order_by cmp groups).
  assert (Permutation groups sorted) as Hperm by apply order_by_perm.
  assert (StronglySorted (fun a b => cmp a b = true) sorted) as Hsorted.
  { apply order_by_sorted; [exact by_count_total | exact by_count_trans]. }
  assert (rows = Sql.limit 20 sorted) as Hrows by reflexivity.
  assert (forall g, In g rows -> In g groups) as Hsub.
  { intros g Hg. rewrite Hrows in Hg. apply limit_In in Hg.
    eapply Permutation_in; [symmetry; exact Hperm | exact Hg]. }
  split; [reflexivity|].
  split; [rewrite Hrows, limit_length; lia|].
  split; [|split; [|split]].
  - assert (NoDup (map fst sorted)) as Hnd'.
    { eapply Permutation_NoDup; [apply Permutation_map, Hperm | exact Hnd]. }
    rewrite (limit_cut 20 sorted), map_app in Hnd'. rewrite Hrows.
    eapply NoDup_app_remove_r, Hnd'.
  - rewrite Hrows. apply StronglySorted_firstn.
    eapply StronglySorted_map with (f := fun g : string * nat => g) in Hsorted.
    + rewrite map_id in Hsorted. exact Hsorted.
    + intros a b Hab. apply Nat.leb_le. exact Hab.
  - intro Hin. apply Hsub in Hin.
    rewrite Forall_forall in Hpos. split; [apply (Hpos _ Hin)|].
    rewrite <- Hcount. symmetry. now apply count_in_member.
  - intro Hsome. rewrite <- Hcount in *.
    apply count_in_positive in Hsome.
    eapply Permutation_in in Hsome; [|exact Hperm].
    rewrite (limit_cut 20 sorted) in Hsome. apply in_app_or in Hsome.
    destruct Hsome as [Hkept|Hcut]; [left; now rewrite Hrows|].
    right. split.
    + rewrite Hrows, limit_length.
      destruct (Nat.le_gt_cases (List.length sorted) 20) as [Hle|Hgt]; [|lia].
      rewrite skipn_all2 in Hcut by exact Hle. destruct Hcut.
    + apply Forall_forall. intros g Hg. rewrite Hrows in Hg.
      rewrite (limit_cut 20 sorted) in Hsorted.
      pose proof (StronglySorted_app _ _ _ Hsorted g _ Hg Hcut) as Hcmp.
      unfold cmp in Hcmp. simpl in Hcmp. now apply Nat.leb_le.
Qed.

(** ** The statements on the sample data *)

(** Against the wording of C1: a predicate passed as [None] or as zero is
    dropped like an absent one, so rows that do not satisfy it are
    returned; and of eleven rows, with no predicate at all, the cheapest
    is not returned. *)
Lemma search_as_passed_counterexample :
  ~ (forall r, In r (map hit (search_properties (Sample.only_bedrooms None) Sample.catalogue))
               <-> In r (properties Sample.catalogue)
                   /\ matches_as_passed (Sample.only_bedrooms None) r = true) /\
  ~ (forall r, In r (map hit (search_properties (Sample.only_bedrooms (Some 0))
                                Sample.catalogue))
               <-> In r (properties Sample.catalogue)
                   /\ matches_as_passed (Sample.only_bedrooms (Some 0)) r = true) /\
  ~ (forall r, In r (map hit (search_properties no_params Sample.eleven))
               <-> In r (properties Sample.eleven)
                   /\ matches_as_passed no_params r = true).
Proof.
  split; [|split].
  - intro H. destruct (proj1 (H Sample.a1)) as [_ Hm].
    + vm_compute. right. left. reflexivity.
    + vm_compute in Hm. discriminate Hm.
  - intro H. destruct (proj1 (H Sample.a1)) as [_ Hm].
    + vm_compute. right. left. reflexivity.
    + vm_compute in Hm. discriminate Hm.
  - intro H.
    assert (In Sample.cheapest (map hit (search_properties no_params Sample.eleven))) as Hin.
    { apply (proj2 (H Sample.cheapest)). split; [|reflexivity].
      vm_compute. left. reflexivity. }
    apply (in_map listing_key) in Hin. vm_compute in Hin.
    repeat (destruct Hin as [Hin|Hin]; [discriminate Hin|]). exact Hin.
Qed.

Lemma search_returns_matching_rows_witness :
  plain Sample.toronto_under_a_million = true /\
  forall r, In r (map hit (search_properties Sample.toronto_under_a_million
                             Sample.catalogue)) ->
            In r (properties Sample.catalogue) /\
            matches Sample.toronto_under_a_million r = true.
Proof.
  split; [reflexivity|].
  apply (search_returns_matching_rows Sample.toronto_under_a_million Sample.catalogue).
  reflexivity.
Defined.

(** Against the wording of C2: a batch with a record that has no key is
    refused and rolled back, and its other listing has no row afterwards,
    however often the batch is applied. *)
Lemma upsert_refused_batch_counterexample :
  In (Sample.listing (Some "D4") (Some "Ottawa") (Some 500000) (Some 2)) Sample.bad_page /\
  rows_with_key "D4"
    (properties (committed
       (state_after (insert_properties Sample.bad_page)
          (state_after (insert_properties Sample.bad_page) (connect Sample.catalogue 7)))))
  <> 1%nat.
Proof.
  split; [left; reflexivity|]. vm_compute. discriminate.
Qed.

Lemma upsert_twice_one_row_per_key_witness :
  NoDup (keys_of (properties (pending (connect Sample.catalogue 7)))) /\
  accepted Sample.batch = true /\
  rows_with_key "A1"
    (properties (committed
       (state_after (insert_properties Sample.batch)
          (state_after (insert_properties Sample.batch) (connect Sample.catalogue 7)))))
  = 1%nat.
Proof.
  assert (NoDup (keys_of (properties (pending (connect Sample.catalogue 7))))) as Hnd.
  { simpl. repeat constructor; simpl; intuition discriminate. }
  split; [exact Hnd|]. split; [reflexivity|].
  destruct (upsert_twice_one_row_per_key Sample.batch (connect Sample.catalogue 7)
              Hnd eq_refl) as (_ & Hone & _).
  apply (Hone (Sample.listing (Some "A1") (Some "Toronto") (Some 925000) (Some 3))).
  - left. reflexivity.
  - reflexivity.
Defined.

Lemma no_fetch_after_empty_page_witness :
  In 200 (fetched_offsets (trace (fetch_all Sample.api 500 true)
                             (connect Sample.catalogue 7))) /\
  outcome (fetch_properties Sample.api 100 200) (connect empty_database 0) = Ok [] /\
  In 100 (fetched_offsets (trace (fetch_all Sample.api 500 true)
                             (connect Sample.catalogue 7))) /\
  100 <= 200.
Proof.
  assert (In 200 (fetched_offsets (trace (fetch_all Sample.api 500 true)
                                     (connect Sample.catalogue 7)))) as H200.
  { vm_compute. right. right. left. reflexivity. }
  assert (In 100 (fetched_offsets (trace (fetch_all Sample.api 500 true)
                                     (connect Sample.catalogue 7)))) as H100.
  { vm_compute. right. left. reflexivity. }
  split; [exact H200|]. split; [reflexivity|]. split; [exact H100|].
  exact (no_fetch_after_empty_page Sample.api 500 true (connect Sample.catalogue 7)
           (connect empty_database 0) 200 100 H200 eq_refl H100).
Defined.

Lemma media_slice_order_witness :
  In Sample.a1_hit (search_properties no_params Sample.catalogue) /\
  media Sample.a1_hit = map select_media (media_rows "A1" Sample.catalogue) /\
  (List.length (media Sample.a1_hit) <= 5)%nat.
Proof.
  assert (In Sample.a1_hit (search_properties no_params Sample.catalogue)) as Hin.
  { vm_compute. right. left. reflexivity. }
  split; [exact Hin|].
  destruct (media_slice_order no_params Sample.catalogue Sample.a1_hit Hin)
    as (Hmedia & Hlen & _).
  split; [exact Hmedia | exact Hlen].
Defined.

Lemma cities_match_group_by_count_witness :
  In ("Toronto", 2%nat) (cities_query Sample.catalogue) /\
  get_available_cities Sample.catalogue
  = ["Toronto (2 properties)"; "Mississauga (1 properties)"] /\
  (0 < 2)%nat /\ 2%nat = rows_of_city "Toronto" (properties Sample.catalogue).
Proof.
  assert (In ("Toronto", 2%nat) (cities_query Sample.catalogue)) as Hin.
  { vm_compute. left. reflexivity. }
  split; [exact Hin|].
  destruct (cities_match_group_by_count Sample.catalogue "Toronto" 2)
    as (Hlines & _ & _ & _ & Hcount & _).
  split; [|exact (Hcount Hin)].
  rewrite Hlines. reflexivity.
Defined.


(** * Further properties of the pipeline *)

(** ** What the sanitizer leaves to the store *)


(** X1. The tuple [insert_properties] builds for a record always fits the
    width of the string columns. Of the checks of the store on it three
    can fail, and the first to fail gives the error: a timestamp text
    the store does not read, then a number outside the range of its
    column, then a missing [ListingKey]. *)
Theorem sanitized_tuple_check (p : raw_listing) :
  property_tuple_check (property_data_of p) =
  if negb (timestamp (ModificationTimestamp p)) then Some InvalidDatetime
  else if negb (decimal_12_2 (ListPrice p) && int4 (BedroomsTotal p)
                && int4 (BathroomsTotalInteger p) && int4 (YearBuilt p))
  then Some NumericOutOfRange
  else match ListingKey p with
       | None => Some NotNullViolation
       | Some _ => None
       end.
Proof.
  rewrite property_tuple_check_sanitized. cbn [first_failure].
  destruct (timestamp (ModificationTimestamp p)); [|reflexivity].
  destruct (decimal_12_2 (ListPrice p)); [|reflexivity].
  destruct (int4 (BedroomsTotal p)); [|reflexivity].
  destruct (int4 (BathroomsTotalInteger p)); [|reflexivity].
  destruct (int4 (YearBuilt p)); [|reflexivity].
  now destruct (ListingKey p).
Qed.

(** ** Media *)

Lemma with_media_nil (db : database) : with_media db [] = db.
Proof. destruct db. unfold with_media. simpl. now rewrite app_nil_r. Qed.

Lemma with_media_cons (db : database) (m : media_row) (records : list media_row) :
  with_media (with_media db [m]) records = with_media db (m :: records).
Proof. unfold with_media. simpl. now rewrite <- app_assoc. Qed.

Lemma execute_media_query (m : media_row) (c : connection) :
  execute (media_query m) c =
  match media_tuple_check (keys_of (properties (pending c))) m with
  | Some e => (Raised (DatabaseError e), c, [])
  | None =>
      (Ok tt,
       {| committed := committed c; pending := with_media (pending c) [stored_media m];
          clock := clock c |},
       [])
  end.
Proof.
  unfold execute, media_query, media_statement.
  now destruct (media_tuple_check (keys_of (properties (pending c))) m).
Qed.

Lemma execute_each_media_taken (records : list media_row) (c : connection) :
  media_taken (pending c) records = true ->
  execute_each media_query records c =
  (Ok tt,
   {| committed := committed c;
      pending := with_media (pending c) (map stored_media records);
      clock := clock c |},
   []).
Proof.
  revert c. induction records as [|m records IH]; intros c Hacc.
  - simpl. unfold ret. rewrite with_media_nil. now destruct c.
  - simpl in Hacc. apply andb_true_iff in Hacc. destruct Hacc as [Hm Hrest].
    cbn [execute_each]. unfold bind. rewrite execute_media_query.
    destruct (media_tuple_check (keys_of (properties (pending c))) m); [discriminate|].
    rewrite IH by exact Hrest. cbn [pending committed clock app map].
    now rewrite with_media_cons.
Qed.

Lemma execute_each_media_refused (records : list media_row) (c : connection) :
  media_taken (pending c) records = false ->
  exists e c1, execute_each media_query records c = (Raised (DatabaseError e), c1, []).
Proof.
  revert c. induction records as [|m records IH]; intros c Hacc; [discriminate|].
  simpl in Hacc. cbn [execute_each]. unfold bind. rewrite execute_media_query.
  destruct (media_tuple_check (keys_of (properties (pending c))) m) as [e|] eqn:Hm.
  - exists e, c. reflexivity.
  - destruct (IH {| committed := committed c;
                    pending := with_media (pending c) [stored_media m];
                    clock := clock c |} Hacc) as (e & c1 & ->).
    exists e, c1. reflexivity.
Qed.

Lemma insert_media_taken (records : list media_row) (c : connection) :
  media_taken (pending c) records = true ->
  insert_media records c =
  (Ok tt, committed_as (with_media (pending c) (map stored_media records)) c,
   [ExecuteBatch PropertyMedia (List.length records); Commit;
    Print (InsertedMedia (List.length records))]).
Proof.
  intro Hacc. unfold insert_media, try_except, execute_batch.
  unfold bind at 1. unfold bind at 1. unfold emit at 1.
  rewrite (execute_each_media_taken records c Hacc). reflexivity.
Qed.

Lemma insert_media_refused (records : list media_row) (c : connection) :
  media_taken (pending c) records = false ->
  exists e,
    insert_media records c =
    (Ok tt, rolled_back c,
     [ExecuteBatch PropertyMedia (List.length records); Rollback;
      Print (ErrorInsertingMedia (DatabaseError e))]).
Proof.
  intro Hacc.
  destruct (execute_each_media_refused records c Hacc) as (e & c1 & Hrun).
  pose proof (execute_each_run _ _ _ _ _ _ Hrun) as (Hc & Hk & _).
  exists e. unfold insert_media, try_except, execute_batch.
  unfold bind at 1. unfold bind at 1. unfold emit at 1.
  rewrite Hrun. unfold rollback, print, emit, bind, rolled_back. now rewrite Hc, Hk.
Qed.

Lemma insert_media_state (records : list media_row) (c : connection) :
  state_after (insert_media records) c =
  if media_taken (pending c) records
  then committed_as (with_media (pending c) (map stored_media records)) c
  else rolled_back c.
Proof.
  unfold state_after. destruct (media_taken (pending c) records) eqn:Hacc.
  - now rewrite insert_media_taken.
  - destruct (insert_media_refused records c Hacc) as (e & ->). reflexivity.
Qed.

(** X2. [insert_media] is all or nothing: when the store takes every
    record they are all appended, in order, each as its columns store it
    (a text longer than its column by spaces only is cut to the column),
    and committed; when it refuses one (a URL of more than 500
    characters or a description of more than 255 that are not spaces
    beyond, an order outside the integers, a listing that is not in the
    store), none is kept and the open transaction is reset to the
    committed database. *)
Theorem insert_media_all_or_nothing (records : list media_row) (c : connection) :
  state_after (insert_media records) c =
  if media_taken (pending c) records
  then committed_as (with_media (pending c) (map cut_to_columns records)) c
  else rolled_back c.
Proof.
  rewrite insert_media_state. destruct (media_taken (pending c) records); [|reflexivity].
  f_equal.
Qed.

(** A description that runs over its 255 characters by spaces is cut
    and stored; one that runs over by another character is refused. *)
Lemma insert_media_cuts_spaces :
  let c := connect Sample.catalogue 7 in
  property_media
    (committed (state_after
                  (insert_media [More.described_photo (More.filler 255 ++ "  ")]) c))
  = property_media Sample.catalogue ++ [More.described_photo (More.filler 255)] /\
  state_after (insert_media [More.described_photo (More.filler 255 ++ " .")]) c
  = rolled_back c.
Proof.
  intro c. split; now rewrite insert_media_state.
Qed.

Lemma stored_varchar_within (n : nat) (v : option string) :
  within n v = true -> stored_varchar n v = v.
Proof.
  destruct v as [s|]; [|reflexivity]. simpl. intro H. apply Nat.leb_le in H.
  now rewrite take_all.
Qed.

Lemma stored_media_within (m : media_row) :
  within_columns m = true -> stored_media m = m.
Proof.
  unfold within_columns. rewrite !andb_true_iff. intros [[[[H1 H2] H3] H4] H5].
  unfold stored_media. rewrite !stored_varchar_within by assumption. now destruct m.
Qed.

Lemma media_accepted_as_it_is (db : database) (records : list media_row) :
  media_accepted db records = true ->
  media_taken db records = true /\ map stored_media records = records.
Proof.
  unfold media_accepted. rewrite andb_true_iff. intros [Hwithin Htaken].
  split; [exact Htaken|].
  rewrite forallb_forall in Hwithin. rewrite <- (map_id records) at 2.
  apply map_ext_in. intros m Hm. now apply stored_media_within, Hwithin.
Qed.

(** X3. Nothing guards against a repeat: inserting the same records
    twice, when the store takes them, leaves them twice in
    [property_media]. *)
Theorem insert_media_twice_duplicates (records : list media_row) (c : connection) :
  media_accepted (pending c) records = true ->
  property_media
    (committed (state_after (insert_media records)
                  (state_after (insert_media records) c)))
  = property_media (pending c) ++ records ++ records.
Proof.
  intro Hacc. destruct (media_accepted_as_it_is _ _ Hacc) as [Htaken Hsame].
  unfold state_after at 2. rewrite (insert_media_taken records c Htaken).
  cbn [fst snd]. unfold state_after. rewrite insert_media_taken.
  - cbn [fst snd committed_as committed pending with_media property_media].
    now rewrite Hsame, app_assoc.
  - exact Htaken.
Qed.







(** ** The listing batch, in all cases *)

Lemma execute_property_query (t : property_tuple) (c : connection) :
  execute (property_query t) c =
  match property_tuple_check t, t_listing_key (stored_tuple t) with
  | Some e, _ => (Raised (DatabaseError e), c, [])
  | None, None => (Raised (DatabaseError NotNullViolation), c, [])
  | None, Some key =>
      (Ok tt,
       {| committed := committed c;
          pending := with_listings (pending c)
                       (on_conflict_update (proposed_row (clock c) key (stored_tuple t))
                          (properties (pending c)));
          clock := clock c |},
       [])
  end.
Proof.
  unfold execute, property_query, upsert_statement.
  destruct (property_tuple_check t); [reflexivity|].
  destruct (t_listing_key (stored_tuple t)); reflexivity.
Qed.

Lemma execute_each_refused (tuples : list property_tuple) (c : connection) :
  forallb (fun t => match property_tuple_check t with None => true | Some _ => false end)
          tuples = false ->
  exists e c1, execute_each property_query tuples c = (Raised (DatabaseError e), c1, []).
Proof.
  revert c. induction tuples as [|t tuples IH]; intros c Hacc; [discriminate|].
  simpl in Hacc. cbn [execute_each]. unfold bind. rewrite execute_property_query.
  destruct (property_tuple_check t) as [e|] eqn:Ht.
  - exists e, c. reflexivity.
  - destruct (t_listing_key (stored_tuple t)) as [key|].
    + match goal with |- context [execute_each property_query tuples ?c'] =>
        destruct (IH c' Hacc) as (e & c1 & ->) end.
      exists e, c1. reflexivity.
    + exists NotNullViolation, c. reflexivity.
Qed.

Lemma accepted_forallb (batch : list raw_listing) :
  accepted batch =
  forallb (fun t => match property_tuple_check t with None => true | Some _ => false end)
          (map property_data_of batch).
Proof.
  unfold accepted. induction batch as [|p batch IH]; simpl; [reflexivity|].
  now rewrite IH.
Qed.

Lemma insert_properties_refused (batch : list raw_listing) (c : connection) :
  accepted batch = false ->
  exists e,
    insert_properties batch c =
    (Ok tt, rolled_back c,
     [ExecuteBatch Properties (List.length batch); Rollback;
      Print (ErrorInsertingProperties (DatabaseError e))]).
Proof.
  intro Hacc. pose proof Hacc as Hacc'. rewrite accepted_forallb in Hacc'.
  destruct (execute_each_refused _ c Hacc') as (e & c1 & Hrun).
  exists (e). apply insert_properties_failed.
  - intros ->. discriminate Hacc.
  - unfold outcome, execute_batch, bind, emit. now rewrite Hrun.
Qed.

Lemma insert_properties_state (batch : list raw_listing) (c : connection) :
  state_after (insert_properties batch) c =
  if accepted batch
  then committed_as
         (with_listings (pending c)
            (upserted (clock c) (map property_data_of batch) (properties (pending c))))
         c
  else rolled_back c.
Proof.
  destruct (accepted batch) eqn:Hacc.
  - apply (insert_properties_accepted batch c Hacc).
  - destruct (insert_properties_refused batch c Hacc) as (e & Hrun).
    unfold state_after. now rewrite Hrun.
Qed.

(** X5. [insert_properties] is all or nothing, and always ends its
    transaction: when the store takes every record the table is the old
    one with the records upserted in order, committed (an empty batch
    commits the table as it is); when it refuses one record (no key, a
    number outside its column, a timestamp text it does not read), the
    committed database stays and the open transaction is reset to it. *)
Theorem insert_properties_all_or_nothing (batch : list raw_listing) (c : connection) :
  state_after (insert_properties batch) c =
  if accepted batch
  then committed_as
         (with_listings (pending c)
            (upserted (clock c) (map property_data_of batch) (properties (pending c))))
         c
  else rolled_back c.
Proof. apply insert_properties_state. Qed.

(** A record whose timestamp the store does not read takes its batch
    with it; with a timestamp it reads, the batch is stored. *)
Lemma insert_properties_timestamps :
  let c := connect Sample.catalogue 7 in
  let a1 := Sample.listing (Some "A1") (Some "Toronto") (Some 950000) (Some 3) in
  state_after (insert_properties [a1; More.f6 (NotTimestamp "not-a-date")]) c
  = rolled_back c /\
  keys_of (properties (committed
     (state_after (insert_properties [a1; More.f6 (Timestamp "2024-05-01T12:00:00Z")]) c)))
  = ["A1"; "B2"; "C3"; "F6"].
Proof.
  intros c a1. split.
  - now rewrite insert_properties_state.
  - now rewrite insert_properties_state.
Qed.

Lemma insert_properties_accepted_run (batch : list raw_listing) (c : connection) :
  accepted batch = true ->
  insert_properties batch c =
  (Ok tt,
   committed_as
     (with_listings (pending c)
        (upserted (clock c) (map property_data_of batch) (properties (pending c))))
     c,
   match batch with
   | [] => []
   | _ :: _ => [ExecuteBatch Properties (List.length batch)]
   end ++ [Commit; Print (InsertedUpdated (List.length batch))]).
Proof.
  intro Hacc. apply accepted_tuples in Hacc.
  unfold insert_properties, try_except.
  destruct batch as [|p batch].
  - destruct c as [cm [ps m ct] k]; reflexivity.
  - cbn [map] in *. unfold execute_batch. unfold bind at 1. unfold bind at 1.
    unfold emit at 1. rewrite (execute_each_accepted _ _ Hacc).
    change (property_data_of p :: map property_data_of batch)
      with (map property_data_of (p :: batch)).
    rewrite map_stored_tuple_sanitized.
    cbn [List.length map]. rewrite !length_map. reflexivity.
Qed.

(** The events of [insert_properties]: a batch, the end of the
    transaction and one line of output. *)
Lemma insert_properties_events (batch : list raw_listing) (c c' : connection)
    (r : result unit) (t : list event) :
  insert_properties batch c = (r, c', t) ->
  Forall no_media_event t /\ media_requests t = [].
Proof.
  destruct (accepted batch) eqn:Hacc.
  - rewrite (insert_properties_accepted_run batch c Hacc). intro H. inversion H; subst.
    destruct batch; simpl; repeat constructor.
  - destruct (insert_properties_refused batch c Hacc) as (e & ->).
    intro H. inversion H; subst. simpl. repeat constructor.
Qed.

(** ** The loop of [fetch_all], turn by turn *)

Lemma page_outcome (api : remote) (top skip : Z) (c : connection)
    (props : list raw_listing) :
  outcome (fetch_properties api top skip) c = Ok props -> page api skip = props.
Proof.
  unfold outcome, page. rewrite fetch_properties_run.
  destruct (property_page api skip) as [status [v|]|]; simpl;
    try destruct (status =? 200); simpl; intro H; now inversion H.
Qed.

(** A turn either stores a page that is not empty and goes on, or ends
    the loop on an empty page or on an exception of the request. *)
Lemma fetch_all_loop_cases (api : remote) (fetch_media : bool) (skip : Z)
    (rest : list Z) (total : nat) (c : connection) :
  (exists p props c1 t1 c2 t2,
      page api skip = p :: props /\
      insert_properties (p :: props) c = (Ok tt, c1, t1) /\
      media_phase api fetch_media (listing_keys_of (p :: props)) c1 = (Ok tt, c2, t2) /\
      fetch_all_loop api fetch_media (skip :: rest) total c =
      (let '(r, c3, t3) :=
         fetch_all_loop api fetch_media rest (total + List.length (p :: props))%nat c2 in
       (r, c3,
        GetProperty 100 skip :: t1 ++ t2
          ++ Print (BatchProgress (skip / 100 + 1)
                      (total + List.length (p :: props))%nat) :: t3)))
  \/
  (page api skip = [] /\
   exists r diagnostics,
     fetch_all_loop api fetch_media (skip :: rest) total c =
     (r, c, GetProperty 100 skip :: map Print diagnostics) /\
     (r = Ok total \/ exists e, r = Raised e)).
Proof.
  pose proof (fetch_properties_run api 100 skip c) as Hrun.
  unfold page.
  destruct (property_page api skip) as [status value|].
  - destruct (status =? 200).
    + destruct value as [[|p props]|].
      * right. split; [reflexivity|]. exists (Ok total), [].
        cbn [fetch_all_loop]. rewrite (bind_ok _ _ _ _ _ _ Hrun). auto.
      * left.
        destruct (fetch_all_loop_step api fetch_media skip rest total c _ _ Hrun)
          as (c1 & t1 & c2 & t2 & E1 & E2 & Eloop); [discriminate|].
        exists p, props, c1, t1, c2, t2. auto.
      * right. split; [reflexivity|]. exists (Raised JSONDecodeError), [].
        cbn [fetch_all_loop]. rewrite (bind_raised _ _ _ _ _ _ Hrun). eauto.
    + right. split; [now destruct value|].
      exists (Ok total), [PropertyFetchFailed status].
      cbn [fetch_all_loop]. rewrite (bind_ok _ _ _ _ _ _ Hrun). auto.
  - right. split; [reflexivity|]. exists (Raised TransportError), [].
    cbn [fetch_all_loop]. rewrite (bind_raised _ _ _ _ _ _ Hrun). eauto.
Qed.

Lemma fetched_offsets_prints (diagnostics : list diagnostic) :
  fetched_offsets (map Print diagnostics) = [].
Proof. induction diagnostics; [reflexivity | exact IHdiagnostics]. Qed.

Lemma fetch_all_loop_offsets_prefix (api : remote) (fetch_media : bool)
    (skips : list Z) (total : nat) (c : connection) :
  exists n,
    fetched_offsets (trace (fetch_all_loop api fetch_media skips total) c) = firstn n skips.
Proof.
  revert total c. induction skips as [|skip rest IH]; intros total c.
  - exists 0%nat. reflexivity.
  - destruct (fetch_all_loop_cases api fetch_media skip rest total c)
      as [(p & props & c1 & t1 & c2 & t2 & _ & E1 & E2 & Eloop)
         |(_ & r & d & Eloop & _)].
    + destruct (IH (total + List.length (p :: props))%nat c2) as (n & Hn).
      exists (S n). unfold trace in *. rewrite Eloop.
      destruct (fetch_all_loop api fetch_media rest _ c2) as [[r c3] t3].
      cbn [snd] in *. rewrite fetched_offsets_fetch, !fetched_offsets_app.
      rewrite (insert_properties_no_fetch _ _ _ _ _ E1).
      rewrite (media_phase_no_fetch _ _ _ _ _ _ _ E2).
      cbn [app fetched_offsets flat_map]. fold (fetched_offsets t3).
      now rewrite Hn.
    + exists 1%nat. unfold trace. rewrite Eloop. cbn [snd].
      rewrite fetched_offsets_fetch, fetched_offsets_prints. reflexivity.
Qed.

Lemma py_range_spec (start stop step k : Z) :
  0 < step ->
  In k (py_range start stop step) <->
  start <= k < stop /\ (k - start) mod step = 0.
Proof.
  intro Hstep. unfold py_range. rewrite in_map_iff. split.
  - intros (i & <- & Hi). apply in_seq in Hi.
    assert (Z.of_nat i < (stop - start + step - 1) / step) as Hlt by lia.
    assert (step * ((stop - start + step - 1) / step) <= stop - start + step - 1)
      by (apply Z.mul_div_le; lia).
    split; [nia|].
    replace (start + step * Z.of_nat i - start) with (Z.of_nat i * step) by lia.
    apply Z_mod_mult.
  - intros [[Hlo Hhi] Hmod].
    apply Z.mod_divide in Hmod; [|lia]. destruct Hmod as [q Hq].
    assert (0 <= q) by nia.
    exists (Z.to_nat q). split; [lia|].
    apply in_seq. split; [lia|]. simpl.
    assert (q + 1 <= (stop - start + step - 1) / step); [|lia].
    apply Z.div_le_lower_bound; lia.
Qed.

(** X6. [fetch_all] asks for the pages in order and without gap from
    offset 0: its requests are a first part of 0, 100, 200, ...; each is
    a multiple of 100 below [limit]; with a [limit] of zero or less
    there is none. *)
Theorem fetch_all_requests (api : remote) (limit : Z) (fetch_media : bool)
    (c : connection) :
  let offsets := fetched_offsets (trace (fetch_all api limit fetch_media) c) in
  (exists n, offsets = firstn n (py_range 0 limit 100)) /\
  Forall (fun k => 0 <= k < limit /\ k mod 100 = 0) offsets /\
  (List.length offsets <= Z.to_nat ((limit + 99) / 100))%nat.
Proof.
  intro offsets. unfold offsets. rewrite fetch_all_offsets.
  destruct (fetch_all_loop_offsets_prefix api fetch_media (py_range 0 limit 100) 0%nat c)
    as (n & Hn).
  split; [now exists n|]. rewrite Hn. split.
  - apply Forall_forall. intros k Hk. apply limit_In in Hk.
    apply py_range_spec in Hk; [|lia]. now rewrite Z.sub_0_r in Hk.
  - eapply Nat.le_trans.
    + rewrite length_firstn. apply Nat.le_min_r.
    + unfold py_range. rewrite length_map, length_seq.
      replace (limit - 0 + 100 - 1) with (limit + 99) by lia. lia.
Qed.

(** ** Runs without media *)

Lemma insert_properties_media (batch : list raw_listing) (c : connection) :
  media_settled c ->
  media_settled (state_after (insert_properties batch) c) /\
  property_media (committed (state_after (insert_properties batch) c))
  = property_media (committed c).
Proof.
  unfold media_settled. intro Hc. rewrite insert_properties_state.
  destruct (accepted batch); simpl; auto.
Qed.

Lemma fetch_all_loop_without_media (api : remote) (skips : list Z) (total : nat)
    (c : connection) :
  media_settled c ->
  media_settled (state_after (fetch_all_loop api false skips total) c) /\
  property_media (committed (state_after (fetch_all_loop api false skips total) c))
  = property_media (committed c) /\
  Forall no_media_event (trace (fetch_all_loop api false skips total) c).
Proof.
  revert total c. induction skips as [|skip rest IH]; intros total c Hc.
  - repeat split; [exact Hc | constructor].
  - destruct (fetch_all_loop_cases api false skip rest total c)
      as [(p & props & c1 & t1 & c2 & t2 & _ & E1 & E2 & Eloop)
         |(_ & r & d & Eloop & _)].
    + inversion E2; subst c2 t2.
      destruct (insert_properties_media (p :: props) c Hc) as [Hc1 Hm1].
      destruct (insert_properties_events _ _ _ _ _ E1) as [Hev1 _].
      unfold state_after in Hc1, Hm1. rewrite E1 in Hc1, Hm1. cbn [fst snd] in Hc1, Hm1.
      destruct (IH (total + List.length (p :: props))%nat c1 Hc1) as (H1 & H2 & H3).
      unfold state_after, trace in *. rewrite Eloop.
      destruct (fetch_all_loop api false rest _ c1) as [[r c3] t3].
      cbn [fst snd] in *. split; [exact H1|]. split; [congruence|].
      constructor; [exact I|]. apply Forall_app. split; [exact Hev1|].
      constructor; [exact I | exact H3].
    + unfold state_after, trace. rewrite Eloop. cbn [fst snd].
      split; [exact Hc|]. split; [reflexivity|].
      constructor; [exact I|]. clear. induction d; constructor; [exact I | assumption].
Qed.

(** X7. With [fetch_media] off, [fetch_all] sends no media request,
    executes no media batch, and leaves [property_media] as it was. *)
Theorem fetch_all_without_media (api : remote) (limit : Z) (db : database) (now : Z) :
  Forall no_media_event (trace (fetch_all api limit false) (connect db now)) /\
  property_media (committed (state_after (fetch_all api limit false) (connect db now)))
  = property_media db.
Proof.
  destruct (fetch_all_loop_without_media api (py_range 0 limit 100) 0%nat
              (connect db now) eq_refl) as (_ & Hm & Hev).
  unfold trace, state_after, fetch_all, bind, print, emit in *.
  destruct (fetch_all_loop api false (py_range 0 limit 100) 0%nat (connect db now))
    as [[[n|e] c1] t1]; cbn [fst snd] in *.
  - split; [|exact Hm]. apply Forall_app. split; [exact Hev | repeat constructor].
  - split; [exact Hev | exact Hm].
Qed.

(** ** The count of a run *)

Lemma fetch_all_loop_total (api : remote) (fetch_media : bool) (skips : list Z)
    (total n : nat) (c : connection) :
  outcome (fetch_all_loop api fetch_media skips total) c = Ok n ->
  n = (total + records_at api
                 (fetched_offsets (trace (fetch_all_loop api fetch_media skips total) c)))%nat.
Proof.
  revert total c. induction skips as [|skip rest IH]; intros total c.
  - unfold outcome, trace, records_at. simpl. intro H. inversion H. lia.
  - destruct (fetch_all_loop_cases api fetch_media skip rest total c)
      as [(p & props & c1 & t1 & c2 & t2 & Hpage & E1 & E2 & Eloop)
         |(Hpage & r & d & Eloop & Hr)].
    + specialize (IH (total + List.length (p :: props))%nat c2).
      unfold outcome, trace in *. rewrite Eloop.
      destruct (fetch_all_loop api fetch_media rest _ c2) as [[r c3] t3].
      cbn [fst snd] in *. intro H. specialize (IH H).
      rewrite fetched_offsets_fetch, !fetched_offsets_app.
      rewrite (insert_properties_no_fetch _ _ _ _ _ E1).
      rewrite (media_phase_no_fetch _ _ _ _ _ _ _ E2).
      cbn [app fetched_offsets flat_map]. fold (fetched_offsets t3).
      unfold records_at in *. cbn [map list_sum fold_right]. rewrite Hpage.
      cbn [List.length] in *. unfold list_sum in IH. lia.
    + unfold outcome, trace. rewrite Eloop. cbn [fst snd]. intro H. subst r.
      rewrite fetched_offsets_fetch, fetched_offsets_prints.
      unfold records_at. cbn [map list_sum fold_right]. rewrite Hpage.
      destruct Hr as [Hr|[e Hr]]; inversion Hr. simpl. lia.
Qed.

(** X8. When [fetch_all] returns, the last thing it prints is the number
    of records of the pages it fetched, those of the batches the store
    refused included. *)
Theorem fetch_all_reports_fetched (api : remote) (limit : Z) (fetch_media : bool)
    (c : connection) :
  outcome (fetch_all api limit fetch_media) c = Ok tt ->
  exists t,
    trace (fetch_all api limit fetch_media) c =
    t ++ [Print (FetchComplete (records_at api (fetched_offsets t)))].
Proof.
  pose proof (fetch_all_loop_total api fetch_media (py_range 0 limit 100) 0%nat) as Htotal.
  unfold outcome, trace, fetch_all, bind, print, emit in *.
  destruct (fetch_all_loop api fetch_media (py_range 0 limit 100) 0%nat c)
    as [[[n|e] c1] t1] eqn:Eloop; cbn [fst snd]; [|discriminate].
  intros _. exists t1. specialize (Htotal n c). rewrite Eloop in Htotal.
  cbn [fst snd Nat.add] in Htotal. now rewrite <- Htotal.
Qed.

(** ** [main] and the cities table *)

Lemma main_run (api : remote) (c : connection) :
  main api c =
  match fetch_all api 10000 true c with
  | (Ok _, c1, t1) =>
      (Ok tt, committed_as (refreshed (pending c1)) c1,
       t1 ++ [Commit; Print CitiesRefreshed])
  | (Raised e, c1, t1) => (Raised e, c1, t1)
  end.
Proof.
  unfold main. unfold bind at 1.
  destruct (fetch_all api 10000 true c) as [[[u|e] c1] t1]; reflexivity.
Qed.

Lemma distinct_cities_spec (tbl : list property_row) (seen : list string) (x : string) :
  In x (distinct_cities tbl seen) <->
  ~ In x seen /\ exists r, In r tbl /\ city r = Some x.
Proof.
  revert seen. induction tbl as [|r tbl IH]; intro seen; simpl.
  - split; [intros [] | intros [_ (r & [] & _)]].
  - destruct (city r) as [c|] eqn:Hcity.
    + destruct (existsb (String.eqb c) seen) eqn:Hseen.
      * rewrite IH. apply existsb_eqb_In in Hseen. split.
        -- intros [Hx (r' & Hr' & Hc')]. split; [exact Hx|]. exists r'. auto.
        -- intros [Hx (r' & [<-|Hr'] & Hc')]; (split; [exact Hx|]).
           ++ congruence.
           ++ exists r'. auto.
      * assert (~ In c seen) as Hnot.
        { intro Hin. apply existsb_eqb_In in Hin. congruence. }
        simpl. rewrite IH. simpl. split.
        -- intros [<-|[Hx (r' & Hr' & Hc')]].
           ++ split; [exact Hnot|]. exists r. auto.
           ++ split; [tauto|]. exists r'. auto.
        -- intros [Hx (r' & [<-|Hr'] & Hc')].
           ++ left. congruence.
           ++ destruct (string_dec c x) as [->|Hne]; [now left|].
              right. split; [intros [?|?]; contradiction|]. exists r'. auto.
    + rewrite IH. split.
      * intros [Hx (r' & Hr' & Hc')]. split; [exact Hx|]. exists r'. auto.
      * intros [Hx (r' & [<-|Hr'] & Hc')]; [congruence|].
        split; [exact Hx|]. exists r'. auto.
Qed.

Lemma distinct_cities_NoDup (tbl : list property_row) (seen : list string) :
  NoDup (distinct_cities tbl seen).
Proof.
  revert seen. induction tbl as [|r tbl IH]; intro seen; simpl; [constructor|].
  destruct (city r) as [c|]; [|apply IH].
  destruct (existsb (String.eqb c) seen); [apply IH|].
  constructor; [|apply IH].
  rewrite distinct_cities_spec. intros [Hnot _]. apply Hnot. now left.
Qed.

(** X9. When [main] returns, the committed [cities] table holds each city
    of the committed listings once, and nothing else; no transaction is
    left open. *)
Theorem main_refreshes_cities (api : remote) (c : connection) :
  outcome (main api) c = Ok tt ->
  let after := state_after (main api) c in
  NoDup (cities (committed after)) /\
  (forall x, In x (cities (committed after)) <->
             exists r, In r (properties (committed after)) /\ city r = Some x) /\
  pending after = committed after.
Proof.
  unfold outcome, state_after. rewrite main_run.
  destruct (fetch_all api 10000 true c) as [[[u|e] c1] t1]; cbn [fst snd];
    [|discriminate].
  intros _. cbn [committed_as committed pending refreshed cities properties].
  split; [apply distinct_cities_NoDup|]. split; [|reflexivity].
  intro x. rewrite distinct_cities_spec. split; [now intros [_ H] | intro H; split; auto].
Qed.

Lemma same_cities_refl (c : connection) : same_cities c c.
Proof. intro H. auto. Qed.

Lemma same_cities_trans (a b c : connection) :
  same_cities a b -> same_cities b c -> same_cities a c.
Proof.
  intros Hab Hbc Ha. destruct (Hab Ha) as [Hb Rab]. destruct (Hbc Hb) as [Hc Rbc].
  split; [exact Hc | congruence].
Qed.

Lemma same_cities_upsert (c : connection) (t : property_tuple) (db : database) :
  upsert_statement (clock c) t (pending c) = inr db ->
  same_cities c {| committed := committed c; pending := db; clock := clock c |}.
Proof.
  unfold upsert_statement. intros H Hc.
  destruct (property_tuple_check t); [discriminate|].
  destruct (t_listing_key (stored_tuple t)); [|discriminate]. inversion H; subst. simpl. auto.
Qed.

Lemma same_cities_media (c : connection) (m : media_row) (db : database) :
  media_statement m (pending c) = inr db ->
  same_cities c {| committed := committed c; pending := db; clock := clock c |}.
Proof.
  unfold media_statement. intros H Hc.
  destruct (media_tuple_check _ m); [discriminate|]. inversion H; subst. simpl. auto.
Qed.

Lemma same_cities_commit (c : connection) :
  same_cities c {| committed := pending c; pending := pending c; clock := clock c + 1 |}.
Proof. intro Hc. simpl. auto. Qed.

Lemma same_cities_rollback (c : connection) :
  same_cities c {| committed := committed c; pending := committed c; clock := clock c + 1 |}.
Proof. intro Hc. simpl. auto. Qed.

Lemma fetch_all_same_cities (api : remote) (limit : Z) (fetch_media : bool)
    (c c' : connection) (r : result unit) (t : list event) :
  fetch_all api limit fetch_media c = (r, c', t) -> same_cities c c'.
Proof.
  intro H.
  eapply (fetch_all_obeys same_cities (fun _ => True)); try eassumption;
    first [ exact same_cities_refl | exact same_cities_trans
          | exact same_cities_upsert | exact same_cities_media
          | exact same_cities_commit | exact same_cities_rollback
          | intros; exact I ].
Qed.

(** X10. When a request for a page raises, [main] raises with it: the
    refresh of [cities] is skipped, the table stays as it was before the
    run, and the run ends where [fetch_all] ended. *)
Theorem main_failure_skips_refresh (api : remote) (db : database) (now : Z) (e : exn) :
  outcome (main api) (connect db now) = Raised e ->
  main api (connect db now) = fetch_all api 10000 true (connect db now) /\
  cities (committed (state_after (main api) (connect db now))) = cities db.
Proof.
  unfold outcome, state_after. rewrite main_run.
  destruct (fetch_all api 10000 true (connect db now)) as [[[u|e'] c1] t1] eqn:Efetch;
    cbn [fst snd]; [discriminate|].
  intros _. split; [reflexivity|].
  destruct (fetch_all_same_cities _ _ _ _ _ _ _ Efetch eq_refl) as [_ H]. exact H.
Qed.

(** ** What an upsert leaves alone *)

Lemma upsert_other_rows (batch : list raw_listing) (c : connection) (r : property_row) :
  In r (properties (pending c)) -> In r (properties (committed c)) ->
  (forall p, In p batch ->
             t_listing_key (property_data_of p) <> Some (listing_key r)) ->
  In r (properties (committed (state_after (insert_properties batch) c))).
Proof.
  intros Hp Hc Hother. rewrite insert_properties_state.
  destruct (accepted batch); simpl; [|exact Hc].
  apply upserted_other; [|exact Hp].
  intros q Hq. apply in_map_iff in Hq. destruct Hq as (p & <- & Hin). now apply Hother.
Qed.

(** X11. [insert_properties] touches the listings of the batch only: a
    row whose key no record of the batch carries is in the table
    afterwards, unchanged, whether the batch is stored or refused. *)
Theorem upsert_leaves_other_listings (batch : list raw_listing) (db : database)
    (now : Z) (r : property_row) :
  In r (properties db) ->
  (forall p, In p batch ->
             t_listing_key (property_data_of p) <> Some (listing_key r)) ->
  In r (properties (committed (state_after (insert_properties batch) (connect db now)))).
Proof. intros Hin Hother. now apply upsert_other_rows. Qed.

Lemma on_conflict_update_origin (excluded r' : property_row) (tbl : list property_row) :
  In r' (on_conflict_update excluded tbl) ->
  (exists r, In r tbl /\ listing_key r = listing_key r' /\ fetched_at r = fetched_at r')
  \/ (r' = excluded /\ ~ In (listing_key excluded) (keys_of tbl)).
Proof.
  induction tbl as [|r0 tbl IH]; simpl.
  - intros [<-|[]]. right. split; [reflexivity | intros []].
  - destruct (String.eqb_spec (listing_key r0) (listing_key excluded)) as [Heq|Hne].
    + intros [<-|Hin].
      * left. exists r0. simpl. auto.
      * left. exists r'. auto.
    + intros [<-|Hin].
      * left. exists r0. auto.
      * destruct (IH Hin) as [(r & Hr & Hk & Hf)|[-> Hnew]].
        -- left. exists r. auto.
        -- right. split; [reflexivity|]. intros [?|?]; contradiction.
Qed.

Lemma on_conflict_update_keeps_time (excluded r : property_row) (tbl : list property_row) :
  In r tbl ->
  exists r', In r' (on_conflict_update excluded tbl) /\
             listing_key r' = listing_key r /\ fetched_at r' = fetched_at r.
Proof.
  induction tbl as [|r0 tbl IH]; simpl; [intros []|].
  destruct (String.eqb (listing_key r0) (listing_key excluded)).
  - intros [<-|Hin].
    + exists (do_update r0 excluded). simpl. auto.
    + exists r. simpl. auto.
  - intros [<-|Hin].
    + exists r0. simpl. auto.
    + destruct (IH Hin) as (r' & Hr' & Hk & Hf). exists r'. simpl. auto.
Qed.

Lemma upserted_origin (now : Z) (tuples : list property_tuple) (tbl : list property_row)
    (r' : property_row) :
  In r' (upserted now tuples tbl) ->
  (exists r, In r tbl /\ listing_key r = listing_key r' /\ fetched_at r = fetched_at r')
  \/ (fetched_at r' = now /\ ~ In (listing_key r') (keys_of tbl)).
Proof.
  revert tbl. induction tuples as [|t rest IH]; intros tbl Hin; simpl in Hin.
  - left. exists r'. auto.
  - destruct (t_listing_key t) as [key|]; [|now apply IH].
    destruct (IH _ Hin) as [(r & Hr & Hk & Hf)|[Hnow Hnew]].
    + destruct (on_conflict_update_origin _ _ _ Hr) as [(r0 & Hr0 & Hk0 & Hf0)|[-> Hnew]].
      * left. exists r0. repeat split; congruence.
      * right. simpl in *. split; congruence.
    + right. split; [exact Hnow|]. intro Hold. apply Hnew.
      now apply on_conflict_update_keeps.
Qed.

Lemma upserted_keeps_time (now : Z) (tuples : list property_tuple)
    (tbl : list property_row) (r : property_row) :
  In r tbl ->
  exists r', In r' (upserted now tuples tbl) /\
             listing_key r' = listing_key r /\ fetched_at r' = fetched_at r.
Proof.
  revert tbl r. induction tuples as [|t rest IH]; intros tbl r Hin; simpl.
  - exists r. auto.
  - destruct (t_listing_key t) as [key|]; [|now apply IH].
    destruct (on_conflict_update_keeps_time (proposed_row now key t) r tbl Hin)
      as (r1 & Hr1 & Hk1 & Hf1).
    destruct (IH _ _ Hr1) as (r' & Hr' & Hk & Hf). exists r'. repeat split; congruence.
Qed.

(** X12. [fetched_at] is the time a listing was first stored, not the
    time it was last seen: after [insert_properties] every row that was
    there keeps its [fetched_at], and every row of the table either
    continues an old row, with its [fetched_at], or has a new key and
    the time of this transaction. *)
Theorem upsert_keeps_fetched_at (batch : list raw_listing) (db : database) (now : Z) :
  let stored :=
    properties (committed (state_after (insert_properties batch) (connect db now))) in
  Forall (fun r => exists r', In r' stored /\ listing_key r' = listing_key r /\
                              fetched_at r' = fetched_at r) (properties db) /\
  Forall (fun r' =>
            (exists r, In r (properties db) /\ listing_key r = listing_key r' /\
                       fetched_at r = fetched_at r')
            \/ (fetched_at r' = now /\ ~ In (listing_key r') (keys_of (properties db))))
         stored.
Proof.
  intro stored. unfold stored. rewrite insert_properties_state.
  destruct (accepted batch); simpl; split; apply Forall_forall; intros r Hr.
  - now apply upserted_keeps_time.
  - now apply upserted_origin in Hr.
  - exists r. auto.
  - left. exists r. auto.
Qed.

(** * Further properties of the search *)

(** ** Photos *)

(** X13. In every element of the search result, [photo_count] counts all
    the media rows of the listing, and the attached media are five of
    them or all of them, whichever is fewer. *)
Theorem media_capped_at_five (params : search_params) (db : database) (h : search_hit) :
  In h (search_properties params db) ->
  photo_count h = media_count (listing_key (hit h)) db /\
  List.length (media h) = Nat.min 5 (photo_count h).
Proof.
  unfold search_properties. intro Hin. apply in_map_iff in Hin.
  destruct Hin as (p & <- & _). cbn [hit photo_count media].
  split; [reflexivity|].
  unfold media_rows. rewrite length_map, limit_length. f_equal.
  symmetry. apply Permutation_length, order_by_perm.
Qed.

(** ** One element per listing *)

Lemma NoDup_map_filter {A B} (f : A -> B) (g : A -> bool) (l : list A) :
  NoDup (map f l) -> NoDup (map f (filter g l)).
Proof.
  induction l as [|a l IH]; simpl; [auto|].
  intro H. inversion H as [|? ? Hnot Hnd]; subst.
  destruct (g a); simpl; [|now apply IH].
  constructor; [|now apply IH].
  intro Hin. apply Hnot. apply in_map_iff in Hin. destruct Hin as (x & Hx & Hf).
  apply filter_In in Hf. apply in_map_iff. exists x. tauto.
Qed.

Lemma NoDup_map_limit {A B} (f : A -> B) (n : nat) (l : list A) :
  NoDup (map f l) -> NoDup (map f (Sql.limit n l)).
Proof.
  intro H. rewrite (limit_cut n l), map_app in H. eapply NoDup_app_remove_r, H.
Qed.

Lemma listing_query_distinct (conditions : list condition) (db : database) :
  NoDup (keys_of (properties db)) -> NoDup (keys_of (listing_query conditions db)).
Proof.
  intro H. unfold listing_query, keys_of. apply NoDup_map_limit.
  eapply Permutation_NoDup; [apply Permutation_map, order_by_perm|].
  now apply NoDup_map_filter.
Qed.

(** X14. No listing comes twice in a search result: with one row per key
    in the table, the keys of the result are pairwise distinct. *)
Theorem search_result_distinct (params : search_params) (db : database) :
  NoDup (keys_of (properties db)) ->
  NoDup (map (fun h => listing_key (hit h)) (search_properties params db)).
Proof.
  intro H. rewrite <- (map_map hit listing_key), search_properties_rows.
  now apply listing_query_distinct.
Qed.

(** ** The city predicate *)

Lemma lower_truthy (c c' : string) :
  Sql.lower c = Sql.lower c' -> Py.truthy_str (Some c) = Py.truthy_str (Some c').
Proof. destruct c, c'; simpl; intro H; try reflexivity; discriminate H. Qed.

Lemma selected_cons (c : condition) (conditions : list condition) (p : property_row) :
  selected (c :: conditions) p = selected [c] p && selected conditions p.
Proof. apply (selected_app [c] conditions). Qed.

Lemma city_condition_ignores_case (c c' : string) (p : property_row) :
  Sql.lower c = Sql.lower c' ->
  eval_condition (CityLike ("%" ++ c ++ "%")) p
  = eval_condition (CityLike ("%" ++ c' ++ "%")) p.
Proof. intro H. cbn [eval_condition]. now rewrite !lower_pattern, H. Qed.

(** X15. The city predicate ignores case: two city values that differ in
    the case of their letters only give the same search result. *)
Theorem city_match_ignores_case (c c' : string) (params : search_params) (db : database) :
  Sql.lower c = Sql.lower c' ->
  search_properties (with_city c params) db = search_properties (with_city c' params) db.
Proof.
  intro H. unfold search_properties, listing_query.
  assert (forall p, selected (conditions_of (with_city c params)) p
                    = selected (conditions_of (with_city c' params)) p) as Hsel.
  { intro p. unfold conditions_of, with_city.
    cbn [get q_city q_min_price q_max_price q_bedrooms q_bathrooms].
    rewrite !selected_app. f_equal. rewrite (lower_truthy c c' H).
    destruct (Py.truthy_str (Some c')); [|reflexivity].
    rewrite !selected_one. now rewrite (city_condition_ignores_case c c' p H). }
  now rewrite (filter_ext _ _ Hsel).
Qed.

(** X16. For a city value without [%], [_] or backslash, the condition
    built by [search_properties] is true of a listing exactly when the
    listing has a city and the value occurs in it, letters compared
    without case. *)
Theorem city_match_is_substring (c : string) (p : property_row) :
  literal c = true ->
  eval_condition (CityLike ("%" ++ c ++ "%")) p = Some true <->
  exists x, city p = Some x /\ substring_of (Sql.lower c) (Sql.lower x).
Proof.
  intro Hlit. cbn [eval_condition]. rewrite lower_pattern.
  destruct (city p) as [x|]; cbn [option_map].
  - assert (literal (Sql.lower c) = true) as Hlow by (now rewrite lower_literal).
    split.
    + intro H. exists x. split; [reflexivity|].
      apply (like_substring _ _ Hlow). congruence.
    + intros (x' & Hx & H). inversion Hx; subst x'.
      apply (like_substring _ _ Hlow) in H. now rewrite H.
  - split; [discriminate | intros (x & Hx & _); discriminate Hx].
Qed.

(** * From ingestion to search *)

Lemma accepted_has_key (batch : list raw_listing) (p : raw_listing) :
  accepted batch = true -> In p batch ->
  timestamp (t_last_updated (property_data_of p)) = true /\
  exists key, t_listing_key (property_data_of p) = Some key.
Proof.
  intros Hacc Hin. apply accepted_tuples in Hacc. rewrite Forall_forall in Hacc.
  apply property_tuple_check_none, Hacc, in_map, Hin.
Qed.

(** The row stored for the last record of an accepted batch with its key. *)
Lemma stored_row_of_last_record (before rest : list raw_listing) (p : raw_listing)
    (c : connection) :
  accepted (before ++ p :: rest) = true ->
  (forall q, In q rest ->
             t_listing_key (property_data_of q) <> t_listing_key (property_data_of p)) ->
  exists r,
    In r (properties (committed (state_after (insert_properties (before ++ p :: rest)) c)))
    /\ row_values r = property_data_of p.
Proof.
  intros Hacc Hlast.
  destruct (accepted_has_key _ p Hacc) as (Htime & key & Hkey);
    [apply in_or_app; right; now left|].
  rewrite (insert_properties_accepted _ c Hacc). cbn [committed properties].
  rewrite map_app. cbn [map].
  eapply upserted_last_wins; [exact Hkey | exact Htime |].
  intros q Hq. apply in_map_iff in Hq. destruct Hq as (q0 & <- & Hq0). now apply Hlast.
Qed.

Lemma search_finds_matching_row (params : search_params) (db : database)
    (r : property_row) :
  plain params = true -> In r (properties db) -> matches params r = true ->
  (List.length (filter (matches params) (properties db)) <= 10)%nat ->
  In r (map hit (search_properties params db)).
Proof.
  intros Hplain Hin Hmatch Hfew.
  assert (filter (matches params) (properties db)
          = filter (selected (conditions_of params)) (properties db)) as Heq.
  { apply filter_ext. intro x. symmetry. now apply selected_conditions_of. }
  rewrite Heq in Hfew. rewrite search_properties_rows.
  destruct (listing_query_rows (conditions_of params) db) as (_ & _ & _ & Hall).
  eapply Permutation_in; [symmetry; apply Hall, Hfew|].
  apply filter_In. split; [exact Hin|]. now rewrite selected_conditions_of.
Qed.

(** X17. What is ingested can be searched: after a batch the store takes,
    the table holds a row with the values of the last record of each
    key; and a search with predicates none of which is zero, the empty
    string or a city with one of [%], [_] and backslash returns that row
    when it satisfies them, as long as at most ten rows satisfy them. *)
Theorem ingested_listing_is_found (before rest : list raw_listing) (p : raw_listing)
    (params : search_params) (c : connection) :
  accepted (before ++ p :: rest) = true ->
  (forall q, In q rest ->
             t_listing_key (property_data_of q) <> t_listing_key (property_data_of p)) ->
  plain params = true ->
  let db := committed (state_after (insert_properties (before ++ p :: rest)) c) in
  exists r,
    In r (properties db) /\ row_values r = property_data_of p /\
    (matches params r = true ->
     (List.length (filter (matches params) (properties db)) <= 10)%nat ->
     In r (map hit (search_properties params db))).
Proof.
  intros Hacc Hlast Hplain db.
  destruct (stored_row_of_last_record before rest p c Hacc Hlast) as (r & Hin & Hv).
  exists r. split; [exact Hin|]. split; [exact Hv|].
  intros Hmatch Hfew. now apply search_finds_matching_row.
Qed.

Lemma NoDup_keys_same_row (tbl : list property_row) (r r' : property_row) :
  NoDup (keys_of tbl) -> In r tbl -> In r' tbl -> listing_key r = listing_key r' -> r = r'.
Proof.
  unfold keys_of. induction tbl as [|r0 tbl IH]; simpl; [intros _ []|].
  intros Hnd Hr Hr' Hk. inversion Hnd as [|? ? Hnot Hnd']; subst.
  destruct Hr as [<-|Hr], Hr' as [<-|Hr']; auto.
  - elim Hnot. rewrite Hk. now apply in_map.
  - elim Hnot. rewrite <- Hk. now apply in_map.
Qed.

Lemma city_search_needs_city (params : search_params) (c0 : string) (r : property_row) :
  get (q_city params) = Some c0 -> c0 <> EmptyString -> city r = None ->
  selected (conditions_of params) r = false.
Proof.
  intros Hget Hne Hcity. unfold conditions_of. rewrite Hget.
  assert (Py.truthy_str (Some c0) = true) as -> by (destruct c0; [now elim Hne | reflexivity]).
  rewrite selected_app, selected_one. cbn [eval_condition]. now rewrite Hcity.
Qed.

(** X18. The upsert overwrites with what the record lacks too: after a
    batch the store takes, in which the last record of a key has no
    [City], no search with a city predicate returns that listing,
    whatever city it had before. *)
Theorem record_without_city_is_lost_to_city_search (before rest : list raw_listing)
    (p : raw_listing) (key c0 : string) (params : search_params) (c : connection) :
  NoDup (keys_of (properties (pending c))) ->
  accepted (before ++ p :: rest) = true ->
  (forall q, In q rest ->
             t_listing_key (property_data_of q) <> t_listing_key (property_data_of p)) ->
  t_listing_key (property_data_of p) = Some key ->
  City p = None ->
  get (q_city params) = Some c0 -> c0 <> EmptyString ->
  let db := committed (state_after (insert_properties (before ++ p :: rest)) c) in
  Forall (fun h => listing_key (hit h) <> key) (search_properties params db).
Proof.
  intros Hnd Hacc Hlast Hkey Hcity Hget Hne db.
  destruct (stored_row_of_last_record before rest p c Hacc Hlast) as (r & Hin & Hv).
  fold db in Hin.
  assert (NoDup (keys_of (properties db))) as Hnd'.
  { unfold db. rewrite (insert_properties_accepted _ c Hacc). cbn [committed properties].
    now apply upserted_NoDup. }
  assert (listing_key r = key /\ city r = None) as [Hrk Hrc].
  { pose proof (f_equal t_listing_key Hv) as H1. pose proof (f_equal t_city Hv) as H2.
    cbn [row_values t_listing_key t_city] in H1, H2.
    rewrite Hkey in H1. cbn [property_data_of t_city] in H2.
    rewrite Hcity in H2. cbn in H2. split; congruence. }
  apply Forall_forall. intros h Hh Hhk.
  assert (In (hit h) (listing_query (conditions_of params) db)) as Hq.
  { rewrite <- search_properties_rows. now apply in_map. }
  destruct (listing_query_rows (conditions_of params) db) as (Hrows & _).
  destruct (Hrows _ Hq) as [Hhin Hsel].
  assert (hit h = r) as Heq by (apply (NoDup_keys_same_row _ _ _ Hnd' Hhin Hin); congruence).
  rewrite Heq, (city_search_needs_city params c0 r Hget Hne Hrc) in Hsel.
  discriminate Hsel.
Qed.

(** * The conversation and the service *)

Lemma fallback_lines_raises (i : nat) (properties : list search_hit) (result : string) :
  fallback_lines i properties result = RaiseTypeError <->
  exists p, In p properties /\ list_price (hit p) = None.
Proof.
  revert i result. induction properties as [|p rest IH]; intros i result; simpl.
  - split; [discriminate | intros (p & [] & _)].
  - destruct (list_price (hit p)) as [price|] eqn:Hprice.
    + rewrite IH. split.
      * intros (x & Hx & Hnone). exists x. auto.
      * intros (x & [<-|Hx] & Hnone); [congruence | exists x; auto].
    + split; [intros _; exists p; auto | reflexivity].
Qed.

(** X19. With no answer from the model, [format_response] raises exactly
    when one of the first five properties has no price; otherwise it
    returns its own text. *)
Theorem fallback_needs_prices (ai : openai) (p : search_hit) (rest : list search_hit)
    (user_message : string) :
  present_reply ai (firstn 5 (p :: rest)) user_message = None ->
  format_response ai (p :: rest) user_message = RaiseTypeError <->
  exists x, In x (firstn 5 (p :: rest)) /\ list_price (hit x) = None.
Proof.
  intro Hdown. unfold format_response. rewrite Hdown. apply fallback_lines_raises.
Qed.

Lemma unpriced_comes_first (hits : list search_hit) (x : search_hit) :
  StronglySorted
    (fun a b => Sql.desc (list_price (hit a)) (list_price (hit b)) = true) hits ->
  In x hits -> list_price (hit x) = None ->
  exists first rest, hits = first :: rest /\ list_price (hit first) = None.
Proof.
  intros Hs Hin Hnone. destruct hits as [|first rest]; [destruct Hin|].
  exists first, rest. split; [reflexivity|].
  destruct Hin as [->|Hin]; [exact Hnone|].
  inversion Hs as [|? ? _ Hfirst]; subst. rewrite Forall_forall in Hfirst.
  specialize (Hfirst x Hin). rewrite Hnone in Hfirst.
  now destruct (list_price (hit first)).
Qed.

(** X20. One listing without price among the results is enough to lose
    the whole answer when the model does not present them: the result is
    sorted with the unpriced listings first, the text [format_response]
    falls back to cannot print the first one, and the [chat] endpoint
    answers that it has trouble, with no property at all. *)
Theorem chat_fails_on_unpriced_listing (ai : openai) (db : database)
    (request : chat_request) (x : search_hit) :
  let message := request_message request in
  let hits := search_properties (extract_parameters ai message) db in
  contains "help" (Sql.lower message) || contains "cities" (Sql.lower message) = false ->
  present_reply ai (firstn 5 hits) message = None ->
  In x hits -> list_price (hit x) = None ->
  chat ai db request = trouble_response request.
Proof.
  intros message hits Hhelp Hdown Hin Hnone.
  destruct (unpriced_comes_first hits x (search_properties_sorted _ db) Hin Hnone)
    as (first & rest & Hhits & Hfirst).
  unfold chat, process_message. fold message. rewrite Hhelp. cbv zeta. fold hits.
  assert (format_response ai hits message = RaiseTypeError) as ->; [|reflexivity].
  rewrite Hhits in *. unfold format_response. rewrite Hdown.
  apply fallback_lines_raises. exists first. split; [now left | exact Hfirst].
Qed.

Lemma process_message_bounds (ai : openai) (db : database) (message : string)
    (result : chat_result) :
  process_message ai db message = Return result ->
  (List.length (r_properties result) <= 10)%nat /\
  (List.length (r_media_urls result) <= 9)%nat.
Proof.
  unfold process_message.
  destruct (contains "help" (Sql.lower message) || contains "cities" (Sql.lower message)).
  - intro H. inversion H; subst. simpl. lia.
  - cbv zeta. destruct (format_response ai _ message) as [response|]; [|discriminate].
    intro H. inversion H; subst. cbn [r_properties r_media_urls]. split.
    + unfold search_properties, listing_query. rewrite length_map, limit_length. lia.
    + apply media_urls_length.
Qed.

Lemma format_property_within_bounds (prop : search_hit) :
  within_bounds (format_property prop).
Proof.
  unfold within_bounds, format_property. cbn [f_media_urls f_description]. split.
  - rewrite length_map. apply firstn_le_length.
  - destruct (public_remarks (hit prop)) as [remarks|]; [|exact I].
    destruct (Py.truthy_str (Some remarks)); [|exact I].
    unfold Py.slice_to. cbn. apply take_length.
Qed.

(** X21. Whatever the model and the table, the answer of the [chat]
    endpoint carries at most ten properties, their number in
    [property_count], at most three media URLs and at most 200
    characters of description for each, and at most nine URLs in all. *)
Theorem chat_response_bounds (ai : openai) (db : database) (request : chat_request) :
  let response := chat ai db request in
  c_property_count response = List.length (c_properties response) /\
  (c_property_count response <= 10)%nat /\
  Forall within_bounds (c_properties response) /\
  (List.length (c_media_urls response) <= 9)%nat /\
  c_session_id response = request_session_id request.
Proof.
  unfold chat.
  destruct (process_message ai db (request_message request)) as [result|] eqn:Hrun;
    cbn [c_property_count c_properties c_media_urls c_session_id].
  - destruct (process_message_bounds _ _ _ _ Hrun) as [Hprops Hurls].
    split; [reflexivity|]. split.
    + rewrite length_map. eapply Nat.le_trans; [apply firstn_le_length | lia].
    + split; [|split; [exact Hurls | reflexivity]].
      apply Forall_map, Forall_forall. intros prop _.
      apply format_property_within_bounds.
  - simpl. repeat split; try lia. constructor.
Qed.

(** X22. A message in which the word help or the word cities occurs, in
    any case and anywhere, is answered with the list of cities: the
    message of the answer is a heading, the first ten lines of
    [get_available_cities], one per line, and a hint; the answer has no
    property and no URL; no search is made, and the answer is the same
    whatever the model would say. *)
Theorem help_or_cities_lists_cities (ai : openai) (db : database) (message : string) :
  substring_of "help" (Sql.lower message) \/ substring_of "cities" (Sql.lower message) ->
  process_message ai db message =
  Return {| r_success := true;
            r_message := ("Available cities:" ++ newline
                          ++ String.concat newline (firstn 10 (get_available_cities db))
                          ++ newline ++ newline
                          ++ "Try: 'Show me houses in Toronto'")%string;
            r_properties := [];
            r_media_urls := [] |}.
Proof.
  intro H.
  assert (contains "help" (Sql.lower message) || contains "cities" (Sql.lower message)
          = true) as Hhelp.
  { apply orb_true_iff. destruct H as [H|H]; [left | right]; now apply contains_spec. }
  unfold process_message. rewrite Hhelp. reflexivity.
Qed.



(** * The statements at sample data *)

Lemma insert_media_twice_duplicates_witness :
  let c := connect Sample.catalogue 7 in
  media_accepted (pending c) More.photos = true /\
  property_media
    (committed (state_after (insert_media More.photos)
                  (state_after (insert_media More.photos) c)))
  = property_media (pending c) ++ More.photos ++ More.photos.
Proof.
  intro c. split; [reflexivity|].
  exact (insert_media_twice_duplicates More.photos c eq_refl).
Defined.

Lemma fetch_all_reports_fetched_witness :
  let c := connect Sample.catalogue 7 in
  outcome (fetch_all Sample.api 500 true) c = Ok tt /\
  exists t,
    trace (fetch_all Sample.api 500 true) c =
    t ++ [Print (FetchComplete (records_at Sample.api (fetched_offsets t)))].
Proof.
  intro c. split; [reflexivity|].
  exact (fetch_all_reports_fetched Sample.api 500 true c eq_refl).
Defined.

Lemma main_refreshes_cities_witness :
  let c := connect Sample.catalogue 7 in
  outcome (main Sample.api) c = Ok tt /\
  NoDup (cities (committed (state_after (main Sample.api) c))) /\
  pending (state_after (main Sample.api) c) = committed (state_after (main Sample.api) c).
Proof.
  intro c. split; [vm_compute; reflexivity|].
  destruct (main_refreshes_cities Sample.api c) as (Hnd & _ & Hsame).
  - vm_compute. reflexivity.
  - split; [exact Hnd | exact Hsame].
Defined.

Lemma main_failure_skips_refresh_witness :
  outcome (main More.media_api) (connect Sample.catalogue 7) = Raised TransportError /\
  cities (committed (state_after (main More.media_api) (connect Sample.catalogue 7)))
  = cities Sample.catalogue.
Proof.
  split; [vm_compute; reflexivity|].
  apply (main_failure_skips_refresh More.media_api Sample.catalogue 7 TransportError).
  vm_compute. reflexivity.
Defined.

Lemma upsert_leaves_other_listings_witness :
  let b2 := Sample.row "B2" (Some "Mississauga") (Some 650000) (Some 2) in
  In b2 (properties Sample.catalogue) /\
  In b2 (properties (committed (state_after (insert_properties Sample.batch)
                                  (connect Sample.catalogue 7)))).
Proof.
  intro b2.
  assert (In b2 (properties Sample.catalogue)) as Hin by (right; left; reflexivity).
  split; [exact Hin|].
  apply (upsert_leaves_other_listings Sample.batch Sample.catalogue 7 b2 Hin).
  intros p [<-|[<-|[<-|[]]]]; discriminate.
Defined.

Lemma media_capped_at_five_witness :
  In Sample.a1_hit (search_properties no_params Sample.catalogue) /\
  photo_count Sample.a1_hit = media_count "A1" Sample.catalogue /\
  List.length (media Sample.a1_hit) = Nat.min 5 (photo_count Sample.a1_hit).
Proof.
  assert (In Sample.a1_hit (search_properties no_params Sample.catalogue)) as Hin.
  { vm_compute. right. left. reflexivity. }
  split; [exact Hin|].
  exact (media_capped_at_five no_params Sample.catalogue Sample.a1_hit Hin).
Defined.

Lemma search_result_distinct_witness :
  NoDup (keys_of (properties Sample.catalogue)) /\
  NoDup (map (fun h => listing_key (hit h))
           (search_properties Sample.toronto_under_a_million Sample.catalogue)).
Proof.
  assert (NoDup (keys_of (properties Sample.catalogue))) as Hnd.
  { simpl. repeat constructor; simpl; intuition discriminate. }
  split; [exact Hnd|].
  exact (search_result_distinct Sample.toronto_under_a_million Sample.catalogue Hnd).
Defined.

Lemma city_match_ignores_case_witness :
  Sql.lower "TORONTO" = Sql.lower "toronto" /\
  search_properties (with_city "TORONTO" no_params) Sample.catalogue
  = search_properties (with_city "toronto" no_params) Sample.catalogue.
Proof.
  split; [reflexivity|].
  exact (city_match_ignores_case "TORONTO" "toronto" no_params Sample.catalogue eq_refl).
Defined.

Lemma city_match_is_substring_witness :
  literal "ront" = true /\
  (eval_condition (CityLike ("%" ++ "ront" ++ "%")) Sample.a1 = Some true <->
   exists x, city Sample.a1 = Some x /\ substring_of (Sql.lower "ront") (Sql.lower x)).
Proof.
  split; [reflexivity|].
  exact (city_match_is_substring "ront" Sample.a1 eq_refl).
Defined.

Lemma ingested_listing_is_found_witness :
  let before := [ Sample.listing (Some "A1") (Some "Toronto") (Some 925000) (Some 3);
                  Sample.listing (Some "E5") (Some "Hamilton") (Some 300000) None ] in
  let p := Sample.listing (Some "A1") (Some "Toronto") (Some 950000) (Some 4) in
  let c := connect Sample.catalogue 7 in
  let db := committed (state_after (insert_properties (before ++ [p])) c) in
  accepted (before ++ [p]) = true /\
  plain Sample.toronto_under_a_million = true /\
  exists r,
    In r (properties db) /\ row_values r = property_data_of p /\
    (matches Sample.toronto_under_a_million r = true ->
     (List.length (filter (matches Sample.toronto_under_a_million) (properties db))
      <= 10)%nat ->
     In r (map hit (search_properties Sample.toronto_under_a_million db))).
Proof.
  intros before p c db. split; [reflexivity|]. split; [reflexivity|].
  apply (ingested_listing_is_found before [] p Sample.toronto_under_a_million c).
  - reflexivity.
  - intros q [].
  - reflexivity.
Defined.

Lemma record_without_city_is_lost_to_city_search_witness :
  let c := connect Sample.catalogue 7 in
  let db := committed (state_after (insert_properties [More.a1_without_city]) c) in
  NoDup (keys_of (properties (pending c))) /\
  accepted [More.a1_without_city] = true /\
  City More.a1_without_city = None /\
  Forall (fun h => listing_key (hit h) <> "A1")
    (search_properties Sample.toronto_under_a_million db).
Proof.
  intros c db.
  assert (NoDup (keys_of (properties (pending c)))) as Hnd.
  { simpl. repeat constructor; simpl; intuition discriminate. }
  split; [exact Hnd|]. split; [reflexivity|]. split; [reflexivity|].
  apply (record_without_city_is_lost_to_city_search [] [] More.a1_without_city
           "A1" "toronto" Sample.toronto_under_a_million c Hnd eq_refl).
  - intros q [].
  - reflexivity.
  - reflexivity.
  - reflexivity.
  - discriminate.
Defined.

Lemma fallback_needs_prices_witness :
  present_reply More.down (firstn 5 [More.c3_hit; Sample.a1_hit]) "show me houses" = None /\
  format_response More.down [More.c3_hit; Sample.a1_hit] "show me houses"
  = RaiseTypeError.
Proof.
  split; [reflexivity|].
  apply (fallback_needs_prices More.down More.c3_hit [Sample.a1_hit] "show me houses"
           eq_refl).
  exists More.c3_hit. split; [left; reflexivity | reflexivity].
Defined.

Lemma chat_fails_on_unpriced_listing_witness :
  In More.c3_hit
    (search_properties (extract_parameters More.down "show me houses") Sample.catalogue) /\
  list_price (hit More.c3_hit) = None /\
  chat More.down Sample.catalogue More.houses = trouble_response More.houses.
Proof.
  assert (In More.c3_hit
            (search_properties (extract_parameters More.down "show me houses")
               Sample.catalogue)) as Hin.
  { vm_compute. left. reflexivity. }
  split; [exact Hin|]. split; [reflexivity|].
  exact (chat_fails_on_unpriced_listing More.down Sample.catalogue More.houses
           More.c3_hit eq_refl eq_refl Hin eq_refl).
Defined.

Lemma help_or_cities_lists_cities_witness :
  substring_of "cities" (Sql.lower "What CITIES are available?") /\
  process_message More.down Sample.catalogue "What CITIES are available?" =
  Return {| r_success := true;
            r_message := ("Available cities:" ++ newline
                          ++ "Toronto (2 properties)" ++ newline
                          ++ "Mississauga (1 properties)" ++ newline ++ newline
                          ++ "Try: 'Show me houses in Toronto'")%string;
            r_properties := [];
            r_media_urls := [] |}.
Proof.
  assert (substring_of "cities" (Sql.lower "What CITIES are available?")) as Hsub.
  { exists "what ", " are available?". reflexivity. }
  split; [exact Hsub|].
  rewrite (help_or_cities_lists_cities More.down Sample.catalogue
             "What CITIES are available?" (or_intror Hsub)).
  reflexivity.
Defined.
